(** * Catalyst extraction pipeline: batching, parsing, normalisation, dispatch

    A shallow embedding of the extractor pipeline
    (extractors/base_extractor.py, extractors/asx_annual.py,
    extractors/asx_quarterly.py, extractors/asx_investor.py,
    extractors/sec_10q.py, models/, pipeline/dispatcher.py,
    extractors/registry.py) together with the properties proved about it. *)

From Stdlib Require Import ZArith QArith Ascii String DecimalString DecimalNat.
From stdpp Require Import gmap strings list fin_maps.

Set Warnings "-register-all".
Local Open Scope nat_scope.

(** ** Python strings

    A [str] is modelled as the list of its characters, each an 8-bit code
    point; the character classes below are Python's, restricted to that
    range. *)

Definition pystr := list ascii.

Definition py (s : string) : pystr := list_ascii_of_string s.
Global Arguments py : simpl never.

Module PyStr.

Definition code (c : ascii) : N := N_of_ascii c.

Definition in_range (lo hi n : N) : bool := ((lo <=? n) && (n <=? hi))%N.

(** [str.isspace] on one character; the regular-expression class [\s]
    coincides with it on this range. *)
Definition is_space (c : ascii) : bool :=
  let n := code c in
  in_range 9 13 n || in_range 28 32 n || (n =? 133)%N || (n =? 160)%N.

(** Boundaries recognised by [str.splitlines]. *)
Definition is_linebreak (c : ascii) : bool :=
  let n := code c in
  in_range 10 13 n || in_range 28 30 n || (n =? 133)%N.

Definition lower_char (c : ascii) : ascii :=
  let n := code c in
  if in_range 65 90 n || in_range 192 214 n || in_range 216 222 n
  then ascii_of_N (n + 32) else c.

(** Three characters of the range (181, 223, 255) have an upper-case form
    outside it; they are left in place, which like their true images never
    equals an ASCII letter. *)
Definition upper_char (c : ascii) : ascii :=
  let n := code c in
  if in_range 97 122 n || in_range 224 246 n || in_range 248 254 n
  then ascii_of_N (n - 32) else c.

Definition lower (s : pystr) : pystr := lower_char <$> s.
Definition upper (s : pystr) : pystr := upper_char <$> s.

Fixpoint lstrip (s : pystr) : pystr :=
  match s with
  | c :: r => if is_space c then lstrip r else s
  | [] => []
  end.

Definition rstrip (s : pystr) : pystr := reverse (lstrip (reverse s)).

Definition strip (s : pystr) : pystr := rstrip (lstrip s).

Fixpoint startswith (p s : pystr) : bool :=
  match p, s with
  | [], _ => true
  | a :: p', b :: s' => bool_decide (a = b) && startswith p' s'
  | _ :: _, [] => false
  end.

(** [sub in s] *)
Fixpoint contains (sub s : pystr) : bool :=
  startswith sub s ||
  match s with
  | [] => false
  | _ :: r => contains sub r
  end.

(** [s.find(sub)]: [None] stands for [-1]. *)
Fixpoint find (sub s : pystr) : option nat :=
  if startswith sub s then Some 0
  else match s with
       | [] => None
       | _ :: r => S <$> find sub r
       end.

(** [s.rfind(sub)]: [None] stands for [-1]. *)
Fixpoint rfind (sub s : pystr) : option nat :=
  match s with
  | [] => if startswith sub [] then Some 0 else None
  | _ :: r =>
      match rfind sub r with
      | Some i => Some (S i)
      | None => if startswith sub s then Some 0 else None
      end
  end.

(** [sep.join(parts)] *)
Fixpoint join (sep : pystr) (parts : list pystr) : pystr :=
  match parts with
  | [] => []
  | [p] => p
  | p :: rest => p ++ sep ++ join sep rest
  end.

(** [s.splitlines()]: [cur] is the line being read.  A final line without
    terminator is kept unless it is empty; a carriage return followed by a
    line feed is a single boundary. *)
Fixpoint splitlines_from (cur s : pystr) : list pystr :=
  match s with
  | [] => match cur with [] => [] | _ => [cur] end
  | c :: r =>
      if is_linebreak c then
        match r with
        | d :: r' =>
            if (code c =? 13)%N && (code d =? 10)%N
            then cur :: splitlines_from [] r'
            else cur :: splitlines_from [] r
        | [] => [cur]
        end
      else splitlines_from (cur ++ [c]) r
  end.

Definition splitlines (s : pystr) : list pystr := splitlines_from [] s.

(** [str(n)] for a machine-independent integer. *)
Definition str_of_nat (n : nat) : pystr :=
  py (NilEmpty.string_of_uint (Nat.to_uint n)).

Definition str_of_Z (z : Z) : pystr :=
  py (NilZero.string_of_int (Z.to_int z)).

(** [list(dict.fromkeys(l))]: first occurrences, in order. *)
Fixpoint fromkeys_list (l : list pystr) : list pystr :=
  match l with
  | [] => []
  | x :: r => x :: filter (fun y => y <> x) (fromkeys_list r)
  end.

End PyStr.

(** ** Python lists: [range] with a step and slicing *)

Module PyList.

(** [range(start, stop, step)] for a positive step.  CPython computes the
    length as [(stop - start - 1) // step + 1] when [start < stop]. *)
Definition range_len (start stop step : nat) : nat :=
  if stop <=? start then 0 else (stop - start - 1) / step + 1.

Definition range (start stop step : nat) : list nat :=
  (fun k => start + k * step) <$> seq 0 (range_len start stop step).

(** [l[i:j]] for non-negative bounds; both bounds are clipped to [len(l)]. *)
Definition slice {A} (l : list A) (i j : nat) : list A :=
  take (j - i) (drop i l).

End PyList.

(** ** The adaptive batcher (annual, quarterly and 10-Q extractors) *)

Module Batcher.
Import PyList.

(** The [if n <= 10 ... elif n < 30 ...] ladder of [extract]. *)
Definition num_batches (n : nat) : nat :=
  if n <=? 10 then 1
  else if n <? 30 then 2
  else if n <? 50 then 3
  else if n <? 70 then 5
  else if n <? 80 then 6
  else if n <? 90 then 7
  else if n <? 100 then 8
  else 9.

(** [max(1, (n + num_batches - 1) // num_batches)] *)
Definition batch_size (n : nat) : nat :=
  Nat.max 1 ((n + num_batches n - 1) / num_batches n).

Section Batches.
Context {A : Type}.

(** [[candidates[i:i + batch_size] for i in range(0, n, batch_size)]] *)
Definition slices (candidates : list A) : list (list A) :=
  let n := length candidates in
  let bs := batch_size n in
  (fun i => slice candidates i (i + bs)) <$> range 0 n bs.

(** [batches = batches[:num_batches]] *)
Definition batches (candidates : list A) : list (list A) :=
  take (num_batches (length candidates)) (slices candidates).

(** The investor extractor has its own two-way split. *)
Definition investor_batches (candidates : list A) : list (list A) :=
  let n := length candidates in
  if n <=? 10 then [candidates]
  else
    let first_batch := (n + 1) / 2 in
    [slice candidates 0 first_batch; slice candidates first_batch n].

End Batches.
End Batcher.

(** ** Python values as they come out of [json.loads] *)

Inductive pyfloat :=
| FFinite (q : Q)
| FNaN
| FInf (negative : bool).

(** A [dict] keeps its keys in insertion order; it is an association list
    whose keys are distinct. *)
Inductive json :=
| JNull
| JBool (b : bool)
| JInt (z : Z)
| JFloat (f : pyfloat)
| JStr (s : pystr)
| JArr (items : list json)
| JObj (fields : list (pystr * json)).

Module PyVal.
Import PyStr.

Fixpoint assoc (k : pystr) (fields : list (pystr * json)) : option json :=
  match fields with
  | [] => None
  | (k', v) :: rest => if decide (k' = k) then Some v else assoc k rest
  end.

(** [d.get(k, dflt)]; on anything but a dict the attribute [get] is
    missing and the call raises ([None]). *)
Definition get (d : json) (k : pystr) (dflt : json) : option json :=
  match d with
  | JObj fields => Some (default dflt (assoc k fields))
  | _ => None
  end.

(** [d.get(k)], on a value known to be a dict. *)
Definition dict_get (d : list (pystr * json)) (k : pystr) : json :=
  default JNull (assoc k d).

(** Truth value of [v] as Python's [if v] and [v or ...] see it. *)
Definition truthy (v : json) : bool :=
  match v with
  | JNull => false
  | JBool b => b
  | JInt z => negb (z =? 0)%Z
  | JFloat (FFinite q) => negb (Qnum q =? 0)%Z
  | JFloat _ => true
  | JStr s => negb (bool_decide (s = []))
  | JArr l => negb (bool_decide (length l = 0))
  | JObj l => negb (bool_decide (length l = 0))
  end.

(** [for x in v]: the elements of a list, the characters of a string, the
    keys of a dict; any other value is not iterable and raises ([None]). *)
Definition iterate (v : json) : option (list json) :=
  match v with
  | JArr l => Some l
  | JStr s => Some ((fun c => JStr [c]) <$> s)
  | JObj fields => Some ((fun kv => JStr kv.1) <$> fields)
  | _ => None
  end.

Definition digit_value (c : ascii) : option Z :=
  let n := code c in
  if in_range 48 57 n then Some (Z.of_N (n - 48)) else None.

(** Digits of an integer literal: underscores may separate digits, one at
    a time.  [after_digit] tells whether the previous character was a
    digit. *)
Fixpoint int_digits (acc : Z) (after_digit : bool) (s : pystr) : option Z :=
  match s with
  | [] => if after_digit then Some acc else None
  | c :: r =>
      match digit_value c with
      | Some d => int_digits (10 * acc + d)%Z true r
      | None =>
          if bool_decide (c = "_"%char) && after_digit
          then match r with
               | [] => None
               | _ => int_digits acc false r
               end
          else None
      end
  end.

(** White space as [int] skips it around a literal: the characters of
    [str.isspace] less the four separators 28 to 31. *)
Definition is_int_space (c : ascii) : bool :=
  let n := code c in
  in_range 9 13 n || (n =? 32)%N || (n =? 133)%N || (n =? 160)%N.

Fixpoint int_lstrip (s : pystr) : pystr :=
  match s with
  | c :: r => if is_int_space c then int_lstrip r else s
  | [] => []
  end.

Definition int_strip (s : pystr) : pystr :=
  reverse (int_lstrip (reverse (int_lstrip s))).

(** [sys.get_int_max_str_digits()]: a literal with more digits is refused. *)
Definition int_max_str_digits : N := 4300.

Definition count_digits (s : pystr) : N :=
  N.of_nat (length (filter (fun c => is_Some (digit_value c)) s)).

(** [int(s)] for a string: surrounding white space and one sign are
    allowed; [None] is [ValueError]. *)
Definition int_of_str (s : pystr) : option Z :=
  match int_strip s with
  | c :: r =>
      if (int_max_str_digits <? count_digits (c :: r))%N then None
      else if bool_decide (c = "-"%char) then Z.opp <$> int_digits 0 false r
      else if bool_decide (c = "+"%char) then int_digits 0 false r
      else int_digits 0 false (c :: r)
  | [] => None
  end.

(** [int(v)]; [None] stands for the [ValueError], [TypeError] or
    [OverflowError] that Python raises. *)
Definition int_of (v : json) : option Z :=
  match v with
  | JInt z => Some z
  | JBool b => Some (if b then 1 else 0)%Z
  | JFloat (FFinite q) => Some (Z.quot (Qnum q) (Z.pos (Qden q)))
  | JFloat _ => None
  | JStr s => int_of_str s
  | JNull | JArr _ | JObj _ => None
  end.

End PyVal.

(** ** models/enums.py *)

Inductive Impact := HIGH | MED | LOW.
Inductive Tone := POSITIVE | NEUTRAL | CAUTIOUS.
Inductive ForecastType :=
| INTENT | TIMING | CONTRACTUAL | GUIDANCE | REGULATORY
| STRATEGY | HINTS | MILESTONES | DEALS.
Inductive FilingType := ASX_ANNUAL | ASX_QUARTERLY | ASX_INVESTOR | SEC_10Q.

Module Enums.

Definition Impact_value (i : Impact) : pystr :=
  match i with HIGH => py "HIGH" | MED => py "MED" | LOW => py "LOW" end.

Definition Tone_value (t : Tone) : pystr :=
  match t with
  | POSITIVE => py "positive"
  | NEUTRAL => py "neutral"
  | CAUTIOUS => py "cautious"
  end.

Definition FilingType_value (f : FilingType) : pystr :=
  match f with
  | ASX_ANNUAL => py "annual"
  | ASX_QUARTERLY => py "quarterly"
  | ASX_INVESTOR => py "investor"
  | SEC_10Q => py "SEC_10Q"
  end.

(** Calling an enumeration class on a value looks the value up among the
    members' values; a value that is not there raises [ValueError]
    ([None]).  Only a string can equal a member's value. *)
Definition by_value {E} (members : list E) (value : E -> pystr) (v : json)
  : option E :=
  match v with
  | JStr s => list_find (fun m => value m = s) members ≫= fun p => Some p.2
  | _ => None
  end.

Definition Impact_of : json -> option Impact :=
  by_value [HIGH; MED; LOW] Impact_value.

Definition Tone_of : json -> option Tone :=
  by_value [POSITIVE; NEUTRAL; CAUTIOUS] Tone_value.

Global Arguments Impact_of : simpl never.
Global Arguments Tone_of : simpl never.

End Enums.

(** ** What the pipeline takes from outside

    Library calls and remote services whose results the pipeline only
    consumes.  [llm_invoke] is indexed by the number of invocations made
    so far, since the service may answer the same prompt differently. *)

Inductive exn :=
| InvalidFilingError
| ExtractionError
| KeyError
| OtherError.

Inductive result (A : Type) :=
| Ok (a : A)
| Raise (e : exn).
Arguments Ok {A} a.
Arguments Raise {A} e.

Record llm_response := {
  content : pystr;      (* [resp.content] *)
  as_str : pystr;       (* [str(resp)] *)
}.

Record section_ := {
  heading : pystr;
  sec_text : pystr;
}.

Class External := {
  (** [json.loads]; [None] when it raises *)
  json_loads : pystr -> option json;
  (** [str(v)] for floats, lists and dicts *)
  py_repr : json -> pystr;
  (** [Path(p).stem] *)
  path_stem : pystr -> pystr;
  (** [self.llm.invoke([HumanMessage(content=prompt)])]; [None] when it
      raises *)
  llm_invoke : nat -> pystr -> option llm_response;
  (** the instruction template around the numbered sentences *)
  prompt_pass2 : FilingType -> pystr -> pystr;
  (** [_parse_sections]: layout analysis of the PDF and the heading
      filters *)
  parse_sections : FilingType -> pystr -> result (list section_);
  (** [Path(p).read_bytes().decode("utf-8", errors="ignore")]; [None] when
      reading raises *)
  read_html : pystr -> option pystr;
  (** [_parse_sections_from_html] *)
  parse_sections_from_html : pystr -> list section_;
  (** the texts of [doc.sents] *)
  sentences : FilingType -> pystr -> list pystr;
  (** [keyword_processor.extract_keywords] of the variant *)
  extract_keywords : FilingType -> pystr -> list pystr;
}.

(** ** models/catalyst_disclosure.py *)

Record Entity := {
  entity_type : pystr;
  entity_value : pystr;
  entity_text : pystr;
}.

Record CatalystDisclosure := {
  doc_id : pystr;
  exchange : pystr;
  filing_type : FilingType;
  filing_date : option pystr;
  source_file : option pystr;
  sentence_id : pystr;
  text : pystr;
  forward_looking : bool;
  forecast_type : ForecastType;
  tone : Tone;
  impact : Impact;
  score : Z;
  categories_matched : list pystr;
  entities : list Entity;
  flag : option pystr;
}.

Module Model.
Import PyStr PyVal.

(** [str(v)] *)
Definition str_of `{External} (v : json) : pystr :=
  match v with
  | JStr s => s
  | JInt z => str_of_Z z
  | JBool true => py "True"
  | JBool false => py "False"
  | JNull => py "None"
  | _ => py_repr v
  end.

(** Field validation of the model classes: a [str] field takes a string and
    nothing else, an optional one also [None], a [List[str]] field a list
    of strings.  [None] is a validation error. *)
Definition validate_str (v : json) : option pystr :=
  match v with JStr s => Some s | _ => None end.

Definition validate_optional_str (v : json) : option (option pystr) :=
  match v with
  | JNull => Some None
  | JStr s => Some (Some s)
  | _ => None
  end.

Definition validate_str_list (v : json) : option (list pystr) :=
  match v with
  | JArr l => mapM validate_str l
  | _ => None
  end.

(** [score: int = Field(..., ge=1, le=10)] *)
Definition validate_score (z : Z) : option Z :=
  if ((1 <=? z) && (z <=? 10))%Z then Some z else None.

(** The [clean_text] validator, run before validation of [text]. *)
Definition clean_text `{External} (v : json) : pystr :=
  if negb (truthy v) then []
  else join (py " ")
         (filter (fun line => line <> []) (strip <$> splitlines (str_of v))).

(** The [dedupe_categories] validator. *)
Definition dedupe_categories (v : list pystr) : list pystr :=
  match v with
  | [] => []
  | _ => fromkeys_list v
  end.

(** [Entity(type=..., value=..., text=...)] *)
Definition Entity_new (type value text : json) : option Entity :=
  t ← validate_str type;
  v ← validate_str value;
  x ← validate_str text;
  Some {| entity_type := t; entity_value := v; entity_text := x |}.

(** [CatalystDisclosure(...)] with the keyword arguments the extractors
    pass; [forward_looking] and [flag] are given or defaulted constants. *)
Definition CatalystDisclosure_new `{External}
    (doc_id_v : json) (exchange_v : pystr) (ftype : FilingType)
    (filing_date_v : json) (source_file_v : pystr) (sentence_id_v : pystr)
    (text_v : json) (forecast : ForecastType) (tone_v : Tone)
    (impact_v : Impact) (score_v : Z) (categories_v : json)
    (entities_v : list Entity) : option CatalystDisclosure :=
  d ← validate_str doc_id_v;
  fd ← validate_optional_str filing_date_v;
  sc ← validate_score score_v;
  cats ← validate_str_list categories_v;
  Some {| doc_id := d;
          exchange := exchange_v;
          filing_type := ftype;
          filing_date := fd;
          source_file := Some source_file_v;
          sentence_id := sentence_id_v;
          text := clean_text text_v;
          forward_looking := true;
          forecast_type := forecast;
          tone := tone_v;
          impact := impact_v;
          score := sc;
          categories_matched := dedupe_categories cats;
          entities := entities_v;
          flag := Some (py "ok") |}.

End Model.

(** ** Computations that call the language model

    [extract] and what it calls may raise and may invoke the model; the
    state threaded through is the number of invocations made so far. *)

Definition M (A : Type) : Type := nat -> result A * nat.

Global Instance M_ret : MRet M := fun A a calls => (Ok a, calls).

Global Instance M_bind : MBind M := fun A B f m calls =>
  match m calls with
  | (Ok a, calls') => f a calls'
  | (Raise e, calls') => (Raise e, calls')
  end.

Definition raise {A} (e : exn) : M A := fun calls => (Raise e, calls).

(** [try: m  except Exception: raise e] *)
Definition reraise_as {A} (e : exn) (m : M A) : M A := fun calls =>
  match m calls with
  | (Ok a, calls') => (Ok a, calls')
  | (Raise _, calls') => (Raise e, calls')
  end.

(** ** Regular-expression substitution, as [re.sub] scans *)

Module Re.
Import PyStr.

(** A pattern tried at one position of the subject: given whether the
    position is the start of the subject and the text from there on, the
    length of the match.  None of the patterns below matches the empty
    string. *)
Definition matcher := bool -> pystr -> option nat.

(** Left to right, the leftmost match is replaced and scanning resumes
    after it; a character where nothing matches is copied. *)
Fixpoint sub_from (m : matcher) (repl : pystr) (fuel : nat)
    (at_start : bool) (s : pystr) : pystr :=
  match fuel with
  | 0 => s
  | S fuel' =>
      match m at_start s with
      | Some (S k) => repl ++ sub_from m repl fuel' false (drop (S k) s)
      | _ =>
          match s with
          | [] => []
          | c :: r => c :: sub_from m repl fuel' false r
          end
      end
  end.

Definition sub (m : matcher) (repl s : pystr) : pystr :=
  sub_from m repl (S (length s)) true s.

(** [$] without [re.MULTILINE]: the end of the subject, or just before a
    line feed that ends it. *)
Definition at_end (rest : pystr) : bool :=
  bool_decide (rest = []) || bool_decide (rest = [ascii_of_nat 10]).

(** [r"^```json|```$"] with [re.IGNORECASE] *)
Definition fence : matcher := fun at_start s =>
  if at_start && bool_decide (lower (take 7 s) = py "```json") then Some 7
  else if bool_decide (take 3 s = py "```") && at_end (drop 3 s) then Some 3
  else None.

(** [r",\s*}"] and [r",\s*]"]: a comma, the longest run of white space,
    the closing character. *)
Definition comma_closer (closer : ascii) : matcher := fun _ s =>
  match s with
  | c :: r =>
      if bool_decide (c = ","%char) then
        match lstrip r with
        | d :: _ =>
            if bool_decide (d = closer)
            then Some (1 + (length r - length (lstrip r)) + 1)
            else None
        | [] => None
        end
      else None
  | [] => None
  end.

End Re.

(** ** extractors/base_extractor.py *)

Module BaseExtractor.
Import PyStr PyList PyVal.

(** [_retry_call(fn, retries, delay)] of utils/llm.py: [fn] is tried up to
    [retries] times and the last failure is raised again.  With no attempt
    at all the loop falls through and the call returns [None]. *)
Fixpoint retry_call {R} (fn : nat -> option R) (retries : nat)
  : M (option R) := fun calls =>
  match retries with
  | 0 => (Ok None, calls)
  | S k =>
      match fn calls with
      | Some r => (Ok (Some r), S calls)
      | None =>
          match k with
          | 0 => (Raise OtherError, S calls)
          | _ => retry_call fn k (S calls)
          end
      end
  end.

(** [_ask_llm] *)
Definition ask_llm `{External} (prompt : pystr) : M pystr :=
  reraise_as ExtractionError
    (resp ← retry_call (fun calls => llm_invoke calls prompt) 3;
     match resp with
     | Some r =>
         if negb (bool_decide (content r = [])) then mret (content r)
         else mret (as_str r)
     | None => mret (py "None")
     end).

(** [_extract_json_block] *)
Definition extract_json_block (text : pystr) : option pystr :=
  match text with
  | [] => None
  | _ =>
      let cleaned := strip text in
      let cleaned := Re.sub Re.fence [] cleaned in
      match find (py "[") cleaned, rfind (py "]") cleaned with
      | Some s, Some e =>
          let block := slice cleaned s (e + 1) in
          let block := Re.sub (Re.comma_closer "}") (py "}") block in
          let block := Re.sub (Re.comma_closer "]") (py "]") block in
          Some block
      | _, _ => None
      end
  end.

(** [_safe_json_load]: [None] is Python's [None]. *)
Definition safe_json_load `{External} (text : option pystr) : option json :=
  match text with
  | None | Some [] => None
  | Some t => json_loads t
  end.

(** [self._safe_json_load(json_block) or []] *)
Definition items_or_empty (loaded : option json) : json :=
  match loaded with
  | Some v => if truthy v then v else JArr []
  | None => JArr []
  end.

(** [run]: every exception of [extract] ends in the empty list. *)
Definition run {A} (extract : M (list A)) : M (list A) := fun calls =>
  match extract calls with
  | (Ok records, calls') => (Ok records, calls')
  | (Raise InvalidFilingError, calls') => (Ok [], calls')
  | (Raise ExtractionError, calls') => (Ok [], calls')
  | (Raise _, calls') => (Ok [], calls')
  end.

End BaseExtractor.

(** ** The four extractors *)

Module Extractors.
Import PyStr PyList PyVal Enums Model BaseExtractor.

(** [CATEGORY_MAP] of extractors/asx_investor.py *)
Definition CATEGORY_MAP : gmap pystr ForecastType :=
  list_to_map
    [ (py "Intent Verbs", INTENT);
      (py "Timeline", TIMING);
      (py "Guidance", GUIDANCE);
      (py "Milestones", MILESTONES);
      (py "Deals", DEALS);
      (py "Strategy", STRATEGY) ].

(** [FORWARD_KEYS] of extractors/asx_annual.py *)
Definition FORWARD_KEYS : list (pystr * list pystr) :=
  [ (py "Intent Verbs",
     py <$> [ "expected shortly"; "expected to"; "expect to"; "plan to";
              "planned to"; "intends to"; "intend to"; "inbound interest";
              "anticipates"; "anticipate"; "anticipated"; "targeting";
              "targets"; "targeted"; "finalizing" ]%string);
    (py "Timeline",
     py <$> [ "over the next"; "in fy"; "in h1"; "in h2"; "year end";
              "during"; "near-term"; "imminent"; "upcoming"; "expected in";
              "targeted for"; "scheduled for"; "execution phase" ]%string);
    (py "Guidance",
     py <$> [ "guidance"; "forecast"; "outlook"; "projected";
              "opportunities"; "cash flow positive"; "capital raise";
              "funding secured"; "forecasted" ]%string);
    (py "Milestones",
     py <$> [ "licensing"; "clearance"; "approval"; "resource upgrade";
              "fda"; "deployment"; "advanced"; "regulatory approval";
              "submission"; "tender"; "review" ]%string);
    (py "Deals",
     py <$> [ "agreement expected"; "term sheets"; "binding"; "contracts";
              "mou"; "jv"; "partnership"; "submitted"; "pending";
              "acquisition"; "negotiation"; "commercial launch"; "renewal";
              "proposal"; "discussions"; "expected to commence" ]%string);
    (py "Strategy",
     py <$> [ "strategy"; "strategic review"; "significant";
              "advanced discussions"; "expansion"; "growth strategy";
              "finalizing"; "pipeline" ]%string) ].

(** [SEC_CORE_KEYWORDS] of extractors/sec_10q.py *)
Definition SEC_CORE_KEYWORDS : list (pystr * list pystr) :=
  [ (py "Timing & Immediacy",
     py <$> [ "imminent"; "near-term"; "upcoming"; "expected shortly";
              "anticipated"; "targeted for"; "inbound interest";
              "execution phase" ]%string);
    (py "Contractual Catalysts",
     py <$> [ "agreement"; "binding"; "term sheets"; "contracts"; "pending";
              "negotiation"; "renewal"; "submitted"; "proposal";
              "acquisition"; "partnership"; "discussions";
              "expected to commence"; "finalizing"; "tender" ]%string);
    (py "Forward-Looking Hints",
     py <$> [ "anticipate"; "expect"; "outlook"; "projected"; "forecasted";
              "opportunities"; "pipeline"; "strategic review";
              "advanced discussions"; "expansion"; "significant" ]%string);
    (py "Regulatory & Compliance",
     py <$> [ "clearance"; "licensing"; "approval"; "deployment"; "advanced";
              "submission"; "regulatory approval"; "FDA"; "TGA"; "review";
              "assay results" ]%string) ].

(** *** Pass 1: candidate sentences *)

(** [_extract_candidates] of the annual and investor extractors and
    [_extract_candidates_spacy_flashtext] of the quarterly one. *)
Definition extract_candidates `{External} (ft : FilingType)
    (sections : list section_) : list pystr :=
  let all_text := join [ascii_of_nat 10] (sec_text <$> sections) in
  fromkeys_list
    (filter (fun s => s <> [] /\ extract_keywords ft s <> [])
            (strip <$> sentences ft all_text)).

(** One turn of the loop of [SECExtractor._extract_candidates]; the state
    is [(candidates, seen)]. *)
Definition sec_candidate_step `{External}
    (st : list pystr * gset pystr) (sent : pystr)
  : list pystr * gset pystr :=
  let s := strip sent in
  if bool_decide (s <> []) && (20 <? length s)
     && bool_decide (extract_keywords SEC_10Q s <> [])
     && bool_decide (s ∉ st.2)
  then (st.1 ++ [s], {[ s ]} ∪ st.2)
  else st.

Definition sec_candidates_of `{External} (sents : list pystr) : list pystr :=
  (foldl sec_candidate_step ([], ∅) sents).1.

Definition sec_extract_candidates `{External} (text : pystr) : list pystr :=
  sec_candidates_of (sentences SEC_10Q text).

(** *** Normalisation of one classified item *)

(** [metadata.get("doc_id") or Path(file_path).stem] *)
Definition doc_id_of `{External} (metadata : list (pystr * json))
    (file_path : pystr) : json :=
  let d := dict_get metadata (py "doc_id") in
  if truthy d then d else JStr (path_stem file_path).

(** [v.lower()] and [v.upper()]: only a string has these methods. *)
Definition lower_of (v : json) : option pystr :=
  match v with JStr s => Some (lower s) | _ => None end.

Definition upper_of (v : json) : option pystr :=
  match v with JStr s => Some (upper s) | _ => None end.

(** The substring ladder of the annual extractor. *)
Definition forecast_annual (raw_type : pystr) : ForecastType :=
  if contains (py "contract") raw_type then CONTRACTUAL
  else if contains (py "regul") raw_type then REGULATORY
  else if contains (py "time") raw_type || contains (py "sched") raw_type
  then TIMING
  else if contains (py "guidance") raw_type then GUIDANCE
  else if contains (py "strategy") raw_type then STRATEGY
  else HINTS.

(** The substring ladder of the quarterly and 10-Q extractors. *)
Definition forecast_basic (raw_type : pystr) : ForecastType :=
  if contains (py "contract") raw_type then CONTRACTUAL
  else if contains (py "regul") raw_type then REGULATORY
  else if contains (py "time") raw_type || contains (py "sched") raw_type
  then TIMING
  else HINTS.

(** [cats[0]]: the first element of a list, the first character of a
    string; a dict has no key [0] and other values cannot be indexed. *)
Definition first_of (v : json) : option json :=
  match v with
  | JArr (x :: _) => Some x
  | JStr (c :: _) => Some (JStr [c])
  | _ => None
  end.

(** [CATEGORY_MAP.get(cat_name, ForecastType.STRATEGY)]: a list or dict
    is not hashable and raises. *)
Definition category_forecast (cat_name : json) : option ForecastType :=
  match cat_name with
  | JStr s => Some (default STRATEGY (CATEGORY_MAP !! s))
  | JArr _ | JObj _ => None
  | _ => Some STRATEGY
  end.

(** The forecast type of the investor extractor. *)
Definition forecast_investor (cats : json) : option ForecastType :=
  if truthy cats then first_of cats ≫= category_forecast
  else Some STRATEGY.

(** [[Entity(type="entity", value=e, text=e) for e in ...]] *)
Definition entities_of (v : json) : option (list Entity) :=
  iterate v ≫= mapM (fun e => Entity_new (JStr (py "entity")) e e).

(** [[Entity(type="entity", value=str(e), text=str(e)) for e in ...]] *)
Definition entities_str_of `{External} (v : json) : option (list Entity) :=
  iterate v ≫=
  mapM (fun e => Entity_new (JStr (py "entity")) (JStr (str_of e))
                            (JStr (str_of e))).

Definition sentence_id_of (global_idx : nat) : pystr :=
  py "s" ++ str_of_nat global_idx.

Section Build.
Context `{External}.
Variable metadata : list (pystr * json).
Variable file_path : pystr.

(** The body of the [try] of ASXAnnualExtractor.extract; [None] when it
    raises. *)
Definition build_annual (global_idx : nat) (item : json)
  : option CatalystDisclosure :=
  raw_type ← get item (py "forecast_type") (JStr []) ≫= lower_of;
  let forecast := forecast_annual raw_type in
  text_v ← get item (py "text") (JStr []);
  tone_v ← get item (py "tone") (JStr (py "neutral")) ≫= Tone_of;
  impact_v ← get item (py "impact") (JStr (py "MED")) ≫= Impact_of;
  score_v ← get item (py "score") (JInt 5) ≫= int_of;
  cats ← get item (py "categories_matched") (JArr []);
  ents ← get item (py "entities") (JArr []) ≫= entities_of;
  CatalystDisclosure_new (doc_id_of metadata file_path) (py "ASX")
    ASX_ANNUAL (dict_get metadata (py "date")) file_path
    (sentence_id_of global_idx) text_v forecast tone_v impact_v score_v
    cats ents.

(** The quarterly and 10-Q extractors share one body up to the exchange
    and the filing type. *)
Definition build_basic (exch : pystr) (ft : FilingType) (global_idx : nat)
    (item : json) : option CatalystDisclosure :=
  raw_type ← get item (py "forecast_type") (JStr []) ≫= lower_of;
  let forecast := forecast_basic raw_type in
  text_v ← get item (py "text") (JStr []);
  tone_v ← get item (py "tone") (JStr (py "neutral")) ≫= Tone_of;
  impact_v ← get item (py "impact") (JStr (py "MED")) ≫= Impact_of;
  score_v ← get item (py "score") (JInt 5) ≫= int_of;
  ents ← get item (py "entities") (JArr []) ≫= entities_of;
  CatalystDisclosure_new (doc_id_of metadata file_path) exch ft
    (dict_get metadata (py "date")) file_path
    (sentence_id_of global_idx) text_v forecast tone_v impact_v score_v
    (JArr []) ents.

Definition build_quarterly := build_basic (py "ASX") ASX_QUARTERLY.
Definition build_sec := build_basic (py "SEC") SEC_10Q.

Definition build_investor (global_idx : nat) (item : json)
  : option CatalystDisclosure :=
  cats ← get item (py "categories_matched") (JArr []);
  forecast ← forecast_investor cats;
  text_v ← get item (py "text") (JStr []);
  tone_s ← get item (py "tone") (JStr (py "neutral")) ≫= lower_of;
  tone_v ← Tone_of (JStr tone_s);
  impact_s ← get item (py "impact") (JStr (py "MED")) ≫= upper_of;
  impact_v ← Impact_of (JStr impact_s);
  score_v ← get item (py "score") (JInt 5) ≫= int_of;
  ents ← get item (py "entities") (JArr []) ≫= entities_str_of;
  CatalystDisclosure_new (doc_id_of metadata file_path) (py "ASX")
    ASX_INVESTOR (dict_get metadata (py "date")) file_path
    (sentence_id_of global_idx) text_v forecast tone_v impact_v score_v
    cats ents.

End Build.

(** The record builder of each variant. *)
Definition build_of `{External} (ft : FilingType)
    (metadata : list (pystr * json)) (file_path : pystr)
  : nat -> json -> option CatalystDisclosure :=
  match ft with
  | ASX_ANNUAL => build_annual metadata file_path
  | ASX_QUARTERLY => build_quarterly metadata file_path
  | ASX_INVESTOR => build_investor metadata file_path
  | SEC_10Q => build_sec metadata file_path
  end.

(** *** Pass 2: the batch loop *)

(** ["\n".join(f"{i+1}. {c}" for i, c in enumerate(batch))] *)
Definition numbered (batch : list pystr) : pystr :=
  join [ascii_of_nat 10]
    (imap (fun i c => str_of_nat (i + 1) ++ py ". " ++ c) batch).

(** The loop [for item in items] with its [try]: an item whose record is
    built is appended and advances the counter, any other is skipped. *)
Fixpoint build_items (build : nat -> json -> option CatalystDisclosure)
    (items : list json) (acc : list CatalystDisclosure) (global_idx : nat)
  : list CatalystDisclosure * nat :=
  match items with
  | [] => (acc, global_idx)
  | item :: rest =>
      match build global_idx item with
      | Some model => build_items build rest (acc ++ [model]) (S global_idx)
      | None => build_items build rest acc global_idx
      end
  end.

(** The loop [for batch_num, batch in enumerate(batches, start=1)].
    [skip_empty] is set where the loop starts with
    [if not batch: continue]. *)
Fixpoint process_batches `{External} (ft : FilingType)
    (build : nat -> json -> option CatalystDisclosure) (skip_empty : bool)
    (batches : list (list pystr)) (acc : list CatalystDisclosure)
    (global_idx : nat) : M (list CatalystDisclosure) :=
  match batches with
  | [] => mret acc
  | batch :: rest =>
      if skip_empty && bool_decide (batch = [])
      then process_batches ft build skip_empty rest acc global_idx
      else
        resp ← ask_llm (prompt_pass2 ft (numbered batch));
        let json_block := extract_json_block resp in
        let items := items_or_empty (safe_json_load json_block) in
        match iterate items with
        | None => raise OtherError
        | Some l =>
            let '(acc', idx') := build_items build l acc global_idx in
            process_batches ft build skip_empty rest acc' idx'
        end
  end.

(** *** [extract] *)

Definition lift {A} (r : result A) : M A := fun calls => (r, calls).

Section Extract.
Context `{External}.
Variable file_path : pystr.
Variable metadata : list (pystr * json).

(** The three PDF extractors differ in the batcher, the record builder
    and the guard on empty batches. *)
Definition extract_pdf (ft : FilingType)
    (batcher : list pystr -> list (list pystr))
    (build : nat -> json -> option CatalystDisclosure) (skip_empty : bool)
  : M (list CatalystDisclosure) :=
  sections ← lift (parse_sections ft file_path);
  match sections with
  | [] => mret []
  | _ =>
      let candidates := extract_candidates ft sections in
      match candidates with
      | [] => mret []
      | _ => process_batches ft build skip_empty (batcher candidates) [] 1
      end
  end.

Definition extract_annual : M (list CatalystDisclosure) :=
  extract_pdf ASX_ANNUAL Batcher.batches
    (build_annual metadata file_path) true.

Definition extract_quarterly : M (list CatalystDisclosure) :=
  extract_pdf ASX_QUARTERLY Batcher.batches
    (build_quarterly metadata file_path) true.

Definition extract_investor : M (list CatalystDisclosure) :=
  extract_pdf ASX_INVESTOR Batcher.investor_batches
    (build_investor metadata file_path) false.

Definition extract_sec : M (list CatalystDisclosure) :=
  match read_html file_path with
  | None => mret []
  | Some html_text =>
      let sections := parse_sections_from_html html_text in
      let candidates :=
        fromkeys_list
          (sections ≫= fun sec => sec_extract_candidates (sec_text sec)) in
      match candidates with
      | [] => mret []
      | _ =>
          process_batches SEC_10Q (build_sec metadata file_path) true
            (Batcher.batches candidates) [] 1
      end
  end.

End Extract.
End Extractors.

(** ** extractors/registry.py and pipeline/dispatcher.py *)

Inductive ExtractorClass :=
| ASXAnnualExtractor
| ASXQuarterlyExtractor
| ASXInvestorExtractor
| SECExtractor.

Module Dispatch.
Import PyStr Enums.

(** The keys pair the exchange with a [FilingType] member.  The
    enumeration derives from [str], so a member hashes and compares as its
    value and a plain string finds it. *)
Definition EXTRACTOR_REGISTRY : gmap (pystr * pystr) ExtractorClass :=
  list_to_map
    [ ((py "ASX", FilingType_value ASX_ANNUAL), ASXAnnualExtractor);
      ((py "ASX", FilingType_value ASX_QUARTERLY), ASXQuarterlyExtractor);
      ((py "ASX", FilingType_value ASX_INVESTOR), ASXInvestorExtractor);
      ((py "SEC", FilingType_value SEC_10Q), SECExtractor) ].

(** [get_extractor] of the registry *)
Definition get_extractor (exchange filing_type : pystr)
  : result ExtractorClass :=
  let key := (upper exchange, filing_type) in
  match EXTRACTOR_REGISTRY !! key with
  | None => Raise KeyError
  | Some extractor_cls => Ok extractor_cls
  end.

Definition mapping : gmap pystr pystr :=
  list_to_map
    [ (py "ANNUAL", py "annual");
      (py "ASX_ANNUAL", py "annual");
      (py "QUARTERLY", py "quarterly");
      (py "ASX_QUARTERLY", py "quarterly");
      (py "INVESTOR_PRESENTATION", py "investor");
      (py "INVESTOR", py "investor");
      (py "10-Q", py "10-Q");
      (py "10Q", py "10-Q") ].

(** [ft_key = mapping.get(ft.upper(), ft)] *)
Definition canonical_key (filing_type : pystr) : pystr :=
  default filing_type (mapping !! upper filing_type).

(** [get_extractor_instance]: the [KeyError] of the registry is logged and
    raised again. *)
Definition get_extractor_instance (exchange filing_type : pystr)
  : result ExtractorClass :=
  let e := upper exchange in
  let ft_key := canonical_key filing_type in
  match get_extractor e ft_key with
  | Ok extractor => Ok extractor
  | Raise ke => Raise ke
  end.

(** The [extract] method of each class. *)
Definition extract_of `{External} (cls : ExtractorClass)
    (file_path : pystr) (metadata : list (pystr * json))
  : M (list CatalystDisclosure) :=
  match cls with
  | ASXAnnualExtractor => Extractors.extract_annual file_path metadata
  | ASXQuarterlyExtractor => Extractors.extract_quarterly file_path metadata
  | ASXInvestorExtractor => Extractors.extract_investor file_path metadata
  | SECExtractor => Extractors.extract_sec file_path metadata
  end.

End Dispatch.

(** ** A concrete environment for the examples

    A reader for the fragment of JSON the examples use (null, booleans,
    integers, strings, arrays, objects; number literals with a fraction or
    an exponent are not read), a classifier that keeps every sentence, and
    keyword matching by whole words. *)

Module Demo.
Import PyStr PyList PyVal Enums.

Definition quote : ascii := ascii_of_nat 34.
Definition backslash : ascii := ascii_of_nat 92.
Definition newline : ascii := ascii_of_nat 10.

Definition json_ws (c : ascii) : bool :=
  let n := code c in ((n =? 32) || (n =? 9) || (n =? 10) || (n =? 13))%N.

Fixpoint skip_ws (s : pystr) : pystr :=
  match s with
  | c :: r => if json_ws c then skip_ws r else s
  | [] => []
  end.

Definition hex_value (c : ascii) : option N :=
  let n := code c in
  if in_range 48 57 n then Some (n - 48)%N
  else if in_range 97 102 n then Some (n - 87)%N
  else if in_range 65 70 n then Some (n - 55)%N
  else None.

(** The characters of a string literal after its opening quote. *)
Fixpoint read_string (acc s : pystr) : option (pystr * pystr) :=
  match s with
  | [] => None
  | c :: r =>
      if bool_decide (c = quote) then Some (acc, r)
      else if bool_decide (c = backslash) then
        match r with
        | e :: r' =>
            let simple (x : N) := read_string (acc ++ [ascii_of_N x]) r' in
            if bool_decide (e = quote) then simple 34%N
            else if bool_decide (e = backslash) then simple 92%N
            else if bool_decide (e = "/"%char) then simple 47%N
            else if bool_decide (e = "b"%char) then simple 8%N
            else if bool_decide (e = "f"%char) then simple 12%N
            else if bool_decide (e = "n"%char) then simple 10%N
            else if bool_decide (e = "r"%char) then simple 13%N
            else if bool_decide (e = "t"%char) then simple 9%N
            else if bool_decide (e = "u"%char) then
              match r' with
              | a :: b :: c2 :: d :: r'' =>
                  match hex_value a, hex_value b, hex_value c2, hex_value d with
                  | Some 0%N, Some 0%N, Some h, Some l =>
                      read_string (acc ++ [ascii_of_N (16 * h + l)%N]) r''
                  | _, _, _, _ => None
                  end
              | _ => None
              end
            else None
        | [] => None
        end
      else if (code c <? 32)%N then None
      else read_string (acc ++ [c]) r
  end.

Fixpoint read_digits (acc : Z) (s : pystr) : Z * pystr :=
  match s with
  | c :: r =>
      match digit_value c with
      | Some d => read_digits (10 * acc + d)%Z r
      | None => (acc, s)
      end
  | [] => (acc, [])
  end.

(** An integer literal: an optional minus sign, then a single zero or a
    digit from 1 to 9 followed by digits; refused when a fraction or an
    exponent follows. *)
Definition read_int (s : pystr) : option (json * pystr) :=
  let '(neg, body) :=
    match s with
    | c :: r => if bool_decide (c = "-"%char) then (true, r) else (false, s)
    | [] => (false, [])
    end in
  match body with
  | c :: r =>
      match digit_value c with
      | Some d =>
          let '(z, rest) :=
            if (d =? 0)%Z then (0%Z, r) else read_digits d r in
          match rest with
          | x :: _ =>
              if bool_decide (x = "."%char) || bool_decide (x = "e"%char)
                 || bool_decide (x = "E"%char)
              then None
              else Some (JInt (if neg then - z else z), rest)
          | [] => Some (JInt (if neg then - z else z), rest)
          end
      | None => None
      end
  | [] => None
  end.

(** A later binding of a key replaces the value and keeps the place. *)
Fixpoint dict_set (k : pystr) (v : json) (fields : list (pystr * json))
  : list (pystr * json) :=
  match fields with
  | [] => [(k, v)]
  | (k', v') :: rest =>
      if decide (k' = k) then (k, v) :: rest
      else (k', v') :: dict_set k v rest
  end.

Fixpoint read_value (fuel : nat) (s : pystr) : option (json * pystr) :=
  match fuel with
  | 0 => None
  | S f =>
      match s with
      | [] => None
      | c :: r =>
          if bool_decide (c = quote) then
            read_string [] r ≫= fun p => Some (JStr p.1, p.2)
          else if bool_decide (c = "["%char) then
            match skip_ws r with
            | d :: r' =>
                if bool_decide (d = "]"%char) then Some (JArr [], r')
                else read_elements f [] (d :: r')
            | [] => None
            end
          else if bool_decide (c = "{"%char) then
            match skip_ws r with
            | d :: r' =>
                if bool_decide (d = "}"%char) then Some (JObj [], r')
                else read_members f [] (d :: r')
            | [] => None
            end
          else if startswith (py "null") s then Some (JNull, drop 4 s)
          else if startswith (py "true") s then Some (JBool true, drop 4 s)
          else if startswith (py "false") s then Some (JBool false, drop 5 s)
          else if startswith (py "NaN") s then Some (JFloat FNaN, drop 3 s)
          else if startswith (py "Infinity") s
          then Some (JFloat (FInf false), drop 8 s)
          else if startswith (py "-Infinity") s
          then Some (JFloat (FInf true), drop 9 s)
          else read_int s
      end
  end
with read_elements (fuel : nat) (acc : list json) (s : pystr)
  : option (json * pystr) :=
  match fuel with
  | 0 => None
  | S f =>
      match read_value f s with
      | Some (v, r) =>
          match skip_ws r with
          | d :: r' =>
              if bool_decide (d = ","%char)
              then read_elements f (acc ++ [v]) (skip_ws r')
              else if bool_decide (d = "]"%char)
              then Some (JArr (acc ++ [v]), r')
              else None
          | [] => None
          end
      | None => None
      end
  end
with read_members (fuel : nat) (acc : list (pystr * json)) (s : pystr)
  : option (json * pystr) :=
  match fuel with
  | 0 => None
  | S f =>
      match s with
      | c :: r =>
          if bool_decide (c = quote) then
            match read_string [] r with
            | Some (k, r1) =>
                match skip_ws r1 with
                | colon :: r2 =>
                    if bool_decide (colon = ":"%char) then
                      match read_value f (skip_ws r2) with
                      | Some (v, r3) =>
                          match skip_ws r3 with
                          | d :: r4 =>
                              if bool_decide (d = ","%char)
                              then read_members f (dict_set k v acc)
                                     (skip_ws r4)
                              else if bool_decide (d = "}"%char)
                              then Some (JObj (dict_set k v acc), r4)
                              else None
                          | [] => None
                          end
                      | None => None
                      end
                    else None
                | [] => None
                end
            | None => None
            end
          else None
      | [] => None
      end
  end.

(** The whole text must be one value between optional white space. *)
Definition loads (s : pystr) : option json :=
  match read_value (2 * length s + 2) (skip_ws s) with
  | Some (v, rest) =>
      match skip_ws rest with
      | [] => Some v
      | _ => None
      end
  | None => None
  end.

(** Keyword matching: a keyword counts where it stands as whole words,
    whatever the case; the answer lists the groups of the keywords found. *)
Definition word_char (c : ascii) : bool :=
  let n := code c in
  in_range 48 57 n || in_range 65 90 n || in_range 97 122 n || (n =? 95)%N.

Fixpoint occurs_as_word (kw : pystr) (after_word : bool) (s : pystr) : bool :=
  match s with
  | [] => false
  | c :: r =>
      (negb after_word && startswith kw s
       && match drop (length kw) s with
          | [] => true
          | d :: _ => negb (word_char d)
          end)
      || occurs_as_word kw (word_char c) r
  end.

Definition keywords_in (table : list (pystr * list pystr)) (s : pystr)
  : list pystr :=
  let low := lower s in
  table ≫= fun group =>
    filter (fun kw => occurs_as_word (lower kw) false low = true) group.2
    ≫= fun _ => [group.1].

Definition keyword_table (ft : FilingType) : list (pystr * list pystr) :=
  match ft with
  | SEC_10Q | ASX_QUARTERLY => Extractors.SEC_CORE_KEYWORDS
  | ASX_ANNUAL | ASX_INVESTOR => Extractors.FORWARD_KEYS
  end.

(** A classifier that keeps every sentence it is shown, labelled MED,
    neutral, guidance, 5, and answers inside a code fence with trailing
    commas. *)
Definition quoted (s : pystr) : pystr := [quote] ++ s ++ [quote].

Definition field (k v : pystr) : pystr := quoted k ++ py ": " ++ v.

Definition echo_item (sentence : pystr) : pystr :=
  py "{" ++
  join (py ", ")
    [ field (py "text") (quoted sentence);
      field (py "impact") (quoted (py "MED"));
      field (py "tone") (quoted (py "neutral"));
      field (py "forecast_type") (quoted (py "guidance"));
      field (py "score") (py "5");
      field (py "entities") (py "[]") ] ++
  py ",}".

Definition unnumbered (line : pystr) : pystr :=
  match find (py ". ") line with
  | Some i => drop (i + 2) line
  | None => line
  end.

Definition echo_response (prompt : pystr) : llm_response :=
  let body := join (py ", ") (echo_item <$> (unnumbered <$> splitlines prompt)) in
  {| content := py "```json" ++ [newline] ++ py "[" ++ body ++ py ",]"
                ++ [newline] ++ py "```";
     as_str := [] |}.

Definition echo_llm (calls : nat) (prompt : pystr) : option llm_response :=
  Some (echo_response prompt).

(** A service that is down. *)
Definition failing_llm (calls : nat) (prompt : pystr) : option llm_response :=
  None.

(** The environment: the document is given by its sections, every line of
    a section is a sentence, the prompt is the numbered list alone. *)
Definition world (doc : result (list section_))
    (llm : nat -> pystr -> option llm_response) : External :=
  {| json_loads := loads;
     py_repr := fun _ => [];
     path_stem := fun p => p;
     llm_invoke := llm;
     prompt_pass2 := fun _ numbered_items => numbered_items;
     parse_sections := fun _ _ => doc;
     read_html := fun p => Some p;
     parse_sections_from_html :=
       fun _ => match doc with Ok secs => secs | Raise _ => [] end;
     sentences := fun _ t => splitlines t;
     extract_keywords := fun ft s => keywords_in (keyword_table ft) s |}.

Definition lines (l : list string) : pystr := join [newline] (py <$> l).

(** Three sections, twelve sentences, each with a keyword. *)
Definition report : list section_ :=
  [ {| heading := py "Outlook";
       sec_text := lines
         [ "We plan to open two sites.";
           "Revenue guidance is unchanged.";
           "The forecast assumes stable prices.";
           "Our outlook remains positive." ] |};
    {| heading := py "Operations";
       sec_text := lines
         [ "The pipeline has grown.";
           "Our strategy is to expand.";
           "Regulatory approval is awaited.";
           "A tender was lodged." ] |};
    {| heading := py "Deals";
       sec_text := lines
         [ "A binding offer was received.";
           "The partnership is progressing.";
           "Drilling resumes during March.";
           "An upcoming raise is planned." ] |} ].

Definition metadata : list (pystr * json) :=
  [ (py "doc_id", JStr (py "ABC_2025")); (py "date", JStr (py "2025-11-03")) ].

Definition file_path : pystr := py "data/asx/ABC_2025.pdf".

End Demo.

(** ** Notions used in the statements *)

Module Spec.
Import PyStr.

(** Sizes never grow from one batch to the next. *)
Definition non_increasing (sizes : list nat) : Prop :=
  forall i j a b,
    i <= j -> sizes !! i = Some a -> sizes !! j = Some b -> b <= a.

(** [sub] occurs in [s]. *)
Definition Substr (sub s : pystr) : Prop :=
  exists pre post, s = pre ++ sub ++ post.

Definition closers : list ascii := [ "}"%char; "]"%char ].

(** White space only. *)
Definition spaces (ws : pystr) : Prop :=
  Forall (fun c => is_space c = true) ws.

(** [messy] is [clean] with a comma and optional white space put in front
    of some of its closing characters among [cs]. *)
Inductive TrailingCommas (cs : list ascii) : pystr -> pystr -> Prop :=
| tc_nil : TrailingCommas cs [] []
| tc_keep c clean messy :
    TrailingCommas cs clean messy ->
    TrailingCommas cs (c :: clean) (c :: messy)
| tc_comma closer ws clean messy :
    closer ∈ cs ->
    spaces ws ->
    TrailingCommas cs clean messy ->
    TrailingCommas cs (closer :: clean) (","%char :: ws ++ closer :: messy).

(** A comma, optional white space and a closing character occur in [s]. *)
Definition CommaBeforeCloser (s : pystr) : Prop :=
  exists pre ws closer post,
    s = pre ++ ","%char :: ws ++ closer :: post /\
    spaces ws /\
    closer ∈ closers.

(** The same, computed. *)
Fixpoint comma_before_closer (s : pystr) : bool :=
  match s with
  | [] => false
  | c :: r =>
      (bool_decide (c = ","%char)
       && match lstrip r with
          | d :: _ => bool_decide (d ∈ closers)
          | [] => false
          end)
      || comma_before_closer r
  end.

(** First match wins: [ft] is the type of the first rule one of whose
    substrings occurs in [low], and [dflt] when no rule applies. *)
Definition matches (subs : list pystr) (low : pystr) : Prop :=
  exists sub, sub ∈ subs /\ Substr sub low.

Definition FirstMatch (rules : list (list pystr * ForecastType))
    (dflt : ForecastType) (low : pystr) (ft : ForecastType) : Prop :=
  (exists i subs,
     rules !! i = Some (subs, ft) /\ matches subs low /\
     forall j subs' ft', j < i -> rules !! j = Some (subs', ft') ->
                         ~ matches subs' low)
  \/ (ft = dflt /\ forall rule, rule ∈ rules -> ~ matches rule.1 low).




(** The values the extractors fall back on for keys an item lacks. *)
Definition defaults : list (pystr * json) :=
  [ (py "forecast_type", JStr []);
    (py "text", JStr []);
    (py "tone", JStr (py "neutral"));
    (py "impact", JStr (py "MED"));
    (py "score", JInt 5);
    (py "categories_matched", JArr []);
    (py "entities", JArr []) ].

(** The item with every key it lacks set to its default. *)
Definition with_defaults (fields : list (pystr * json))
  : list (pystr * json) :=
  fields ++ filter (fun kv => PyVal.assoc kv.1 fields = None) defaults.

(** The characters a string that [int] converts is made of: the digits,
    the two signs, the underscore and the white space [int] skips. *)
Definition literal_codes : list N :=
  [ 48; 49; 50; 51; 52; 53; 54; 55; 56; 57; 43; 45; 95;
    9; 10; 11; 12; 13; 32; 133; 160 ]%N.

Definition literal_char (c : ascii) : Prop := code c ∈ literal_codes.

(** The line boundaries of [str.splitlines] within the 8-bit range: line
    feed, carriage return, the two together, vertical tab, form feed, the
    file, group and record separators, next line. *)
Definition line_boundaries : list pystr :=
  (fun codes : list N => ascii_of_N <$> codes)
    <$> [ [10]; [13]; [13; 10]; [11]; [12]; [28]; [29]; [30]; [133] ]%N.

(** A text given by its lines: each line but the last with the boundary
    that ends it. *)
Fixpoint weave (ended : list (pystr * pystr)) (last_line : pystr) : pystr :=
  match ended with
  | [] => last_line
  | (line, boundary) :: rest => line ++ boundary ++ weave rest last_line
  end.

(** The lines stripped, the blank ones left out. *)
Definition nonblank (lines : list pystr) : list pystr :=
  filter (fun line => line <> []) (strip <$> lines).

(** A character that can stand inside a word: a digit, an ASCII letter or
    the underscore. *)
Definition word_character (c : ascii) : Prop :=
  (48 <= code c <= 57)%N \/ (65 <= code c <= 90)%N \/
  (97 <= code c <= 122)%N \/ code c = 95%N.

(** [kw] stands in [s] as whole words: no word character touches it on
    either side. *)
Definition WholeWord (kw s : pystr) : Prop :=
  exists pre post,
    s = pre ++ kw ++ post /\
    (forall c, last pre = Some c -> ~ word_character c) /\
    (forall c, head post = Some c -> ~ word_character c).

(** What a keyword processor that is not case sensitive finds, as
    flashtext documents it: a keyword of the table stands in the sentence
    as whole words, letters compared without regard to case. *)
Definition Mentions (table : list (pystr * list pystr)) (s : pystr) : Prop :=
  exists group kw,
    group ∈ table /\ kw ∈ group.2 /\ WholeWord (lower kw) (lower s).

(** What the 10-Q prefilter asks of a stripped sentence. *)
Definition keep `{External} (s : pystr) : Prop :=
  s <> [] /\ 20 < length s /\ extract_keywords SEC_10Q s <> [].

(** No line boundary occurs in [s]. *)
Definition single_line (s : pystr) : Prop :=
  Forall (fun c => is_linebreak c = false) s.

(** The records carry the identifiers s1, s2, ... in order. *)
Definition numbered_from_one (records : list CatalystDisclosure) : Prop :=
  sentence_id <$> records
  = (fun i => py "s" ++ str_of_nat i) <$> seq 1 (length records).

(** The counter is one more than the number of records, which are
    numbered in order. *)
Definition counted (records : list CatalystDisclosure) (global_idx : nat)
  : Prop :=
  global_idx = S (length records) /\ numbered_from_one records.

End Spec.

(** ** Notions used in the further statements *)

Module Shape.
Import PyStr.

(** What a computation hands back: the list it returns, the empty list
    when it raises. *)
Definition returned {A} (m : M (list A)) (calls : nat) : list A :=
  match (m calls).1 with
  | Ok l => l
  | Raise _ => []
  end.

(** The number of invocations of the model a computation makes. *)
Definition invocations {A} (m : M A) (calls : nat) : nat :=
  (m calls).2 - calls.

(** The exchange and the filing type each class writes into its records. *)
Definition class_exchange (cls : ExtractorClass) : pystr :=
  match cls with
  | SECExtractor => py "SEC"
  | _ => py "ASX"
  end.

Definition class_filing_type (cls : ExtractorClass) : FilingType :=
  match cls with
  | ASXAnnualExtractor => ASX_ANNUAL
  | ASXQuarterlyExtractor => ASX_QUARTERLY
  | ASXInvestorExtractor => ASX_INVESTOR
  | SECExtractor => SEC_10Q
  end.

(** The candidate sentences pass 1 of a class finds in a file: none when
    the file cannot be read or has no section. *)
Definition candidates_of `{External} (cls : ExtractorClass) (fp : pystr)
  : list pystr :=
  match cls with
  | SECExtractor =>
      match read_html fp with
      | Some html_text =>
          fromkeys_list
            (parse_sections_from_html html_text
               ≫= fun sec => Extractors.sec_extract_candidates (sec_text sec))
      | None => []
      end
  | _ =>
      match parse_sections (class_filing_type cls) fp with
      | Ok (sec :: sections) =>
          Extractors.extract_candidates (class_filing_type cls)
            (sec :: sections)
      | _ => []
      end
  end.

(** The most batches a class cuts its candidates into. *)
Definition class_max_batches (cls : ExtractorClass) : nat :=
  match cls with
  | ASXInvestorExtractor => 2
  | _ => 9
  end.


(** A string that neither starts nor ends with white space. *)
Definition stripped (s : pystr) : Prop := strip s = s.

(** The same, told of the first and of the last character. *)
Definition tight_head (s : pystr) : Prop :=
  forall c, head s = Some c -> is_space c = false.

Definition tight_last (s : pystr) : Prop :=
  forall c, last s = Some c -> is_space c = false.

End Shape.

(** ** [_parse_sections] of the PDF extractors

    [partition_pdf] hands over the elements of the document, each with a
    category and a text; the extractors group them under their titles and
    filter the groups by heading. *)

Record element := {
  category : pystr;
  elem_text : pystr;
}.

Module Sections.
Import PyStr PyList.

Definition line_feed : pystr := [ascii_of_nat 10].

(** [if current: sections.append({"heading": heading, "text":
    "\n".join(current)})] *)
Definition flush (sections : list section_) (current : list pystr)
    (heading_ : pystr) : list section_ :=
  match current with
  | [] => sections
  | _ =>
      sections ++ [ {| heading := heading_;
                       sec_text := join line_feed current |} ]
  end.

(** The loop over the elements, the same in the three extractors; the
    state is [(sections, current, heading)], and what is left in [current]
    at the end is flushed. *)
Fixpoint group_from (elems : list element) (sections : list section_)
    (current : list pystr) (heading_ : pystr) : list section_ :=
  match elems with
  | [] => flush sections current heading_
  | elem :: rest =>
      if bool_decide (category elem = py "Title") then
        group_from rest (flush sections current heading_) []
          (strip (elem_text elem))
      else if bool_decide (category elem ∈ [py "NarrativeText"; py "ListItem"])
      then
        let t := strip (elem_text elem) in
        if bool_decide (t <> []) then
          group_from rest sections (current ++ [t]) heading_
        else group_from rest sections current heading_
      else group_from rest sections current heading_
  end.

Definition group_sections (elems : list element) : list section_ :=
  group_from elems [] [] (py "Unknown").

(** [STOP_TRIGGER] of extractors/asx_quarterly.py *)
Definition STOP_TRIGGER : pystr := py "quarterly cash flow report".

(** The loop that stops at the cash flow report. *)
Fixpoint stop_at_trigger (sections : list section_) : list section_ :=
  match sections with
  | [] => []
  | s :: rest =>
      if contains (lower STOP_TRIGGER) (lower (heading s)) then []
      else s :: stop_at_trigger rest
  end.

(** [_parse_sections] of the quarterly extractor, from the elements on.
    The set of excluded headings is an argument: one of the two headings
    of the source holds a character beyond the 8-bit range. *)
Definition quarterly_sections (EXCLUDE_HEADINGS : gset pystr)
    (elems : list element) : list section_ :=
  filter (fun s => strip (heading s) ∉ EXCLUDE_HEADINGS)
         (stop_at_trigger (group_sections elems)).

(** The filter of the annual extractor.  [stop_after h] stands for
    [any(p.search(h) for p in STOP_AFTER)] and [drop_heading h] for
    [any(p.search(h) for p in DROP_HEADINGS)]. *)
Fixpoint annual_filter (stop_after drop_heading : pystr -> bool)
    (sections : list section_) : list section_ :=
  match sections with
  | [] => []
  | sec :: rest =>
      let h := strip (heading sec) in
      if stop_after h then []
      else if negb (drop_heading h)
      then sec :: annual_filter stop_after drop_heading rest
      else annual_filter stop_after drop_heading rest
  end.

Definition annual_sections (stop_after drop_heading : pystr -> bool)
    (elems : list element) : list section_ :=
  annual_filter stop_after drop_heading (group_sections elems).

(** [_parse_sections] of the investor extractor; the patterns see the
    heading as it is. *)
Definition investor_sections (drop_heading : pystr -> bool)
    (elems : list element) : list section_ :=
  filter (fun s => drop_heading (heading s) = false) (group_sections elems).

(** The texts that go into sections: those of the narrative and list
    elements, stripped, the empty ones left out. *)
Definition narrative (elems : list element) : list pystr :=
  filter (fun t => t <> [])
    (strip <$> (elem_text <$>
       filter (fun e => category e ∈ [py "NarrativeText"; py "ListItem"])
              elems)).

(** *** [_parse_sections_from_html] of the 10-Q extractor

    The text of the page and the matches of the two patterns come from
    the HTML parser and the regular-expression engine: a match of the
    Item pattern is given by its first group and its bounds, the match of
    the signature pattern by its start.  A section keeps its title in the
    field [heading]. *)





(** [s.split()]: the words between runs of white space; [cur] is the word
    being read. *)
Fixpoint split_from (cur s : pystr) : list pystr :=
  match s with
  | [] => match cur with [] => [] | _ => [cur] end
  | c :: r =>
      if is_space c then
        match cur with
        | [] => split_from [] r
        | _ => cur :: split_from [] r
        end
      else split_from (cur ++ [c]) r
  end.

Definition split (s : pystr) : list pystr := split_from [] s.


End Sections.

(** ** The [text_preview] of a record *)

Module Display.
Import PyStr PyList.

Definition text_preview (r : CatalystDisclosure) : pystr :=
  let s := strip (text r) in
  if 400 <? length s then slice s 0 380 ++ py "..." else s.

End Display.

(** ** ingest/fetch_single_asx.py and ingest/asx_ingest.py: the labels of
    the announcements *)

Module Ingest.
Import PyStr.

(** [classify_filing] *)
Definition classify_filing (title : pystr) : pystr :=
  let t := lower title in
  if contains (py "quarterly") t && contains (py "report") t
  then py "quarterly"
  else if contains (py "investor presentation") t then py "investor"
  else if contains (py "annual report") t then py "annual"
  else py "other".

(** [allowed] of [get_asx_announcements] *)
Definition allowed : list pystr :=
  [py "quarterly"; py "annual"; py "investor"].

(** [classify_announcement] *)
Definition classify_announcement (title : pystr) : pystr :=
  let t := lower title in
  if contains (py "quarter") t then py "QUARTERLY"
  else if contains (py "investor presentation") t
          || contains (py "presentation") t
  then py "PRESENTATION"
  else if contains (py "annual") t && contains (py "report") t
  then py "ANNUAL"
  else py "OTHER".

End Ingest.

(** ** pipeline/run_pipeline.py *)

Record report := {
  report_status : pystr;                     (* ["status"] *)
  report_count : nat;                        (* ["count"] *)
  report_items : list CatalystDisclosure;    (* ["items"] *)
  report_persist : json;                     (* ["persist"] *)
}.

Module Pipeline.
Import PyStr PyList PyVal BaseExtractor Extractors Dispatch.

(** [d[k] = v]: a new key goes last, an old one keeps its place. *)
Fixpoint setitem (k : pystr) (v : json) (d : list (pystr * json))
  : list (pystr * json) :=
  match d with
  | [] => [(k, v)]
  | (k', v') :: rest =>
      if decide (k' = k) then (k, v) :: rest
      else (k', v') :: setitem k v rest
  end.

(** [d.update(other)] *)
Definition update (d other : list (pystr * json)) : list (pystr * json) :=
  foldl (fun d kv => setitem kv.1 kv.2 d) d other.

(** A value of type [Optional[str]]. *)
Definition optional_str (s : option pystr) : json :=
  match s with
  | Some s => JStr s
  | None => JNull
  end.

(** [a or b] for an optional string [a]. *)
Definition str_or (a : option pystr) (b : pystr) : pystr :=
  match a with
  | Some (c :: s) => c :: s
  | _ => b
  end.

(** [s.replace(c, "")] for a single character [c]. *)
Definition remove_char (c : ascii) (s : pystr) : pystr :=
  filter (fun x => x <> c) s.

Section Pipeline.
Context `{External}.

(** [download_local_file]: the path of the local copy, as [str(tmp_path)]
    gives it; it raises when the document cannot be fetched. *)
Variable download_local_file : pystr -> result pystr.

(** [persist_output_json]: the record identifier and the file name, made
    from the clock; writing may raise. *)
Variable persist_output_json :
  pystr -> pystr -> pystr -> option pystr -> json ->
  list CatalystDisclosure -> result json.

(** [datetime.date.today().isoformat()] *)
Variable today : pystr.

(** [Pipeline.process_file], called without a status callback. *)
Definition process_file (file_url exchange_ filing_type_ doc_id_ : pystr)
    (filing_date_ source_file_ : option pystr)
    (metadata : option (list (pystr * json))) : M report :=
  let metadata := default [] metadata in
  let metadata :=
    update metadata
      [ (py "doc_id", JStr doc_id_);
        (py "exchange", JStr exchange_);
        (py "filing_type", JStr filing_type_);
        (py "filing_date", optional_str filing_date_);
        (py "source_file", JStr (str_or source_file_ file_url)) ] in
  tmp_path ← lift (download_local_file file_url);
  extractor ← lift (get_extractor_instance exchange_ filing_type_);
  items ← run (extract_of extractor tmp_path metadata);
  persist_meta ←
    lift (persist_output_json doc_id_ exchange_ filing_type_ filing_date_
            (dict_get metadata (py "source_file")) items);
  mret {| report_status := match items with
                           | [] => py "no_items"
                           | _ => py "ok"
                           end;
          report_count := length items;
          report_items := items;
          report_persist := persist_meta |}.

(** [_make_doc_id]; [None] when [ticker] is a value without [upper]. *)
Definition make_doc_id (ticker : json) (filing_date_ : option pystr)
    (filing_type_ : pystr) : option pystr :=
  t ← (if truthy ticker then upper_of ticker else Some (upper (py "DOC")));
  let d := str_or filing_date_ today in
  let safe_ft :=
    remove_char "/" (remove_char " " (upper filing_type_)) in
  Some (take 64 (t ++ d ++ safe_ft)).

(** [run_extraction_pipeline_from_url] *)
Definition run_extraction_pipeline_from_url
    (file_url exchange_ filing_type_ : pystr) (doc_id_ : option pystr)
    (filing_date_ source_file_ : option pystr)
    (metadata : option (list (pystr * json))) : M report :=
  doc ← match doc_id_ with
        | Some d => mret d
        | None =>
            let ticker :=
              match metadata with
              | Some (kv :: md) => dict_get (kv :: md) (py "ticker")
              | _ => JNull
              end in
            match make_doc_id ticker filing_date_ filing_type_ with
            | Some d => mret d
            | None => raise OtherError
            end
        end;
  process_file file_url exchange_ filing_type_ doc filing_date_
    (Some (str_or source_file_ file_url)) metadata.

(** [run_extraction_pipeline_for_listing] *)
Definition run_extraction_pipeline_for_listing
    (exchange_ filing_type_ ticker file_url : pystr)
    (filing_date_ : option pystr) : M report :=
  match make_doc_id (JStr ticker) filing_date_ filing_type_ with
  | Some doc =>
      run_extraction_pipeline_from_url file_url exchange_ filing_type_
        (Some doc) filing_date_ (Some file_url)
        (Some [(py "ticker", JStr ticker)])
  | None => raise OtherError
  end.

End Pipeline.
End Pipeline.

(** ** Further environments for the examples *)

Module Scenario.
Import PyStr.

(** A service that answers its first [n] invocations and is down from
    then on. *)
Definition answers_first (n : nat) (calls : nat) (prompt : pystr)
  : option llm_response :=
  if calls <? n then Some (Demo.echo_response prompt) else None.

(** A service that answers in prose. *)
Definition prose_llm (calls : nat) (prompt : pystr) : option llm_response :=
  Some {| content := py "No forward-looking statements were found.";
          as_str := [] |}.

(** A download that finds the file where the address says, and a store
    that accepts what it is given. *)
Definition local_file (url : pystr) : result pystr := Ok url.

Definition store (doc_id_ exchange_ filing_type_ : pystr)
    (filing_date_ : option pystr) (source_file_ : json)
    (output : list CatalystDisclosure) : result json :=
  Ok (JObj [(py "record_id", JStr doc_id_)]).

Definition today : pystr := py "2025-11-04".

End Scenario.

(** * Properties *)

(** ** The adaptive batcher *)

Module BatcherProps.
Import PyList Batcher Spec.

Lemma slice_step {A} (l : list A) i bs : slice l i (i + bs) = take bs (drop i l).
Proof. unfold slice. f_equal. lia. Qed.

Lemma concat_chunks {A} bs k (l : list A) :
  length l <= k * bs ->
  concat ((fun j => take bs (drop (j * bs) l)) <$> seq 0 k) = l.
Proof.
  revert l. induction k as [|k IH]; intros l Hl.
  - destruct l; simpl in *; [done | lia].
  - simpl. rewrite <- fmap_S_seq, <- list_fmap_compose.
    rewrite drop_0.
    transitivity (take bs l ++ drop bs l); [|apply take_drop]. f_equal.
    etransitivity; [|apply (IH (drop bs l)); rewrite length_drop; simpl in Hl; lia].
    + f_equal. apply list_fmap_ext. intros _ j _. simpl.
      rewrite drop_drop. done.
Qed.

Lemma range_len_covers n bs : 0 < bs -> n <= range_len 0 n bs * bs.
Proof.
  intros Hbs. unfold range_len. destruct (Nat.leb_spec n 0) as [H|H]; [lia|].
  rewrite Nat.sub_0_r.
  pose proof (Nat.div_mod_eq (n - 1) bs) as E.
  pose proof (Nat.mod_upper_bound (n - 1) bs ltac:(lia)) as U. nia.
Qed.

Lemma num_batches_pos n : 0 < num_batches n.
Proof. unfold num_batches. repeat case_match; lia. Qed.

Lemma batch_size_pos n : 0 < batch_size n.
Proof. unfold batch_size. lia. Qed.

Lemma batch_size_covers n : n <= num_batches n * batch_size n.
Proof.
  unfold batch_size. pose proof (num_batches_pos n) as Hk.
  set (k := num_batches n) in *.
  pose proof (Nat.div_mod_eq (n + k - 1) k) as E.
  pose proof (Nat.mod_upper_bound (n + k - 1) k ltac:(lia)) as U. nia.
Qed.

Lemma range_len_le n : range_len 0 n (batch_size n) <= num_batches n.
Proof.
  pose proof (batch_size_covers n) as Hc. pose proof (batch_size_pos n) as Hb.
  unfold range_len. destruct (Nat.leb_spec n 0) as [H|H]; [lia|].
  rewrite Nat.sub_0_r.
  assert ((n - 1) / batch_size n < num_batches n); [|lia].
  apply Nat.Div0.div_lt_upper_bound. lia.
Qed.

Lemma range_len_table n : 0 < n -> range_len 0 n (batch_size n) = num_batches n.
Proof.
  intros Hn. pose proof (range_len_le n) as Hle.
  apply Nat.le_antisymm; [done|].
  unfold range_len in *. destruct (Nat.leb_spec n 0) as [H|_]; [lia|].
  rewrite Nat.sub_0_r in *.
  assert (num_batches n - 1 <= (n - 1) / batch_size n); [|lia].
  apply Nat.div_le_lower_bound; [pose proof (batch_size_pos n); lia|].
  unfold batch_size, num_batches.
  repeat case_match; 
  repeat match goal with H : _ = true |- _ => first [apply Nat.leb_le in H | apply Nat.ltb_lt in H] 
                    | H : _ = false |- _ => first [apply Nat.leb_gt in H | apply Nat.ltb_ge in H] end.
  all: match goal with |- context [(?a) / ?k] =>
         pose proof (Nat.div_mod_eq a k) as E;
         pose proof (Nat.mod_upper_bound a k ltac:(lia)) as U end; nia.
Qed.

Section Props.
Context {A : Type}.
Implicit Types l : list A.

Lemma slices_concat l : concat (slices l) = l.
Proof.
  unfold slices, range. rewrite <- list_fmap_compose.
  erewrite list_fmap_ext; [apply (concat_chunks (batch_size (length l)))|].
  - apply range_len_covers, batch_size_pos.
  - intros _ j _. simpl. apply slice_step.
Qed.

Lemma length_slices l : length (slices l) = range_len 0 (length l) (batch_size (length l)).
Proof. unfold slices, range. by rewrite !length_fmap, length_seq. Qed.

Lemma batches_slices l : batches l = slices l.
Proof.
  unfold batches. apply take_ge. rewrite length_slices. apply range_len_le.
Qed.

Lemma batches_lookup l i b :
  batches l !! i = Some b ->
  i * batch_size (length l) < length l /\
  b = take (batch_size (length l)) (drop (i * batch_size (length l)) l).
Proof.
  rewrite batches_slices. unfold slices, range. rewrite <- list_fmap_compose.
  rewrite list_lookup_fmap. intros H.
  destruct (seq _ _ !! i) as [j|] eqn:Hj; simplify_eq/=.
  apply lookup_seq in Hj as [-> Hlt]. simpl. rewrite slice_step. split; [|done].
  pose proof (batch_size_pos (length l)) as Hb.
  unfold range_len in Hlt. destruct (Nat.leb_spec (length l) 0); [lia|].
  rewrite Nat.sub_0_r in Hlt.
  assert (i <= (length l - 1) / batch_size (length l)) as Hi by lia.
  pose proof (Nat.Div0.mul_div_le (length l - 1) (batch_size (length l))).
  nia.
Qed.

Lemma batches_lookup_length l i b :
  batches l !! i = Some b ->
  length b = Nat.min (batch_size (length l)) (length l - i * batch_size (length l)).
Proof.
  intros [_ ->]%batches_lookup. by rewrite length_take, length_drop.
Qed.
End Props.

Lemma length_concat_sum {A} (ls : list (list A)) :
  length (concat ls) = sum_list_with length ls.
Proof. induction ls as [|x ls IH]; simpl; [done|]. by rewrite length_app, IH. Qed.

(** C1 (amended). The batches of the annual, quarterly and 10-Q extractors
    are the candidate list cut into consecutive pieces: concatenated they
    give the list back, so their sizes add up to its length and no slice
    is lost to the truncation; there are as many as the table says when
    there is a candidate, and none when there is not; none is empty; and
    their sizes never grow. *)
Theorem adaptive_batching {A} (candidates : list A) :
  let n := length candidates in
  concat (batches candidates) = candidates /\
  sum_list_with length (batches candidates) = n /\
  length (batches candidates) = (if decide (n = 0) then 0 else num_batches n) /\
  Forall (fun b => b <> []) (batches candidates) /\
  non_increasing (length <$> batches candidates).
Proof.
  intros n. subst n. split_and!.
  - rewrite batches_slices. apply slices_concat.
  - rewrite <- length_concat_sum, batches_slices, slices_concat. done.
  - rewrite batches_slices, length_slices. case_decide as Hn.
    + rewrite Hn. done.
    + apply range_len_table. lia.
  - apply Forall_lookup. intros i b Hb.
    pose proof (batches_lookup_length _ _ _ Hb) as Hlen.
    apply batches_lookup in Hb as [Hlt _].
    pose proof (batch_size_pos (length candidates)).
    intros ->. simpl in Hlen. lia.
  - intros i j a b Hij. rewrite !list_lookup_fmap.
    destruct (batches candidates !! i) as [bi|] eqn:Hi; [|done].
    destruct (batches candidates !! j) as [bj|] eqn:Hj; [|done].
    simpl. intros [= <-] [= <-].
    rewrite (batches_lookup_length _ _ _ Hi), (batches_lookup_length _ _ _ Hj).
    assert (i * batch_size (length candidates) <= j * batch_size (length candidates))
      by (apply Nat.mul_le_mono_r; done).
    lia.
Qed.

(** With no candidate the table asks for one batch and the slicing yields
    none. *)
Lemma no_candidates_no_batch :
  length (batches (@nil pystr)) <> num_batches (length (@nil pystr)).
Proof. vm_compute. discriminate. Qed.

(** The split of the investor extractor: one batch up to ten candidates,
    two halves beyond, the first at least as long as the second. *)
Lemma investor_batching {A} (candidates : list A) :
  let n := length candidates in
  concat (investor_batches candidates) = candidates /\
  length (investor_batches candidates) = (if decide (n <= 10) then 1 else 2) /\
  (0 < n -> Forall (fun b => b <> []) (investor_batches candidates)) /\
  non_increasing (length <$> investor_batches candidates).
Proof.
  intros n. subst n. unfold investor_batches, slice.
  destruct (Nat.leb_spec (length candidates) 10) as [Hle|Hgt].
  - rewrite decide_True by done. split_and!.
    + simpl. apply app_nil_r.
    + done.
    + intros Hn. repeat constructor. intros ->. simpl in Hn. lia.
    + intros i j a b Hij Hi Hj. destruct i, j; simplify_eq/=; lia.
  - rewrite decide_False by lia.
    set (n := length candidates) in *. set (f := (n + 1) / 2).
    assert (n - f <= f /\ 0 < n - f /\ f < n) as (Hf1 & Hf2 & Hf3).
    { subst f. pose proof (Nat.div_mod_eq (n + 1) 2).
      pose proof (Nat.mod_upper_bound (n + 1) 2). lia. }
    rewrite Nat.sub_0_r, drop_0. split_and!.
    + simpl. rewrite app_nil_r.
      rewrite (take_ge (drop f candidates)) by (rewrite length_drop; lia).
      apply take_drop.
    + done.
    + intros _. repeat constructor.
      * intros E. apply (f_equal length) in E. rewrite length_take in E.
        simpl in E. lia.
      * intros E. apply (f_equal length) in E.
        rewrite length_take, length_drop in E. simpl in E. lia.
    + intros i j a b Hij. simpl.
      rewrite !length_take, length_drop. fold n.
      destruct i as [|[|i]], j as [|[|j]]; intros; simplify_eq/=; lia.
Qed.

End BatcherProps.

(** ** Strings *)

Module PyStrProps.
Import PyStr Spec.

Lemma startswith_spec p s :
  startswith p s = true <-> exists post, s = p ++ post.
Proof.
  revert s. induction p as [|a p IH]; intros s; simpl.
  - split; [eauto | done].
  - destruct s as [|b s].
    + split; [done | intros [post [=]]].
    + rewrite andb_true_iff, bool_decide_eq_true, IH. split.
      * intros [-> [post ->]]. eauto.
      * intros [post [= -> ->]]. eauto.
Qed.

(** [sub in s] holds exactly when [sub] occurs in [s]. *)
Lemma contains_Substr sub s : contains sub s = true <-> Substr sub s.
Proof.
  unfold Substr. induction s as [|c s IH]; simpl.
  - rewrite orb_false_r, startswith_spec. split.
    + intros [post E]. exists [], post. done.
    + intros (pre & post & E). symmetry in E.
      apply app_eq_nil in E as [-> E]. eauto.
  - rewrite orb_true_iff, startswith_spec, IH. split.
    + intros [[post E] | (pre & post & E)].
      * exists [], post. done.
      * exists (c :: pre), post. by rewrite E.
    + intros ([|c' pre] & post & E).
      * left. eauto.
      * right. simplify_eq/=. eauto.
Qed.

Lemma contains_not_Substr sub s : contains sub s = false <-> ~ Substr sub s.
Proof. rewrite <- contains_Substr. by destruct (contains sub s). Qed.

Lemma upper_char_idem c : upper_char (upper_char c) = upper_char c.
Proof. by destruct c as [[] [] [] [] [] [] [] []]. Qed.

Lemma upper_idem s : upper (upper s) = upper s.
Proof.
  unfold upper. rewrite <- list_fmap_compose. apply list_fmap_ext.
  intros _ c _. apply upper_char_idem.
Qed.

Lemma lstrip_app_space ws s :
  Forall (fun c => is_space c = true) ws -> lstrip (ws ++ s) = lstrip s.
Proof. induction 1 as [|c ws Hc _ IH]; simpl; [done|]. by rewrite Hc. Qed.

Lemma lstrip_cons_nonspace c s : is_space c = false -> lstrip (c :: s) = c :: s.
Proof. intros Hc. simpl. by rewrite Hc. Qed.

Lemma lstrip_sublist s : exists ws, s = ws ++ lstrip s /\ Forall (fun c => is_space c = true) ws.
Proof.
  induction s as [|c s (ws & E & Hws)]; simpl.
  - exists []. done.
  - destruct (is_space c) eqn:Hc.
    + exists (c :: ws). split; [simpl; congruence | by constructor].
    + exists []. done.
Qed.

Lemma rstrip_snoc_nonspace s c : is_space c = false -> rstrip (s ++ [c]) = s ++ [c].
Proof.
  intros Hc. unfold rstrip. rewrite reverse_snoc, lstrip_cons_nonspace by done.
  by rewrite reverse_cons, reverse_involutive.
Qed.

Lemma rstrip_sublist s : exists ws, s = rstrip s ++ ws /\ Forall (fun c => is_space c = true) ws.
Proof.
  unfold rstrip. destruct (lstrip_sublist (reverse s)) as (ws & E & Hws).
  exists (reverse ws). split.
  - apply (f_equal reverse) in E. rewrite reverse_involutive, reverse_app in E. done.
  - by apply Forall_reverse.
Qed.

(** Stripping takes characters away and adds none. *)
Lemma strip_elem c s : c ∈ strip s -> c ∈ s.
Proof.
  unfold strip. intros Hc.
  destruct (lstrip_sublist s) as (ws1 & E1 & _).
  destruct (rstrip_sublist (lstrip s)) as (ws2 & E2 & _).
  rewrite E1, E2. set_solver.
Qed.

End PyStrProps.

(** ** Dispatch *)

Module DispatchProps.
Import PyStr Enums Dispatch PyStrProps.

Lemma canonical_annual :
  canonical_key (py "ANNUAL") = py "annual" /\
  canonical_key (py "ASX_ANNUAL") = py "annual" /\
  canonical_key (py "annual") = py "annual".
Proof. vm_compute. done. Qed.

(** The annual synonyms reach the same extractor as "annual", whatever the
    exchange. *)
Lemma annual_synonyms exchange :
  get_extractor_instance exchange (py "ANNUAL")
    = get_extractor_instance exchange (py "annual") /\
  get_extractor_instance exchange (py "ASX_ANNUAL")
    = get_extractor_instance exchange (py "annual").
Proof.
  unfold get_extractor_instance.
  destruct canonical_annual as (-> & -> & ->). done.
Qed.

Lemma asx_synonyms_registered :
  Forall (fun ft => get_extractor_instance (py "ASX") (py ft) = Ok ASXAnnualExtractor)
    ["ANNUAL"; "ASX_ANNUAL"; "annual"; "Annual"]%string /\
  Forall (fun ft => get_extractor_instance (py "asx") (py ft) = Ok ASXQuarterlyExtractor)
    ["QUARTERLY"; "ASX_QUARTERLY"; "quarterly"]%string /\
  Forall (fun ft => get_extractor_instance (py "ASX") (py ft) = Ok ASXInvestorExtractor)
    ["INVESTOR_PRESENTATION"; "INVESTOR"; "investor"]%string.
Proof. split_and!; repeat constructor; vm_compute; done. Qed.

(** A key that is not registered raises [KeyError]; nothing else comes
    out. *)
Lemma unregistered_raises exchange filing_type :
  EXTRACTOR_REGISTRY !! (upper exchange, canonical_key filing_type) = None ->
  get_extractor_instance exchange filing_type = Raise KeyError.
Proof.
  intros Hnone. unfold get_extractor_instance, get_extractor.
  by rewrite upper_idem, Hnone.
Qed.

Lemma unknown_type_raises :
  get_extractor_instance (py "ASX") (py "unknown_type") = Raise KeyError.
Proof. vm_compute. done. Qed.

Lemma registry_10Q_key exchange :
  EXTRACTOR_REGISTRY !! (exchange, py "10-Q") = None.
Proof.
  unfold EXTRACTOR_REGISTRY. apply not_elem_of_list_to_map. simpl.
  rewrite !elem_of_cons, elem_of_nil. intros H.
  destruct_or!; try done; simplify_eq.
Qed.

(** C8. The two spellings of the 10-Q filing type are mapped to the key
    "10-Q", under which nothing is registered: dispatch raises for them on
    every exchange, while the member value "SEC_10Q" is found. *)
Theorem dispatch_10Q_synonyms_unregistered :
  (forall exchange,
     get_extractor_instance exchange (py "10-Q") = Raise KeyError /\
     get_extractor_instance exchange (py "10Q") = Raise KeyError) /\
  get_extractor_instance (py "SEC") (py "SEC_10Q") = Ok SECExtractor.
Proof.
  split; [|vm_compute; done].
  intros exchange.
  assert (canonical_key (py "10-Q") = py "10-Q") as E1 by (vm_compute; done).
  assert (canonical_key (py "10Q") = py "10-Q") as E2 by (vm_compute; done).
  unfold get_extractor_instance, get_extractor. rewrite E1, E2.
  by rewrite registry_10Q_key.
Qed.
End DispatchProps.

(** ** The entry point [run] *)

Module RunProps.
Import BaseExtractor Extractors Dispatch.

Lemma run_ok {A} (extract : M (list A)) calls :
  (run extract calls).1
  = Ok (match (extract calls).1 with Ok records => records | Raise _ => [] end).
Proof. unfold run. destruct (extract calls) as [[records|[]] calls']; done. Qed.

Lemma run_calls {A} (extract : M (list A)) calls :
  (run extract calls).2 = (extract calls).2.
Proof. unfold run. destruct (extract calls) as [[records|[]] calls']; done. Qed.

(** The failures do occur. *)
Lemma unreadable_document_raises `{External} ft batcher build skip fp calls e :
  parse_sections ft fp = Raise e ->
  extract_pdf fp ft batcher build skip calls = (Raise e, calls).
Proof. intros Hp. unfold extract_pdf, lift, mbind, M_bind. by rewrite Hp. Qed.

Lemma ask_llm_down `{External} prompt calls :
  (forall t, llm_invoke t prompt = None) ->
  ask_llm prompt calls = (Raise ExtractionError, calls + 3).
Proof.
  intros Hdown. unfold ask_llm, reraise_as, mbind, M_bind. simpl.
  rewrite !Hdown. f_equal. lia.
Qed.

Lemma llm_down_raises `{External} ft build batch rest acc idx calls :
  batch <> [] ->
  (forall t prompt, llm_invoke t prompt = None) ->
  process_batches ft build true (batch :: rest) acc idx calls
  = (Raise ExtractionError, calls + 3).
Proof.
  intros Hne Hdown. simpl. rewrite bool_decide_eq_false_2 by done. simpl.
  unfold mbind at 1, M_bind at 1. by rewrite ask_llm_down.
Qed.

(** C2. For each extractor class, file path and metadata, [run] ends with
    a list: the records of [extract] when it returns, the empty list when
    it raises, be it InvalidFilingError, ExtractionError or anything
    else; so a document whose sections cannot be read gives the empty
    list and no invocation of the model. *)
Theorem run_returns_list `{External} (cls : ExtractorClass)
    (file_path : pystr) (metadata : list (pystr * json)) (calls : nat) :
  (run (extract_of cls file_path metadata) calls).1
  = Ok (match (extract_of cls file_path metadata calls).1 with
        | Ok records => records
        | Raise _ => []
        end) /\
  (forall e,
     (extract_of cls file_path metadata calls).1 = Raise e ->
     (run (extract_of cls file_path metadata) calls).1 = Ok []) /\
  (forall ft batcher build skip e,
     parse_sections ft file_path = Raise e ->
     run (extract_pdf file_path ft batcher build skip) calls = (Ok [], calls)).
Proof.
  split_and!.
  - apply run_ok.
  - intros e He. by rewrite run_ok, He.
  - intros ft batcher build skip e Hp. unfold run.
    rewrite (unreadable_document_raises _ _ _ _ _ _ _ Hp). by destruct e.
Qed.

Lemma run_returns_list_witness :
  (run (@extract_of (Demo.world (Ok Demo.report) Demo.failing_llm)
          ASXAnnualExtractor Demo.file_path Demo.metadata) 0).1
  = Ok [].
Proof.
  destruct (@run_returns_list (Demo.world (Ok Demo.report) Demo.failing_llm)
              ASXAnnualExtractor Demo.file_path Demo.metadata 0)
    as (_ & Hraise & _).
  apply (Hraise ExtractionError). vm_compute. reflexivity.
Defined.

Example run_annual_llm_down :
  @run CatalystDisclosure
    (@extract_annual (Demo.world (Ok Demo.report) Demo.failing_llm)
       Demo.file_path Demo.metadata) 0
  = (Ok [], 3).
Proof. vm_compute. reflexivity. Qed.

Example run_annual_missing_file :
  @run CatalystDisclosure
    (@extract_annual (Demo.world (Raise InvalidFilingError) Demo.echo_llm)
       Demo.file_path Demo.metadata) 0
  = (Ok [], 0).
Proof. vm_compute. reflexivity. Qed.
End RunProps.

(** ** Normalisation of one item *)

Module NormalizerProps.
Import PyStr PyVal Enums Model BaseExtractor Extractors Spec.

Ltac unfold_build :=
  unfold build_of, build_quarterly, build_sec, build_annual, build_basic,
    build_investor, CatalystDisclosure_new in *.

Lemma validate_score_Some z z' :
  validate_score z = Some z' <-> z' = z /\ (1 <= z <= 10)%Z.
Proof.
  unfold validate_score. destruct (Z.leb_spec 1 z), (Z.leb_spec z 10); simpl;
    split; intros; simplify_eq; try lia; intuition (try lia; congruence).
Qed.

(** What a built record owes to the item's score. *)
Lemma build_score `{External} ft md fp idx item r :
  build_of ft md fp idx item = Some r ->
  exists v, get item (py "score") (JInt 5) = Some v /\
            int_of v = Some (score r) /\ (1 <= score r <= 10)%Z.
Proof.
  destruct ft; unfold_build; intros Hb; simplify_option_eq;
    match goal with Hv : validate_score _ = Some _ |- _ =>
      apply validate_score_Some in Hv as [-> ?] end; eauto.
Qed.

Lemma build_bad_score `{External} ft md fp idx item v :
  get item (py "score") (JInt 5) = Some v ->
  (forall z, int_of v = Some z -> (z < 1 \/ 10 < z)%Z) ->
  build_of ft md fp idx item = None.
Proof.
  intros Hget Hbad.
  destruct (build_of ft md fp idx item) as [r|] eqn:Hb; [|done].
  apply build_score in Hb as (v' & Hget' & Hint & Hrange).
  simplify_eq. apply Hbad in Hint. lia.
Qed.

Lemma build_sentence_id `{External} ft md fp idx item r :
  build_of ft md fp idx item = Some r -> sentence_id r = sentence_id_of idx.
Proof. destruct ft; unfold_build; intros Hb; by simplify_option_eq. Qed.

End NormalizerProps.

(** ** The forecast type *)

Module ForecastProps.
Import PyStr PyVal Enums Model BaseExtractor Extractors Spec PyStrProps NormalizerProps.



(** The rules leave no choice. *)
Lemma FirstMatch_unique rules dflt low ft1 ft2 :
  FirstMatch rules dflt low ft1 -> FirstMatch rules dflt low ft2 -> ft1 = ft2.
Proof.
  intros [(i & s1 & Hi & Hm1 & Hmin1) | [-> Hn1]]
         [(j & s2 & Hj & Hm2 & Hmin2) | [-> Hn2]].
  - destruct (Nat.lt_trichotomy i j) as [Hlt|[->|Hlt]].
    + destruct (Hmin2 _ _ _ Hlt Hi Hm1).
    + congruence.
    + destruct (Hmin1 _ _ _ Hlt Hj Hm2).
  - destruct (Hn2 (s1, ft1)); [by eapply list_elem_of_lookup_2 | done].
  - destruct (Hn1 (s2, ft2)); [by eapply list_elem_of_lookup_2 | done].
  - done.
Qed.



Lemma validate_str_list_Some v l :
  validate_str_list v = Some l -> v = JArr (JStr <$> l).
Proof.
  destruct v as [| | | | |items|]; simpl; try done.
  intros Hm. f_equal. apply mapM_Some in Hm.
  induction Hm as [|x y xs ys Hxy _ IH]; simpl; [done|].
  destruct x; by simplify_eq/=.
Qed.


Lemma category_table :
  CATEGORY_MAP !! py "Intent Verbs" = Some INTENT /\
  CATEGORY_MAP !! py "Timeline" = Some TIMING /\
  CATEGORY_MAP !! py "Guidance" = Some GUIDANCE /\
  CATEGORY_MAP !! py "Milestones" = Some MILESTONES /\
  CATEGORY_MAP !! py "Deals" = Some DEALS /\
  CATEGORY_MAP !! py "Strategy" = Some STRATEGY /\
  CATEGORY_MAP !! py "Something else" = None.
Proof. vm_compute. done. Qed.


(** The two sample strings, in each of the three ladders' variants. *)
Lemma forecast_examples :
  forecast_annual (lower (py "regulatory approval expected")) = REGULATORY /\
  forecast_basic (lower (py "regulatory approval expected")) = REGULATORY /\
  forecast_annual (lower (py "binding contract")) = CONTRACTUAL /\
  forecast_basic (lower (py "binding contract")) = CONTRACTUAL /\
  forecast_annual (lower (py "Guidance")) = GUIDANCE /\
  forecast_basic (lower (py "Guidance")) = HINTS.
Proof. vm_compute. done. Qed.


End ForecastProps.

(** ** Tone and impact *)

Module ToneImpactProps.
Import PyStr PyVal Enums Model BaseExtractor Extractors Spec PyStrProps NormalizerProps.

Lemma Tone_of_value t : Tone_of (JStr (Tone_value t)) = Some t.
Proof. by destruct t. Qed.

Lemma Impact_of_value i : Impact_of (JStr (Impact_value i)) = Some i.
Proof. by destruct i. Qed.

Lemma Tone_of_Some v t : Tone_of v = Some t -> v = JStr (Tone_value t).
Proof.
  destruct v; try done. unfold Tone_of, by_value. simpl.
  repeat case_decide; intros; simplify_eq/=; done.
Qed.

Lemma Impact_of_Some v i : Impact_of v = Some i -> v = JStr (Impact_value i).
Proof.
  destruct v; try done. unfold Impact_of, by_value. simpl.
  repeat case_decide; intros; simplify_eq/=; done.
Qed.

(** The enumeration classes accept a member's value as it is spelt and
    nothing else. *)
Lemma Tone_of_exact s : is_Some (Tone_of (JStr s)) <-> exists t, s = Tone_value t.
Proof.
  split.
  - intros [t Ht]. apply Tone_of_Some in Ht. exists t. congruence.
  - intros [t ->]. rewrite Tone_of_value. eauto.
Qed.

Lemma Impact_of_exact s : is_Some (Impact_of (JStr s)) <-> exists i, s = Impact_value i.
Proof.
  split.
  - intros [i Hi]. apply Impact_of_Some in Hi. exists i. congruence.
  - intros [i ->]. rewrite Impact_of_value. eauto.
Qed.

(** What the three extractors that pass the strings on unchanged do with a
    tone or an impact: the record carries the member whose value the
    string is, letter for letter. *)
Lemma build_tone_impact_exact `{External} ft md fp idx item r :
  ft <> ASX_INVESTOR ->
  build_of ft md fp idx item = Some r ->
  get item (py "tone") (JStr (py "neutral")) = Some (JStr (Tone_value (tone r))) /\
  get item (py "impact") (JStr (py "MED")) = Some (JStr (Impact_value (impact r))).
Proof.
  intros Hft. destruct ft; try done; unfold_build; intros Hb; simplify_option_eq.
  all: repeat match goal with
         | Ht : Tone_of _ = Some _ |- _ => apply Tone_of_Some in Ht as ->
         | Hi : Impact_of _ = Some _ |- _ => apply Impact_of_Some in Hi as ->
         end; done.
Qed.

(** The investor extractor lower-cases the tone and upper-cases the impact
    first. *)
Lemma build_tone_impact_investor `{External} md fp idx item r :
  build_investor md fp idx item = Some r ->
  exists t i,
    get item (py "tone") (JStr (py "neutral")) = Some (JStr t) /\
    get item (py "impact") (JStr (py "MED")) = Some (JStr i) /\
    lower t = Tone_value (tone r) /\ upper i = Impact_value (impact r).
Proof.
  unfold build_investor, CatalystDisclosure_new. intros Hb.
  simplify_option_eq.
  repeat match goal with
         | Hl : lower_of ?v = Some _ |- _ => destruct v; simplify_eq/=
         | Hl : upper_of ?v = Some _ |- _ => destruct v; simplify_eq/=
         | Ht : Tone_of _ = Some _ |- _ => apply Tone_of_Some in Ht
         | Hi : Impact_of _ = Some _ |- _ => apply Impact_of_Some in Hi
         end.
  simplify_eq. eauto 10.
Qed.

(** C6. Outside the investor extractor the tone and impact strings are
    not case-normalised: an item whose tone is "Positive" or "NEUTRAL", or
    whose impact is "high", is dropped by the annual, quarterly and 10-Q
    extractors, whatever the document. *)
Theorem tone_impact_case_sensitive `{External} md fp idx :
  Forall (fun ft =>
    Forall (fun item => build_of ft md fp idx item = None)
      [ JObj [(py "tone", JStr (py "Positive"))];
        JObj [(py "tone", JStr (py "NEUTRAL"))];
        JObj [(py "impact", JStr (py "high"))] ])
    [ASX_ANNUAL; ASX_QUARTERLY; SEC_10Q].
Proof. repeat constructor; vm_compute; reflexivity. Qed.

(** The same items are kept by the investor extractor. *)
Lemma investor_case_insensitive :
  let W := Demo.world (Ok Demo.report) Demo.echo_llm in
  (tone <$> @build_investor W Demo.metadata Demo.file_path 1
              (JObj [(py "tone", JStr (py "Positive"))])) = Some POSITIVE /\
  (tone <$> @build_investor W Demo.metadata Demo.file_path 1
              (JObj [(py "tone", JStr (py "NEUTRAL"))])) = Some NEUTRAL /\
  (impact <$> @build_investor W Demo.metadata Demo.file_path 1
                (JObj [(py "impact", JStr (py "high"))])) = Some HIGH.
Proof. vm_compute. done. Qed.

End ToneImpactProps.

(** ** Missing keys *)

Module DefaultsProps.
Import PyStr PyVal Enums Model BaseExtractor Extractors Spec Shape.
Import PyStrProps NormalizerProps ToneImpactProps.

Lemma assoc_app k l1 l2 :
  assoc k (l1 ++ l2) = match assoc k l1 with Some v => Some v | None => assoc k l2 end.
Proof.
  induction l1 as [|[k' v] l1 IH]; simpl; [done|]. by case_decide.
Qed.

Lemma assoc_filter_missing fields k l :
  assoc k (filter (fun kv => assoc kv.1 fields = None) l)
  = if decide (assoc k fields = None) then assoc k l else None.
Proof.
  induction l as [|[k' v] l IH]; simpl.
  - by case_decide.
  - rewrite filter_cons. simpl.
    destruct (decide (assoc k' fields = None)) as [Hq|Hq]; simpl; rewrite ?IH;
      repeat case_decide; simplify_eq; done.
Qed.

(** Looking a key up with its default does not see the completion. *)
Lemma get_with_defaults fields k d :
  assoc k defaults = Some d ->
  get (JObj (with_defaults fields)) k d = get (JObj fields) k d.
Proof.
  intros Hd. unfold with_defaults, get. f_equal. rewrite assoc_app.
  destruct (assoc k fields) as [v|] eqn:Hk; [done|].
  rewrite assoc_filter_missing.
  rewrite decide_True by done. by rewrite Hd.
Qed.

Ltac default_key := vm_compute; reflexivity.

(** A record is built from the values the item gives for the seven keys,
    or from their defaults. *)
Lemma build_with_defaults `{External} ft md fp idx fields :
  build_of ft md fp idx (JObj (with_defaults fields))
  = build_of ft md fp idx (JObj fields).
Proof.
  destruct ft; unfold_build.
  all: rewrite ?(get_with_defaults fields (py "forecast_type") (JStr []) ltac:(default_key)),
         ?(get_with_defaults fields (py "text") (JStr []) ltac:(default_key)),
         ?(get_with_defaults fields (py "tone") (JStr (py "neutral")) ltac:(default_key)),
         ?(get_with_defaults fields (py "impact") (JStr (py "MED")) ltac:(default_key)),
         ?(get_with_defaults fields (py "score") (JInt 5) ltac:(default_key)),
         ?(get_with_defaults fields (py "categories_matched") (JArr []) ltac:(default_key)),
         ?(get_with_defaults fields (py "entities") (JArr []) ltac:(default_key)).
  all: reflexivity.
Qed.

Lemma get_missing fields k d :
  assoc k fields = None -> get (JObj fields) k d = Some d.
Proof. intros Hk. simpl. by rewrite Hk. Qed.

(** Lines hold no line boundary. *)
Lemma splitlines_from_single_line s cur :
  single_line cur -> Forall single_line (splitlines_from cur s).
Proof.
  remember (length s) as n eqn:Hn. assert (length s <= n) as Hlen by lia.
  clear Hn. revert s cur Hlen.
  induction n as [|n IH]; intros [|c r] cur Hlen Hcur; simpl in *; try lia.
  - destruct cur; [constructor | constructor; [done | constructor]].
  - destruct cur; [constructor | constructor; [done | constructor]].
  - destruct (is_linebreak c) eqn:Hc.
    + destruct r as [|d r']; [constructor; [done | constructor]|].
      destruct (_ && _); constructor; try done;
        apply IH; simpl in *; try lia; constructor.
    + apply IH; [lia|]. apply Forall_app. split; [done|]. by repeat constructor.
Qed.

Lemma strip_Forall (P : ascii -> Prop) s : Forall P s -> Forall P (strip s).
Proof.
  rewrite !Forall_forall. intros Hs c Hc. by apply Hs, strip_elem.
Qed.

Lemma join_Forall (P : ascii -> Prop) sep parts :
  Forall P sep -> Forall (Forall P) parts -> Forall P (join sep parts).
Proof.
  intros Hsep. induction 1 as [|p parts Hp Hparts IH]; simpl; [constructor|].
  destruct parts as [|q parts]; [done|].
  rewrite !Forall_app. done.
Qed.

(** The cleaned text is a single line. *)
Lemma clean_text_single_line `{External} v : single_line (clean_text v).
Proof.
  unfold clean_text. destruct (negb (truthy v)); [constructor|].
  apply join_Forall; [by repeat constructor|].
  apply Forall_forall. intros line [_ Hin]%list_elem_of_filter.
  apply list_elem_of_fmap in Hin as (raw & -> & Hraw).
  apply strip_Forall.
  pose proof (splitlines_from_single_line (str_of v) [] ltac:(constructor)) as Hall.
  rewrite Forall_forall in Hall. by apply Hall.
Qed.

Lemma lstrip_tight_head s : tight_head (lstrip s).
Proof.
  induction s as [|c s IH]; simpl; [done|].
  destruct (is_space c) eqn:Hc; [done|]. intros d [= <-]. done.
Qed.

Lemma lstrip_id s : tight_head s -> lstrip s = s.
Proof.
  destruct s as [|c s]; [done|]. intros Hh. simpl. by rewrite (Hh c).
Qed.

Lemma rstrip_tight_last s : tight_last (rstrip s).
Proof.
  unfold rstrip, tight_last. intros c. rewrite last_reverse.
  apply lstrip_tight_head.
Qed.

Lemma rstrip_id s : tight_last s -> rstrip s = s.
Proof.
  intros Hl. unfold rstrip. rewrite lstrip_id; [apply reverse_involutive|].
  intros c. rewrite head_reverse. apply Hl.
Qed.

Lemma rstrip_tight_head s : tight_head s -> tight_head (rstrip s).
Proof.
  intros Hh c Hc. destruct (rstrip_sublist s) as (ws & E & _).
  apply Hh. rewrite E. destruct (rstrip s); by simplify_eq/=.
Qed.

Lemma strip_tight s : tight_head (strip s) /\ tight_last (strip s).
Proof.
  unfold strip. split.
  - apply rstrip_tight_head, lstrip_tight_head.
  - apply rstrip_tight_last.
Qed.

Lemma tight_stripped s : tight_head s -> tight_last s -> stripped s.
Proof.
  intros Hh Hl. unfold stripped, strip. rewrite lstrip_id by done.
  by apply rstrip_id.
Qed.

Lemma stripped_strip s : stripped (strip s).
Proof. destruct (strip_tight s). by apply tight_stripped. Qed.

Lemma join_nonempty sep p parts :
  p <> [] -> join sep (p :: parts) <> [].
Proof. destruct parts, p; simpl; done. Qed.

Lemma join_tight_head sep parts :
  Forall (fun p => p <> [] /\ tight_head p) parts -> tight_head (join sep parts).
Proof.
  destruct 1 as [|p parts [Hne Hp] _]; simpl; [done|].
  destruct parts as [|q parts]; [done|].
  intros c Hc. apply Hp. by destruct p.
Qed.

Lemma join_tight_last sep parts :
  Forall (fun p => p <> [] /\ tight_last p) parts -> tight_last (join sep parts).
Proof.
  induction 1 as [|p parts [Hne Hp] Hparts IH]; simpl; [done|].
  destruct parts as [|q parts]; [done|].
  intros c. rewrite !app_assoc, last_app.
  inversion Hparts as [|? ? [Hq _] _]; subst.
  pose proof (join_nonempty sep q parts Hq) as Hj.
  destruct (last (join sep (q :: parts))) as [d|] eqn:Hd.
  - intros [= <-]. by apply IH.
  - apply last_None in Hd. done.
Qed.

(** The lines [clean_text] keeps. *)
Lemma clean_text_lines `{External} v :
  clean_text v
  = if truthy v
    then join (py " ")
           (filter (fun line => line <> []) (strip <$> splitlines (str_of v)))
    else [].
Proof. unfold clean_text. by destruct (truthy v). Qed.

Lemma clean_text_stripped `{External} v : stripped (clean_text v).
Proof.
  rewrite clean_text_lines. destruct (truthy v); [|done].
  apply tight_stripped.
  - apply join_tight_head, Forall_forall.
    intros line [Hne Hin]%list_elem_of_filter.
    apply list_elem_of_fmap in Hin as (raw & -> & _).
    split; [done | apply strip_tight].
  - apply join_tight_last, Forall_forall.
    intros line [Hne Hin]%list_elem_of_filter.
    apply list_elem_of_fmap in Hin as (raw & -> & _).
    split; [done | apply strip_tight].
Qed.

Lemma splitlines_from_one_line s cur :
  single_line s ->
  splitlines_from cur s = match cur ++ s with [] => [] | l => [l] end.
Proof.
  intros Hs. revert cur. induction Hs as [|c r Hc _ IH]; intros cur; simpl.
  - rewrite app_nil_r. by destruct cur.
  - rewrite Hc, IH, <- app_assoc. done.
Qed.

Lemma clean_text_idem `{External} v :
  clean_text (JStr (clean_text v)) = clean_text v.
Proof.
  pose proof (clean_text_single_line v) as Hline.
  pose proof (clean_text_stripped v) as Hstrip.
  destruct (clean_text v) as [|c t] eqn:E; [done|].
  rewrite clean_text_lines. simpl. unfold splitlines.
  rewrite splitlines_from_one_line by done. simpl.
  rewrite Hstrip. rewrite filter_cons_True by done. done.
Qed.

Lemma splitlines_from_line cur line rest :
  single_line line ->
  splitlines_from cur (line ++ rest) = splitlines_from (cur ++ line) rest.
Proof.
  intros Hl. revert cur. induction Hl as [|c r Hc _ IH]; intros cur; simpl.
  - by rewrite app_nil_r.
  - rewrite Hc, IH, <- app_assoc. done.
Qed.

Lemma boundary_cases s :
  s ∈ line_boundaries ->
  (exists b, s = [b] /\ is_linebreak b = true) \/
  s = [ascii_of_nat 13; ascii_of_nat 10].
Proof.
  unfold line_boundaries. rewrite !fmap_cons, !elem_of_cons.
  intros Hs. destruct_or!; subst; try (by right);
    try (left; eexists; split; [reflexivity | by vm_compute]).
  by apply elem_of_nil in Hs.
Qed.

Lemma nonblank_cons line lines :
  nonblank (line :: lines)
  = (if decide (strip line = []) then [] else [strip line]) ++ nonblank lines.
Proof.
  unfold nonblank. rewrite fmap_cons. case_decide as Hs.
  - by rewrite filter_cons_False by (by intros ?).
  - by rewrite filter_cons_True.
Qed.

Lemma weave_nil ended last_line :
  Forall (fun p => single_line p.1 /\ p.2 ∈ line_boundaries) ended ->
  weave ended last_line = [] -> ended = [] /\ last_line = [].
Proof.
  destruct 1 as [|[line s] rest [_ Hs] _]; simpl; [done|].
  intros E. apply app_eq_nil in E as [_ E]. apply app_eq_nil in E as [E _].
  subst. apply boundary_cases in Hs as [(b & ? & _)|?]; done.
Qed.

(** The lines [splitlines] finds in a text given by its lines are these
    lines, blank ones apart. *)
Lemma nonblank_splitlines ended last_line cur :
  Forall (fun p => single_line p.1 /\ p.2 ∈ line_boundaries) ended ->
  single_line last_line ->
  nonblank (splitlines_from cur (weave ended last_line))
  = nonblank match ended.*1 ++ [last_line] with
             | [] => []
             | line :: lines => (cur ++ line) :: lines
             end.
Proof.
  remember (length ended) as n eqn:Hn.
  assert (length ended <= n) as Hlen by lia. clear Hn.
  revert ended cur Hlen. induction n as [|n IH]; intros ended cur Hlen Hall Hlast.
  - destruct ended; [|simpl in Hlen; lia]. simpl.
    pose proof (splitlines_from_line cur last_line [] Hlast) as E.
    rewrite app_nil_r in E. rewrite E. simpl.
    destruct (cur ++ last_line) eqn:Hc; [|done]. by vm_compute.
  - destruct ended as [|[line s] rest].
    { simpl. pose proof (splitlines_from_line cur last_line [] Hlast) as E.
      rewrite app_nil_r in E. rewrite E. simpl.
      destruct (cur ++ last_line) eqn:Hc; [|done]. by vm_compute. }
    inversion Hall as [|? ? [Hline Hs] Hrest]; subst. simpl in *.
    rewrite splitlines_from_line by done.
    assert (nonblank (splitlines_from [] (weave rest last_line))
            = nonblank (rest.*1 ++ [last_line])) as IHrest.
    { rewrite IH; [|lia|done|done]. by destruct rest as [|[] ?]. }
    apply boundary_cases in Hs as [(b & -> & Hb) | ->].
    + simpl. rewrite Hb.
      destruct (weave rest last_line) as [|d W'] eqn:HW.
      * apply weave_nil in HW as [-> ->]; [|done].
        rewrite !nonblank_cons. by vm_compute.
      * destruct ((code b =? 13)%N && (code d =? 10)%N) eqn:Hcrlf.
        -- apply andb_true_iff in Hcrlf as [_ Hd%N.eqb_eq].
           assert (d = ascii_of_nat 10) as ->.
           { rewrite <- (ascii_N_embedding d). unfold code in Hd.
             by rewrite Hd. }
           destruct rest as [|[l2 s2] r2].
           { simpl in HW. subst. by inversion Hlast. }
           inversion Hrest as [|? ? [Hl2 Hs2] Hr2]; subst. simpl in *.
           destruct l2 as [|c2 l2]; [|simplify_eq/=; by inversion Hl2].
           simpl in HW.
           apply boundary_cases in Hs2 as [(b2 & -> & _) | ->]; [|done].
           simplify_eq/=. rewrite !nonblank_cons.
           rewrite IH; [|lia|done|done].
           f_equal. change (strip []) with (@nil ascii).
           rewrite decide_True by done. simpl.
           by destruct r2 as [|[] ?].
        -- rewrite !nonblank_cons, IHrest. done.
    + simpl. rewrite !nonblank_cons, IHrest. done.
Qed.

(** A text of several lines is cleaned to its lines, stripped, the blank
    ones left out, with single spaces between them. *)
Lemma clean_text_weave `{External} ended last_line :
  Forall (fun p => single_line p.1 /\ p.2 ∈ line_boundaries) ended ->
  single_line last_line ->
  clean_text (JStr (weave ended last_line))
  = join (py " ") (nonblank (ended.*1 ++ [last_line])).
Proof.
  intros Hall Hlast. rewrite clean_text_lines. simpl.
  case_bool_decide as Hw; simpl.
  - apply weave_nil in Hw as [-> ->]; [|done]. by vm_compute.
  - f_equal. unfold splitlines.
    change (filter (fun line => line <> []) (strip <$> ?l)) with (nonblank l).
    rewrite nonblank_splitlines by done. by destruct ended as [|[] ?].
Qed.

Lemma clean_text_examples `{External} :
  clean_text JNull = [] /\
  clean_text (JStr []) = [] /\
  clean_text (JStr (Demo.lines ["  Sales will  grow "; ""; "   "; " in FY26. "]))
  = py "Sales will  grow in FY26.".
Proof. split_and!; vm_compute; reflexivity. Qed.

(** Four lines ended by a line feed, a carriage return with a line feed,
    a form feed and a record separator, and a last line. *)
Lemma clean_text_boundaries `{External} :
  let ended :=
    [ (py "  Sales will grow ", [ascii_of_nat 10]);
      ([], [ascii_of_nat 13; ascii_of_nat 10]);
      (py " in FY26. ", [ascii_of_nat 12]);
      (py "   ", [ascii_of_nat 30]) ] in
  let last_line := py " Outlook unchanged." in
  Forall (fun p => single_line p.1 /\ p.2 ∈ line_boundaries) ended /\
  single_line last_line /\
  length (weave ended last_line) = 55 /\
  clean_text (JStr (weave ended last_line))
  = py "Sales will grow in FY26. Outlook unchanged.".
Proof.
  intros ended last_line.
  assert (Forall (fun p => single_line p.1 /\ p.2 ∈ line_boundaries) ended)
    as Hended by (unfold single_line; apply (bool_decide_unpack _); by vm_compute).
  assert (single_line last_line)
    as Hlast by (unfold single_line; apply (bool_decide_unpack _); by vm_compute).
  split; [done|]. split; [done|]. split; [by vm_compute|].
  rewrite clean_text_weave by done. by vm_compute.
Qed.

(** C10. A key the item lacks does not cost the item its record: the
    record built, if any, is the one built from the item completed with
    the defaults, and where the item lacks text, tone, impact, entities or
    categories_matched the record has the empty text, the neutral tone,
    the MED impact and empty lists; in particular the empty item yields a
    record whenever the document's metadata are well formed.  The text of
    a record is the cleaned text of the item: empty for None, in all
    cases a single line without white space at either end, and for a text
    of several lines, whatever the boundaries between them, its lines
    stripped, the blank ones left out, joined by single spaces. *)
Theorem missing_keys_defaults `{External} ft md fp idx fields :
  build_of ft md fp idx (JObj fields)
  = build_of ft md fp idx (JObj (with_defaults fields)) /\
  (forall r, build_of ft md fp idx (JObj fields) = Some r ->
     text r = clean_text (default (JStr []) (assoc (py "text") fields)) /\
     single_line (text r) /\
     stripped (text r) /\
     (forall ended last_line,
        assoc (py "text") fields = Some (JStr (weave ended last_line)) ->
        Forall (fun p => single_line p.1 /\ p.2 ∈ line_boundaries) ended ->
        single_line last_line ->
        text r = join (py " ") (nonblank (ended.*1 ++ [last_line]))) /\
     (assoc (py "text") fields = None -> text r = []) /\
     (assoc (py "tone") fields = None -> tone r = NEUTRAL) /\
     (assoc (py "impact") fields = None -> impact r = MED) /\
     (assoc (py "entities") fields = None -> entities r = []) /\
     (assoc (py "categories_matched") fields = None ->
      categories_matched r = [])) /\
  (forall d fd,
     validate_str (doc_id_of md fp) = Some d ->
     validate_optional_str (dict_get md (py "date")) = Some fd ->
     exists r, build_of ft md fp idx (JObj []) = Some r /\
       text r = [] /\ tone r = NEUTRAL /\ impact r = MED /\ score r = 5%Z /\
       entities r = [] /\ categories_matched r = [] /\
       sentence_id r = sentence_id_of idx /\
       forecast_type r = match ft with ASX_INVESTOR => STRATEGY | _ => HINTS end) /\
  clean_text JNull = [] /\
  (forall ended last_line,
     Forall (fun p => single_line p.1 /\ p.2 ∈ line_boundaries) ended ->
     single_line last_line ->
     clean_text (JStr (weave ended last_line))
     = join (py " ") (nonblank (ended.*1 ++ [last_line]))).
Proof.
  split_and!.
  - symmetry. apply build_with_defaults.
  - intros r Hb.
    assert (text r = clean_text (default (JStr []) (assoc (py "text") fields)))
      as Htext by (destruct ft; unfold_build; by simplify_option_eq).
    split; [done|]. split; [rewrite Htext; apply clean_text_single_line|].
    split; [rewrite Htext; apply clean_text_stripped|].
    split.
    { intros ended last_line Hk Hall Hlast. rewrite Htext, Hk. simpl.
      by apply clean_text_weave. }
    clear Htext. split_and!; try intros Hk.
    all: destruct ft; unfold_build; simplify_option_eq; try done.
    all: try apply clean_text_single_line.
    all: repeat match goal with
           | Ht : Tone_of _ = Some _ |- _ => apply Tone_of_Some in Ht
           | Hi : Impact_of _ = Some _ |- _ => apply Impact_of_Some in Hi
           end; by simplify_eq/=.
  - intros d fd Hd Hfd.
    destruct ft; unfold_build; rewrite Hd, Hfd;
      (eexists; split; [reflexivity | split_and!; reflexivity]).
  - reflexivity.
  - intros ended last_line. apply clean_text_weave.
Qed.

Lemma missing_keys_defaults_witness :
  exists r,
    @build_of (Demo.world (Ok Demo.report) Demo.echo_llm) SEC_10Q
      Demo.metadata Demo.file_path 4 (JObj []) = Some r /\
    text r = [] /\ tone r = NEUTRAL /\ impact r = MED /\ score r = 5%Z /\
    entities r = [] /\ categories_matched r = [] /\
    sentence_id r = py "s4" /\ forecast_type r = HINTS.
Proof.
  destruct (@missing_keys_defaults (Demo.world (Ok Demo.report) Demo.echo_llm)
              SEC_10Q Demo.metadata Demo.file_path 4 [])
    as (_ & _ & Hempty & _).
  destruct (Hempty (py "ABC_2025") (Some (py "2025-11-03")) eq_refl eq_refl)
    as (r & Hr). exists r. exact Hr.
Defined.

End DefaultsProps.

(** ** The batch loop *)

Module LoopProps.
Import PyStr PyVal Enums Model BaseExtractor Extractors Dispatch Spec.

Section Invariant.
Context `{External}.
Variable P : list CatalystDisclosure -> nat -> Prop.
Variable build : nat -> json -> option CatalystDisclosure.
Hypothesis step : forall acc idx item r,
  P acc idx -> build idx item = Some r -> P (acc ++ [r]) (S idx).

Lemma build_items_inv items acc idx :
  P acc idx ->
  P (build_items build items acc idx).1 (build_items build items acc idx).2.
Proof.
  revert acc idx. induction items as [|item items IH]; intros acc idx HP; simpl.
  - done.
  - destruct (build idx item) as [r|] eqn:Hb; eauto.
Qed.

Lemma process_batches_inv ft skip batches acc idx calls records :
  P acc idx ->
  (process_batches ft build skip batches acc idx calls).1 = Ok records ->
  exists idx', P records idx'.
Proof.
  revert acc idx calls.
  induction batches as [|batch batches IH]; intros acc idx calls HP; simpl.
  - intros [= <-]. eauto.
  - destruct (skip && bool_decide (batch = [])); [by apply IH|].
    unfold mbind at 1, M_bind at 1.
    destruct (ask_llm _ calls) as [[resp|e] calls']; [|done].
    destruct (iterate _) as [l|]; [|done].
    pose proof (build_items_inv l acc idx HP) as HP'.
    destruct (build_items build l acc idx) as [acc' idx']. by apply IH.
Qed.
End Invariant.

(** An invariant of the record list and the counter that every builder
    maintains holds of what [extract] returns. *)
Lemma extract_inv `{External} (P : list CatalystDisclosure -> nat -> Prop)
    cls fp md calls records :
  P [] 1 ->
  (forall ft acc idx item r,
     P acc idx -> build_of ft md fp idx item = Some r -> P (acc ++ [r]) (S idx)) ->
  (extract_of cls fp md calls).1 = Ok records ->
  exists idx, P records idx.
Proof.
  intros H0 Hstep.
  assert (forall ft batcher skip,
    (extract_pdf fp ft batcher (build_of ft md fp) skip calls).1 = Ok records ->
    exists idx, P records idx) as Hpdf.
  { intros ft batcher skip. unfold extract_pdf, lift.
    unfold mbind at 1, M_bind at 1.
    destruct (parse_sections ft fp) as [[|sec secs]|e]; simpl; try done.
    - intros [= <-]. eauto.
    - destruct (extract_candidates _ _) as [|c cs]; simpl.
      + intros [= <-]. eauto.
      + apply process_batches_inv; [apply Hstep | done]. }
  destruct cls; simpl; try apply Hpdf.
  unfold extract_sec. destruct (read_html fp) as [html|]; simpl.
  - destruct (fromkeys_list _) as [|c cs]; simpl.
    + intros [= <-]. eauto.
    + apply (process_batches_inv _ _ (Hstep SEC_10Q)). done.
  - intros [= <-]. eauto.
Qed.
End LoopProps.

(** ** Scores *)

Module ScoreProps.
Import PyStr PyVal Enums Model BaseExtractor Extractors Dispatch Spec.
Import NormalizerProps DefaultsProps LoopProps.

Lemma emitted_scores_in_range `{External} cls fp md calls records :
  (extract_of cls fp md calls).1 = Ok records ->
  Forall (fun r => (1 <= score r <= 10)%Z) records.
Proof.
  intros Hx.
  destruct (extract_inv (fun acc _ => Forall (fun r => (1 <= score r <= 10)%Z) acc)
              cls fp md calls records) as [_ Hall]; try done.
  intros ft acc idx item r Hacc Hb. apply Forall_app. split; [done|].
  constructor; [|constructor]. by apply build_score in Hb as (v & _ & _ & Hr).
Qed.

Lemma build_items_dropped build item rest acc idx :
  build idx item = None ->
  build_items build (item :: rest) acc idx = build_items build rest acc idx.
Proof. intros Hb. simpl. by rewrite Hb. Qed.

Lemma get_snoc_other fields k v k' d :
  k <> k' -> get (JObj (fields ++ [(k, v)])) k' d = get (JObj fields) k' d.
Proof.
  intros Hne. unfold get. f_equal. rewrite assoc_app. simpl.
  rewrite decide_False by done. by destruct (assoc k' fields).
Qed.

Lemma get_snoc_missing fields k v d :
  assoc k fields = None -> get (JObj (fields ++ [(k, v)])) k d = Some v.
Proof.
  intros Hk. unfold get. rewrite assoc_app, Hk. simpl.
  by rewrite decide_True.
Qed.

Ltac other_key := vm_compute; discriminate.

(** An item without a score is treated as the same item with score 5. *)
Lemma build_missing_score `{External} ft md fp idx fields :
  assoc (py "score") fields = None ->
  build_of ft md fp idx (JObj fields)
  = build_of ft md fp idx (JObj (fields ++ [(py "score", JInt 5)])).
Proof.
  intros Hk. destruct ft; unfold_build.
  all: rewrite ?(get_snoc_missing fields (py "score") (JInt 5) (JInt 5) Hk),
         ?(get_missing fields (py "score") (JInt 5) Hk),
         ?(get_snoc_other fields (py "score") (JInt 5) (py "forecast_type") _ ltac:(other_key)),
         ?(get_snoc_other fields (py "score") (JInt 5) (py "text") _ ltac:(other_key)),
         ?(get_snoc_other fields (py "score") (JInt 5) (py "tone") _ ltac:(other_key)),
         ?(get_snoc_other fields (py "score") (JInt 5) (py "impact") _ ltac:(other_key)),
         ?(get_snoc_other fields (py "score") (JInt 5) (py "categories_matched") _ ltac:(other_key)),
         ?(get_snoc_other fields (py "score") (JInt 5) (py "entities") _ ltac:(other_key)).
  all: reflexivity.
Qed.

(** What [int] makes of a string. *)
Lemma int_lstrip_split s :
  exists ws, s = ws ++ int_lstrip s /\ Forall (fun c => is_int_space c = true) ws.
Proof.
  induction s as [|c s (ws & E & Hws)]; simpl.
  - exists []. done.
  - destruct (is_int_space c) eqn:Hc.
    + exists (c :: ws). split; [simpl; congruence | by constructor].
    + exists []. done.
Qed.

Lemma int_strip_split s :
  exists ws1 ws2,
    s = ws1 ++ int_strip s ++ ws2 /\
    Forall (fun c => is_int_space c = true) ws1 /\
    Forall (fun c => is_int_space c = true) ws2.
Proof.
  unfold int_strip.
  destruct (int_lstrip_split s) as (ws1 & E1 & H1).
  destruct (int_lstrip_split (reverse (int_lstrip s))) as (ws2 & E2 & H2).
  exists ws1, (reverse ws2). split_and!; [|done|by apply Forall_reverse].
  apply (f_equal reverse) in E2.
  rewrite reverse_involutive, reverse_app in E2. congruence.
Qed.

Lemma int_strip_elem c s :
  c ∈ s -> is_int_space c = false -> c ∈ int_strip s.
Proof.
  intros Hc Hs. destruct (int_strip_split s) as (ws1 & ws2 & E & H1 & H2).
  rewrite E, !elem_of_app in Hc. rewrite Forall_forall in H1, H2.
  destruct Hc as [Hc|[Hc|Hc]]; [|done|].
  - apply H1 in Hc. congruence.
  - apply H2 in Hc. congruence.
Qed.

Lemma int_space_no_digit c : is_int_space c = true -> digit_value c = None.
Proof.
  unfold is_int_space, digit_value, in_range. intros Hs.
  destruct (N.leb_spec 48 (code c)), (N.leb_spec (code c) 57); simpl; try done.
  repeat match goal with
         | H : context [(?a <=? ?b)%N] |- _ => destruct (N.leb_spec a b)
         | H : context [(?a =? ?b)%N] |- _ => destruct (N.eqb_spec a b)
         end; simpl in *; try done; lia.
Qed.

Lemma count_digits_strip s : count_digits (int_strip s) = count_digits s.
Proof.
  assert (forall ws, Forall (fun c => is_int_space c = true) ws ->
            filter (fun c => is_Some (digit_value c)) ws = []) as Hnone.
  { induction 1 as [|c ws Hc _ IH]; [done|].
    rewrite filter_cons_False; [done|].
    rewrite (int_space_no_digit c Hc). by intros []. }
  destruct (int_strip_split s) as (ws1 & ws2 & E & H1 & H2).
  unfold count_digits. do 2 f_equal.
  transitivity (filter (fun c => is_Some (digit_value c))
                  (ws1 ++ int_strip s ++ ws2)); [|by rewrite <- E].
  by rewrite !filter_app, (Hnone ws1), (Hnone ws2), app_nil_r.
Qed.

Lemma int_digits_bad_char c s acc after_digit :
  c ∈ s -> digit_value c = None -> c <> "_"%char ->
  int_digits acc after_digit s = None.
Proof.
  intros Hc Hd Hu. revert acc after_digit.
  induction s as [|d r IH]; intros acc after_digit; [by apply elem_of_nil in Hc|].
  apply elem_of_cons in Hc as [<-|Hc]; simpl.
  - rewrite Hd. by rewrite bool_decide_eq_false_2.
  - destruct (digit_value d); [by apply IH|].
    destruct (bool_decide (d = "_"%char) && after_digit); [|done].
    destruct r; [done | by apply IH].
Qed.

Lemma not_literal_char c :
  ~ literal_char c ->
  digit_value c = None /\ c <> "_"%char /\ c <> "+"%char /\ c <> "-"%char /\
  is_int_space c = false.
Proof.
  unfold literal_char, literal_codes. rewrite !elem_of_cons, elem_of_nil.
  intros Hc. split_and!.
  - unfold digit_value, in_range.
    destruct (N.leb_spec 48 (code c)), (N.leb_spec (code c) 57); simpl; try done.
    exfalso. apply Hc. lia.
  - intros ->. apply Hc. vm_compute. tauto.
  - intros ->. apply Hc. vm_compute. tauto.
  - intros ->. apply Hc. vm_compute. tauto.
  - unfold is_int_space, in_range.
    destruct (N.leb_spec 9 (code c)), (N.leb_spec (code c) 13),
      (N.eqb_spec (code c) 32), (N.eqb_spec (code c) 133),
      (N.eqb_spec (code c) 160); simpl; try done; exfalso; apply Hc; lia.
Qed.

Lemma int_of_str_bad_char s c :
  c ∈ s -> ~ literal_char c -> int_of_str s = None.
Proof.
  intros Hc (Hd & Hu & Hp & Hm & Hs)%not_literal_char.
  pose proof (int_strip_elem c s Hc Hs) as Hin.
  unfold int_of_str. destruct (int_strip s) as [|d r]; [done|].
  destruct (_ <? _)%N; [done|].
  repeat case_bool_decide; subst.
  - apply elem_of_cons in Hin as [->|Hin]; [done|].
    by rewrite (int_digits_bad_char c r _ _ Hin Hd Hu).
  - apply elem_of_cons in Hin as [->|Hin]; [done|].
    by rewrite (int_digits_bad_char c r _ _ Hin Hd Hu).
  - by rewrite (int_digits_bad_char c (d :: r) _ _ Hin Hd Hu).
Qed.

Lemma int_of_str_too_long s :
  (4300 < count_digits s)%N -> int_of_str s = None.
Proof.
  intros Hlen. unfold int_of_str. rewrite <- count_digits_strip in Hlen.
  destruct (int_strip s) as [|d r]; [done|].
  by destruct (N.ltb_spec int_max_str_digits (count_digits (d :: r)));
    [|unfold int_max_str_digits in *; lia].
Qed.

(** C4 (amended). Every record an extractor emits has a score between 1
    and 10, and it is [int] of the item's score.  An item whose score
    [int] cannot convert, or converts to a number below 1 or above 10, is
    not built, and the loop goes on with the other items, list and counter
    unchanged.  So it is for a string in which anything stands but digits,
    a sign, underscores and the white space [int] skips, and for a string
    of more than 4300 digits.  An item without a score is built exactly as
    with the score 5, which passes. *)
Theorem score_validation `{External} ft md fp idx item :
  (forall cls calls records,
     (extract_of cls fp md calls).1 = Ok records ->
     Forall (fun r => (1 <= score r <= 10)%Z) records) /\
  (forall r, build_of ft md fp idx item = Some r ->
     (1 <= score r <= 10)%Z /\
     exists v, get item (py "score") (JInt 5) = Some v /\
               int_of v = Some (score r)) /\
  (forall v,
     get item (py "score") (JInt 5) = Some v ->
     (forall z, int_of v = Some z -> (z < 1 \/ 10 < z)%Z) ->
     build_of ft md fp idx item = None /\
     forall rest acc,
       build_items (build_of ft md fp) (item :: rest) acc idx
       = build_items (build_of ft md fp) rest acc idx) /\
  (forall s,
     get item (py "score") (JInt 5) = Some (JStr s) ->
     (exists c, c ∈ s /\ ~ literal_char c) \/ (4300 < count_digits s)%N ->
     int_of (JStr s) = None /\
     build_of ft md fp idx item = None) /\
  (forall fields,
     item = JObj fields -> assoc (py "score") fields = None ->
     get item (py "score") (JInt 5) = Some (JInt 5) /\
     (int_of (JInt 5) ≫= validate_score) = Some 5%Z /\
     build_of ft md fp idx item
     = build_of ft md fp idx (JObj (fields ++ [(py "score", JInt 5)])) /\
     forall r, build_of ft md fp idx item = Some r -> score r = 5%Z).
Proof.
  split_and!.
  - intros cls calls records. apply emitted_scores_in_range.
  - intros r Hb. apply build_score in Hb as (v & Hv & Hint & Hr). eauto.
  - intros v Hv Hbad.
    assert (build_of ft md fp idx item = None) as Hnone
      by (by eapply build_bad_score).
    split; [done|]. intros rest acc. by apply build_items_dropped.
  - intros s Hv Hbad.
    assert (int_of (JStr s) = None) as Hnone.
    { destruct Hbad as [(c & Hc & Hlit)|Hlen].
      - by eapply int_of_str_bad_char.
      - by apply int_of_str_too_long. }
    split; [done|]. eapply build_bad_score; [done|].
    intros z Hz. congruence.
  - intros fields -> Hk. split_and!.
    + by apply get_missing.
    + reflexivity.
    + by apply build_missing_score.
    + intros r Hb. apply build_score in Hb as (v & Hv & Hint & _).
      rewrite (get_missing _ _ _ Hk) in Hv. by simplify_eq/=.
Qed.

(** A fractional score is cut down to its integer part before the range
    is checked: 10.5 is kept, as 10. *)
Lemma fractional_score_kept :
  let item := JObj [(py "score", JFloat (FFinite (21 # 2)))] in
  get item (py "score") (JInt 5) = Some (JFloat (FFinite (21 # 2))) /\
  ~ (1 <= 21 # 2 <= 10)%Q /\
  score <$> @build_of (Demo.world (Ok Demo.report) Demo.echo_llm) ASX_ANNUAL
              Demo.metadata Demo.file_path 1 item = Some 10%Z.
Proof.
  split_and!; [reflexivity | | vm_compute; reflexivity].
  intros [_ Hle]. vm_compute in Hle. by apply Hle.
Qed.

Lemma score_examples :
  let W := Demo.world (Ok Demo.report) Demo.echo_llm in
  let build v := score <$> @build_of W SEC_10Q Demo.metadata Demo.file_path 1
                             (JObj [(py "score", v)]) in
  build (JInt 0) = None /\ build (JInt 11) = None /\
  build (JStr (py "high")) = None /\ build JNull = None /\
  build (JInt 1) = Some 1%Z /\ build (JInt 10) = Some 10%Z /\
  build (JStr (py "7")) = Some 7%Z /\ build (JBool true) = Some 1%Z /\
  build (JStr (py " +7 ")) = Some 7%Z /\
  build (JStr (py "1_0")) = Some 10%Z /\
  build (JStr (py "7" ++ [ascii_of_nat 31])) = None /\
  build (JStr (ascii_of_nat 28 :: py "7")) = None /\
  build (JStr (py "7.0")) = None /\
  build (JStr (replicate 4300 "0"%char ++ py "7")) = None /\
  build (JStr (replicate 4299 "0"%char ++ py "7")) = Some 7%Z.
Proof. vm_compute. done. Qed.

Lemma score_validation_witness :
  let W := Demo.world (Ok Demo.report) Demo.echo_llm in
  let item := JObj [(py "score", JInt 11); (py "text", JStr (py "x"))] in
  @build_of W ASX_ANNUAL Demo.metadata Demo.file_path 1 item = None.
Proof.
  intros W item.
  destruct (@score_validation W ASX_ANNUAL Demo.metadata Demo.file_path 1 item)
    as (_ & _ & Hbad & _ & _).
  apply (Hbad (JInt 11) eq_refl).
  intros z [= <-]. right. reflexivity.
Defined.

End ScoreProps.

(** ** Sentence identifiers *)

Module SentenceIdProps.
Import PyStr PyVal Enums Model BaseExtractor Extractors Dispatch Spec.
Import NormalizerProps LoopProps RunProps.

Lemma counted_start : counted [] 1.
Proof. split; reflexivity. Qed.

Lemma counted_step `{External} ft md fp acc idx item r :
  counted acc idx -> build_of ft md fp idx item = Some r ->
  counted (acc ++ [r]) (S idx).
Proof.
  intros [-> Hids] Hb. split.
  - rewrite length_app. simpl. lia.
  - unfold numbered_from_one in *.
    rewrite fmap_app, length_app, seq_app, fmap_app, Hids. simpl.
    by rewrite (build_sentence_id _ _ _ _ _ _ Hb).
Qed.

(** A dropped item leaves the list and the counter as they were; a built
    one is appended under the counter's number, which then advances. *)
Lemma build_items_step build item rest acc idx :
  build_items build (item :: rest) acc idx
  = match build idx item with
    | Some r => build_items build rest (acc ++ [r]) (S idx)
    | None => build_items build rest acc idx
    end.
Proof. reflexivity. Qed.

Lemma extract_counted `{External} cls fp md calls records :
  (extract_of cls fp md calls).1 = Ok records -> numbered_from_one records.
Proof.
  intros Hx.
  destruct (extract_inv counted cls fp md calls records) as (idx & _ & Hids);
    auto using counted_start.
  intros ft acc idx item r. apply counted_step.
Qed.

(** C7. Whatever the document, the answers of the model and the items
    dropped on the way, [run] returns a list of records whose identifiers
    are s1, s2, ... up to their number, in order.  The twelve-sentence
    report, with a classifier that keeps every sentence, gives twelve
    records numbered s1 to s12, all of type GUIDANCE. *)
Theorem sentence_ids_sequential :
  (forall (H : External) cls fp md calls,
     exists records,
       (run (extract_of cls fp md) calls).1 = Ok records /\
       numbered_from_one records) /\
  (let W := Demo.world (Ok Demo.report) Demo.echo_llm in
   let candidates := @extract_candidates W ASX_ANNUAL Demo.report in
   let records :=
     match (run (@extract_of W ASXAnnualExtractor Demo.file_path
                   Demo.metadata) 0).1 with
     | Ok records => records
     | Raise _ => []
     end in
   length candidates = 12 /\
   sentence_id <$> records
   = py <$> ["s1"; "s2"; "s3"; "s4"; "s5"; "s6"; "s7"; "s8"; "s9"; "s10";
             "s11"; "s12"]%string /\
   forecast_type <$> records = replicate 12 GUIDANCE /\
   text <$> records = candidates).
Proof.
  split.
  - intros H cls fp md calls. rewrite run_ok.
    destruct (extract_of cls fp md calls).1 as [records|e] eqn:Hx.
    + exists records. split; [done|]. by eapply extract_counted.
    + exists []. split; [done|]. reflexivity.
  - vm_compute. done.
Qed.

End SentenceIdProps.

(** ** The candidate prefilter of the 10-Q extractor *)

Module PrefilterProps.
Import PyStr PyVal Extractors Spec PyStrProps.

Lemma fromkeys_list_elem x l : x ∈ fromkeys_list l <-> x ∈ l.
Proof.
  induction l as [|y l IH]; simpl; [done|].
  rewrite !elem_of_cons, list_elem_of_filter, IH.
  destruct (decide (x = y)); tauto.
Qed.

Lemma fromkeys_list_NoDup l : NoDup (fromkeys_list l).
Proof.
  induction l as [|y l IH]; simpl; constructor.
  - rewrite list_elem_of_filter. tauto.
  - by apply NoDup_filter.
Qed.

Lemma fromkeys_list_sublist l : sublist (fromkeys_list l) l.
Proof.
  induction l as [|y l IH]; simpl; [done|].
  apply sublist_skip. etransitivity; [apply sublist_filter | done].
Qed.

Lemma filter_all {A} (P : A -> Prop) `{!forall x, Decision (P x)} (l : list A) :
  (forall x, P x) -> filter P l = l.
Proof.
  intros HP. induction l as [|x l IH]; [done|].
  by rewrite filter_cons_True, IH.
Qed.

(** The matcher of the keyword processor, as flashtext documents it,
    against the occurrence of a keyword as whole words. *)
Lemma word_char_spec c : Demo.word_char c = true <-> word_character c.
Proof.
  unfold Demo.word_char, word_character, in_range.
  rewrite !orb_true_iff, !andb_true_iff, !N.leb_le, N.eqb_eq. tauto.
Qed.

Lemma occurs_as_word_spec kw after_word s :
  kw <> [] ->
  Demo.occurs_as_word kw after_word s = true <->
  exists pre post,
    s = pre ++ kw ++ post /\
    match last pre with
    | Some c => ~ word_character c
    | None => after_word = false
    end /\
    (forall c, head post = Some c -> ~ word_character c).
Proof.
  intros Hkw. revert after_word. induction s as [|c r IH]; intros aw.
  - simpl. split; [done|]. intros (pre & post & E & _).
    symmetry in E. apply app_eq_nil in E as [_ E].
    apply app_eq_nil in E as [E _]. done.
  - change (Demo.occurs_as_word kw aw (c :: r))
      with ((negb aw && startswith kw (c :: r)
             && match drop (length kw) (c :: r) with
                | [] => true
                | d :: _ => negb (Demo.word_char d)
                end)
            || Demo.occurs_as_word kw (Demo.word_char c) r).
    rewrite orb_true_iff, !andb_true_iff, negb_true_iff, startswith_spec, IH.
    split.
    + intros [[[-> [post E]] Hd] | (pre & post & -> & Hl & Hp)].
      * exists [], post. rewrite E in *. split; [done|]. split; [done|].
        rewrite drop_app_length in Hd. intros d Hd'.
        destruct post; simplify_eq/=. rewrite <- word_char_spec.
        by destruct (Demo.word_char d).
      * exists (c :: pre), post. split; [done|]. split; [|done].
        destruct pre as [|p pre].
        -- simpl in *. rewrite <- word_char_spec. by rewrite Hl.
        -- change (last (c :: p :: pre)) with (last (p :: pre)).
           destruct (last (p :: pre)) eqn:El; [exact Hl|].
           by apply last_None in El.
    + intros (pre & post & E & Hl & Hp). destruct pre as [|p pre].
      * left. simpl in *. split; [split; [done | eauto]|].
        rewrite E, drop_app_length. destruct post as [|d post]; [done|].
        apply negb_true_iff. specialize (Hp d eq_refl).
        rewrite <- word_char_spec in Hp. by destruct (Demo.word_char d).
      * right. simplify_eq/=. exists pre, post. split; [done|].
        split; [|done]. destruct pre as [|q pre].
        -- simpl in *. rewrite <- word_char_spec in Hl.
           by destruct (Demo.word_char p).
        -- change (last (p :: q :: pre)) with (last (q :: pre)) in Hl.
           destruct (last (q :: pre)) eqn:El; [exact Hl|].
           by apply last_None in El.
Qed.

Lemma whole_word_spec kw s :
  kw <> [] -> Demo.occurs_as_word kw false s = true <-> WholeWord kw s.
Proof.
  intros Hkw. rewrite occurs_as_word_spec by done. unfold WholeWord.
  split; intros (pre & post & E & Hl & Hp); exists pre, post;
    (split; [done|]); (split; [|done]).
  - intros c Hc. by rewrite Hc in Hl.
  - destruct (last pre); [by apply Hl | done].
Qed.

Lemma keywords_in_spec table s :
  Forall (fun group => Forall (fun kw => kw <> []) group.2) table ->
  Demo.keywords_in table s <> [] <-> Mentions table s.
Proof.
  intros Hne.
  assert (forall group kw, group ∈ table -> kw ∈ group.2 -> lower kw <> [])
    as Hlow.
  { intros group kw Hg Hkw. rewrite Forall_forall in Hne.
    specialize (Hne group Hg). rewrite Forall_forall in Hne.
    specialize (Hne kw Hkw). by destruct kw. }
  unfold Demo.keywords_in, Mentions. split.
  - intros Hk.
    match type of Hk with ?found <> _ =>
      destruct found as [|g l] eqn:E; [done|] end.
    assert (g ∈ g :: l) as Hg by left. rewrite <- E in Hg.
    apply list_elem_of_bind in Hg as (group & Hg & Hgroup).
    apply list_elem_of_bind in Hg as (kw & _ & Hkw).
    apply list_elem_of_filter in Hkw as [Hocc Hkw].
    exists group, kw. split; [done|]. split; [done|].
    apply whole_word_spec; eauto.
  - intros (group & kw & Hgroup & Hkw & Hw) E.
    assert (group.1 ∈ @nil pystr) as Hin; [|by apply elem_of_nil in Hin].
    rewrite <- E. apply list_elem_of_bind. exists group. split; [|done].
    apply list_elem_of_bind. exists kw. split; [left|].
    apply list_elem_of_filter. split; [|done].
    apply whole_word_spec; eauto.
Qed.

Lemma sec_keywords_nonempty :
  Forall (fun group : pystr * list pystr => Forall (fun kw => kw <> []) group.2)
         SEC_CORE_KEYWORDS.
Proof. apply (bool_decide_unpack _). by vm_compute. Qed.

Lemma demo_processor doc llm s :
  @extract_keywords (Demo.world doc llm) SEC_10Q s <> []
  <-> Mentions SEC_CORE_KEYWORDS s.
Proof. apply (keywords_in_spec SEC_CORE_KEYWORDS), sec_keywords_nonempty. Qed.

Section Prefilter.
Context `{External}.

Lemma sec_candidate_step_spec (cands : list pystr) (seen : gset pystr) sent :
  sec_candidate_step (cands, seen) sent
  = if decide (keep (strip sent) /\ strip sent ∉ seen)
    then (cands ++ [strip sent], {[ strip sent ]} ∪ seen)
    else (cands, seen).
Proof.
  unfold sec_candidate_step, keep. simpl. set (s := strip sent).
  destruct (decide _) as [[(H1 & H2 & H3) H4] | Hn].
  - rewrite !bool_decide_eq_true_2 by done.
    apply Nat.ltb_lt in H2 as ->. done.
  - destruct (bool_decide (s <> [])) eqn:E1; [|done].
    destruct (20 <? length s) eqn:E2; [|done].
    destruct (bool_decide (extract_keywords SEC_10Q s <> [])) eqn:E3; [|done].
    destruct (bool_decide (s ∉ seen)) eqn:E4; [|done].
    apply bool_decide_eq_true in E1, E3, E4. apply Nat.ltb_lt in E2.
    destruct Hn. done.
Qed.

(** The loop with its [seen] set against filtering and keeping first
    occurrences. *)
Lemma sec_loop (sents cands : list pystr) (seen : gset pystr) :
  (forall x, x ∈ seen <-> x ∈ cands) ->
  (foldl sec_candidate_step (cands, seen) sents).1
  = cands ++ filter (fun x => x ∉ cands)
               (fromkeys_list (filter keep (strip <$> sents))).
Proof.
  revert cands seen. induction sents as [|sent sents IH]; intros cands seen Hseen.
  - simpl. by rewrite app_nil_r.
  - simpl foldl. rewrite sec_candidate_step_spec. simpl fmap.
    rewrite filter_cons. set (s := strip sent).
    destruct (decide (keep s)) as [Hk|Hk].
    + simpl fromkeys_list. rewrite filter_cons.
      destruct (decide (s ∉ cands)) as [Hs|Hs].
      * rewrite decide_True by (rewrite Hseen; done).
        rewrite (IH (cands ++ [s]) ({[ s ]} ∪ seen)).
        -- rewrite <- app_assoc. simpl. do 2 f_equal.
           rewrite list_filter_filter. apply list_filter_iff.
           intros x. rewrite elem_of_app, list_elem_of_singleton. tauto.
        -- intros x. rewrite elem_of_union, elem_of_singleton, elem_of_app,
             list_elem_of_singleton, Hseen. tauto.
      * rewrite decide_False by (rewrite Hseen; tauto).
        rewrite (IH cands seen Hseen). f_equal.
        rewrite list_filter_filter. apply list_filter_iff.
        intros x. split; [|tauto]. intros Hx. split; [done|].
        intros ->. by apply Hs.
    + rewrite decide_False by tauto. by apply IH.
Qed.

Lemma sec_candidates_filter sents :
  sec_candidates_of sents = fromkeys_list (filter keep (strip <$> sents)).
Proof.
  unfold sec_candidates_of. rewrite (sec_loop sents [] ∅); [|set_solver].
  simpl. apply filter_all. intros x. apply not_elem_of_nil.
Qed.

(** C9 (amended). The 10-Q prefilter keeps the stripped sentences that are
    not empty, are longer than 20 characters and contain a keyword, each
    once, at its first occurrence and in the order of the text.  With the
    keyword processor of the extractor, which holds [SEC_CORE_KEYWORDS]
    and is not case sensitive, to contain a keyword is to hold a keyword
    of that dictionary as whole words, letters compared without regard to
    case. *)
Theorem sec_prefilter sents :
  sec_candidates_of sents = fromkeys_list (filter keep (strip <$> sents)) /\
  (forall s, s ∈ sec_candidates_of sents <->
             (exists sent, sent ∈ sents /\ s = strip sent) /\
             s <> [] /\ 20 < length s /\ extract_keywords SEC_10Q s <> []) /\
  NoDup (sec_candidates_of sents) /\
  sublist (sec_candidates_of sents) (strip <$> sents) /\
  ((forall s, extract_keywords SEC_10Q s <> [] <-> Mentions SEC_CORE_KEYWORDS s) ->
   forall s, s ∈ sec_candidates_of sents <->
             (exists sent, sent ∈ sents /\ s = strip sent) /\
             s <> [] /\ 20 < length s /\ Mentions SEC_CORE_KEYWORDS s).
Proof.
  rewrite sec_candidates_filter.
  assert (forall s, s ∈ fromkeys_list (filter keep (strip <$> sents)) <->
            (exists sent, sent ∈ sents /\ s = strip sent) /\
            s <> [] /\ 20 < length s /\ extract_keywords SEC_10Q s <> [])
    as Hkept.
  { intros s. rewrite fromkeys_list_elem, list_elem_of_filter, list_elem_of_fmap.
    unfold keep. split.
    - intros [Hk (sent & -> & Hin)]. eauto.
    - intros [(sent & Hin & ->) Hk]. eauto. }
  split; [done|]. split; [exact Hkept|]. split; [|split].
  3: { intros Hprocessor s. rewrite Hkept, Hprocessor. done. }
  all: revert Hkept; intros _.
  1: apply fromkeys_list_NoDup.
  1: etransitivity; [apply fromkeys_list_sublist | apply sublist_filter].
Qed.
End Prefilter.

Lemma sec_prefilter_witness :
  let W := Demo.world (Ok Demo.report) Demo.echo_llm in
  let sents :=
    py <$> [ "  The FDA review is Expected Shortly.  ";
             "FDA approval pending";
             "The fda has cleared the device this week.";
             "The tenderness of the offer was noted.";
             "A near-term milestone was reached today.";
             "The FDA review is Expected Shortly." ]%string in
  (forall s, @extract_keywords W SEC_10Q s <> []
             <-> Mentions SEC_CORE_KEYWORDS s) /\
  @sec_candidates_of W sents
  = py <$> [ "The FDA review is Expected Shortly.";
             "The fda has cleared the device this week.";
             "A near-term milestone was reached today." ]%string /\
  forall s, s ∈ @sec_candidates_of W sents <->
            (exists sent, sent ∈ sents /\ s = strip sent) /\
            s <> [] /\ 20 < length s /\ Mentions SEC_CORE_KEYWORDS s.
Proof.
  intros W sents. split; [apply demo_processor|]. split; [by vm_compute|].
  apply (@sec_prefilter W sents), demo_processor.
Defined.

(** A sentence of exactly 20 characters with a keyword, seen for the first
    time, is left out. *)
Lemma twenty_characters_excluded :
  let W := Demo.world (Ok Demo.report) Demo.echo_llm in
  let s := py "FDA approval pending" in
  strip s = s /\ length s = 20 /\ @extract_keywords W SEC_10Q s <> [] /\
  @sec_candidates_of W [s] = [] /\
  @sec_candidates_of W [py "FDA approval pending."] = [py "FDA approval pending."].
Proof. vm_compute. split_and!; done. Qed.

End PrefilterProps.

(** ** Extraction of the JSON block *)

Module JsonBlockProps.
Import PyStr PyList PyVal BaseExtractor Extractors Spec PyStrProps.

Lemma py_open : py "[" = ["["%char].
Proof. reflexivity. Qed.

Lemma py_close : py "]" = ["]"%char].
Proof. reflexivity. Qed.

Lemma find_char_None c s : find [c] s = None <-> c ∉ s.
Proof.
  induction s as [|b s IH]; simpl.
  - split; [intros _; apply not_elem_of_nil | done].
  - rewrite andb_true_r. case_bool_decide as Hcb.
    + subst. split; [done|]. intros Hn. destruct Hn. left.
    + rewrite not_elem_of_cons, <- IH. destruct (find [c] s); intuition (simplify_eq; eauto).
Qed.

Lemma rfind_char_None c s : rfind [c] s = None <-> c ∉ s.
Proof.
  induction s as [|b s IH]; simpl.
  - split; [intros _; apply not_elem_of_nil | done].
  - rewrite andb_true_r, not_elem_of_cons, <- IH.
    destruct (rfind [c] s); [intuition (simplify_eq; eauto)|].
    case_bool_decide; intuition (simplify_eq; eauto).
Qed.

Lemma find_char_first c pre post :
  c ∉ pre -> find [c] (pre ++ c :: post) = Some (length pre).
Proof.
  induction pre as [|b pre IH]; simpl; intros Hc.
  - by rewrite bool_decide_eq_true_2.
  - apply not_elem_of_cons in Hc as [Hcb Hc].
    rewrite bool_decide_eq_false_2 by done. simpl. by rewrite IH.
Qed.

Lemma rfind_char_last c pre post :
  c ∉ post -> rfind [c] (pre ++ c :: post) = Some (length pre).
Proof.
  intros Hc. induction pre as [|b pre IH]; simpl.
  - apply rfind_char_None in Hc as ->. by rewrite bool_decide_eq_true_2.
  - by rewrite IH.
Qed.

(** Substitution by the empty string adds no character. *)
Lemma sub_from_elem m fuel b s c :
  c ∈ Re.sub_from m [] fuel b s -> c ∈ s.
Proof.
  revert b s. induction fuel as [|fuel IH]; intros b s; simpl; [done|].
  destruct (m b s) as [[|k]|].
  - destruct s as [|a s]; [done|]. rewrite !elem_of_cons. intuition (simplify_eq; eauto).
  - intros Hc%IH. destruct s as [|a s]; [by apply elem_of_nil in Hc|].
    apply elem_of_cons. right. simpl in Hc.
    eapply (sublist_subseteq (drop k s)); [apply sublist_drop | done].
  - destruct s as [|a s]; [done|]. rewrite !elem_of_cons. intuition (simplify_eq; eauto).
Qed.

Lemma cleaned_elem text c :
  c ∈ Re.sub Re.fence [] (strip text) -> c ∈ text.
Proof. intros Hc%sub_from_elem. by apply strip_elem. Qed.

(** A response without an opening or without a closing bracket has no
    block. *)
Lemma no_bracket_no_block text :
  "["%char ∉ text \/ "]"%char ∉ text -> extract_json_block text = None.
Proof.
  intros Hno. unfold extract_json_block. destruct text as [|a text]; [done|].
  set (cleaned := Re.sub Re.fence [] (strip (a :: text))).
  rewrite py_open, py_close. destruct Hno as [Hno|Hno].
  - assert (find ["["%char] cleaned = None) as ->; [|done].
    apply find_char_None. intros Hc. by apply Hno, cleaned_elem.
  - assert (rfind ["]"%char] cleaned = None) as ->;
      [|by destruct (find _ cleaned)].
    apply rfind_char_None. intros Hc. by apply Hno, cleaned_elem.
Qed.

(** Such a response gives the batch no item and the loop moves on. *)
Lemma batch_without_block `{External} ft build skip batch rest acc idx calls
    resp calls' :
  (skip && bool_decide (batch = [])) = false ->
  ask_llm (prompt_pass2 ft (numbered batch)) calls = (Ok resp, calls') ->
  extract_json_block resp = None ->
  process_batches ft build skip (batch :: rest) acc idx calls
  = process_batches ft build skip rest acc idx calls'.
Proof.
  intros Hskip Hask Hblock. simpl. rewrite Hskip.
  unfold mbind at 1, M_bind at 1. by rewrite Hask, Hblock.
Qed.


(** *** The scanner *)

Section Scanner.
Variable m : Re.matcher.
Variable repl : pystr.
Hypothesis m_nil : forall b, m b [] = None.

Lemma sub_from_nil fuel b : Re.sub_from m repl fuel b [] = [].
Proof. destruct fuel; simpl; [done|]. by rewrite m_nil. Qed.

(** More fuel than characters is as good as any. *)
Lemma sub_from_fuel f1 f2 b s :
  length s < f1 -> length s < f2 ->
  Re.sub_from m repl f1 b s = Re.sub_from m repl f2 b s.
Proof.
  revert f2 b s. induction f1 as [|f1 IH]; intros [|f2] b s H1 H2; try lia.
  destruct s as [|c r]; [by rewrite !sub_from_nil|].
  simpl in *. destruct (m b (c :: r)) as [[|k]|].
  - f_equal. apply IH; lia.
  - f_equal. simpl. pose proof (length_drop r k). apply IH; lia.
  - f_equal. apply IH; lia.
Qed.

Lemma sub_from_cons fuel b c r :
  length (c :: r) < fuel ->
  Re.sub_from m repl fuel b (c :: r)
  = match m b (c :: r) with
    | Some (S k) => repl ++ Re.sub_from m repl fuel false (drop k r)
    | _ => c :: Re.sub_from m repl fuel false r
    end.
Proof.
  intros Hlen. destruct fuel as [|fuel]; [simpl in Hlen; lia|].
  simpl in Hlen. change (Re.sub_from m repl (S fuel) b (c :: r)) with
    (match m b (c :: r) with
     | Some (S k) => repl ++ Re.sub_from m repl fuel false (drop k r)
     | _ => c :: Re.sub_from m repl fuel false r
     end).
  pose proof (length_drop r).
  destruct (m b (c :: r)) as [[|k]|]; f_equal; apply sub_from_fuel;
    rewrite ?length_drop; lia.
Qed.
Lemma sub_from_match fuel b s k :
  length s < fuel -> m b s = Some (S k) ->
  Re.sub_from m repl fuel b s
  = repl ++ Re.sub_from m repl fuel false (drop (S k) s).
Proof.
  intros Hlen Hm. destruct s as [|c r]; [by rewrite m_nil in Hm|].
  by rewrite sub_from_cons, Hm.
Qed.
End Scanner.

Lemma fence_nil b : Re.fence b [] = None.
Proof. by destruct b. Qed.

Lemma comma_closer_nil cl b : Re.comma_closer cl b [] = None.
Proof. done. Qed.


(** *** Trailing commas *)

Lemma closer_facts cl :
  cl ∈ closers -> cl <> ","%char /\ is_space cl = false.
Proof.
  unfold closers. rewrite !elem_of_cons, elem_of_nil.
  intros [->|[->|[]]]; done.
Qed.

Lemma space_not_comma c : is_space c = true -> c <> ","%char.
Proof. by intros Hc ->. Qed.

Lemma CommaBeforeCloser_cons c s :
  CommaBeforeCloser s -> CommaBeforeCloser (c :: s).
Proof.
  intros (pre & ws & cl & post & -> & Hws & Hcl).
  by exists (c :: pre), ws, cl, post.
Qed.

Lemma comma_closer_other cl b c r :
  c <> ","%char -> Re.comma_closer cl b (c :: r) = None.
Proof. intros Hc. simpl. by rewrite bool_decide_eq_false_2. Qed.

Lemma comma_closer_comma cl b ws d rest :
  spaces ws -> is_space d = false ->
  Re.comma_closer cl b (","%char :: ws ++ d :: rest)
  = if bool_decide (d = cl) then Some (S (length ws + 1)) else None.
Proof.
  intros Hws Hd. simpl.
  rewrite lstrip_app_space, lstrip_cons_nonspace by done.
  case_bool_decide; [|done]. do 2 f_equal.
  rewrite length_app. simpl. lia.
Qed.

Lemma comma_closer_start cl b s :
  Re.comma_closer cl b s = Re.comma_closer cl false s.
Proof. done. Qed.

Lemma sub_comma_start cl fuel b s :
  Re.sub_from (Re.comma_closer cl) [cl] fuel b s
  = Re.sub_from (Re.comma_closer cl) [cl] fuel false s.
Proof. by destruct fuel. Qed.

(** Characters other than commas are copied. *)
Lemma sub_comma_skip cl fuel pre rest :
  Forall (fun c => c <> ","%char) pre ->
  length (pre ++ rest) < fuel ->
  Re.sub_from (Re.comma_closer cl) [cl] fuel false (pre ++ rest)
  = pre ++ Re.sub_from (Re.comma_closer cl) [cl] fuel false rest.
Proof.
  induction 1 as [|c pre Hc _ IH]; intros Hlen; [done|].
  simpl app. rewrite sub_from_cons by done.
  rewrite comma_closer_other by done. f_equal. apply IH. simpl in Hlen. lia.
Qed.

Lemma tc_leading cs clean ws d rest :
  TrailingCommas cs clean (ws ++ d :: rest) ->
  spaces ws -> d <> ","%char ->
  exists clean', clean = ws ++ d :: clean'.
Proof.
  intros Htc Hws Hd. revert clean Htc.
  induction Hws as [|w ws Hw _ IH]; intros clean Htc; simpl in Htc.
  - inversion Htc; subst; [eauto | done].
  - inversion Htc as [|c clean1 messy1 Htc1|]; subst.
    + destruct (IH _ Htc1) as [clean' ->]. eauto.
    + by apply space_not_comma in Hw.
Qed.

Lemma tc_length cs clean messy :
  TrailingCommas cs clean messy -> length clean <= length messy.
Proof.
  induction 1; simpl; rewrite ?length_app; simpl; lia.
Qed.

(** One substitution takes out the commas put before one closing
    character. *)
Lemma comma_pass cl cs clean messy fuel b :
  cl ∈ closers -> (forall c, c ∈ cs -> c ∈ closers) ->
  TrailingCommas cs clean messy ->
  ~ CommaBeforeCloser clean ->
  length messy < fuel ->
  TrailingCommas (filter (fun c => c <> cl) cs) clean
    (Re.sub_from (Re.comma_closer cl) [cl] fuel b messy).
Proof.
  intros Hcl Hcs Htc. revert b.
  induction Htc as [|c clean messy Htc IH|closer ws clean messy Hin Hws Htc IH];
    intros b Hfree Hlen.
  - rewrite sub_from_nil by done. constructor.
  - rewrite sub_from_cons by done.
    assert (Re.comma_closer cl b (c :: messy) = None) as ->.
    { destruct (decide (c = ","%char)) as [->|Hc];
        [|by apply comma_closer_other].
      simpl. destruct (lstrip messy) as [|d rest] eqn:Hl; [done|].
      case_bool_decide as Hd; [subst d|done].
      destruct (lstrip_sublist messy) as (ws & Hm & Hws). rewrite Hl in Hm.
      rewrite Hm in Htc. destruct (closer_facts cl Hcl) as [Hne _].
      destruct (tc_leading _ _ _ _ _ Htc Hws Hne) as [clean' ->].
      destruct Hfree. by exists [], ws, cl, clean'. }
    constructor. apply IH; [|simpl in Hlen; lia].
    intros Hc. by apply Hfree, CommaBeforeCloser_cons.
  - destruct (closer_facts closer (Hcs _ Hin)) as [Hne Hns].
    rewrite sub_from_cons by done.
    rewrite comma_closer_comma by done.
    assert (length messy < fuel) as Hlen'.
    { simpl in Hlen. rewrite length_app in Hlen. simpl in Hlen. lia. }
    assert (~ CommaBeforeCloser clean) as Hfree'.
    { intros Hc. by apply Hfree, CommaBeforeCloser_cons. }
    case_bool_decide as Hd.
    + subst closer.
      replace (drop (length ws + 1) (ws ++ cl :: messy)) with messy.
      * simpl. constructor. by apply IH.
      * rewrite <- drop_drop, drop_app_length. done.
    + replace (ws ++ closer :: messy) with ((ws ++ [closer]) ++ messy)
        by (by rewrite <- app_assoc).
      rewrite sub_comma_skip.
      * rewrite <- app_assoc. simpl. constructor; [|done|by apply IH].
        apply list_elem_of_filter. done.
      * apply Forall_app. split; [|by repeat constructor].
        eapply Forall_impl; [done|]. intros w. apply space_not_comma.
      * rewrite <- app_assoc. simpl in *. lia.
Qed.

Lemma tc_no_closer clean messy : TrailingCommas [] clean messy -> messy = clean.
Proof.
  induction 1 as [| |closer ? ? ? Hin]; [done | congruence |].
  by apply elem_of_nil in Hin.
Qed.

(** The two substitutions of [_extract_json_block] undo the commas. *)
Lemma commas_repaired clean messy :
  TrailingCommas closers clean messy -> ~ CommaBeforeCloser clean ->
  Re.sub (Re.comma_closer "]") (py "]")
    (Re.sub (Re.comma_closer "}") (py "}") messy) = clean.
Proof.
  intros Htc Hfree. unfold Re.sub.
  assert ("}"%char ∈ closers /\ "]"%char ∈ closers) as [H1 H2].
  { unfold closers. split; set_solver. }
  pose proof (comma_pass "}" closers clean messy (S (length messy)) true
                H1 (fun c Hc => Hc) Htc Hfree ltac:(lia)) as Hp1.
  set (m1 := Re.sub_from (Re.comma_closer "}") (py "}") (S (length messy)) true messy) in *.
  pose proof (comma_pass "]" _ clean m1 (S (length m1)) true
                H2 ltac:(intros c [_ Hc]%list_elem_of_filter; done) Hp1 Hfree
                ltac:(lia)) as Hp2.
  by apply tc_no_closer in Hp2.
Qed.


Lemma tc_refl cs s : TrailingCommas cs s s.
Proof. induction s; by constructor. Qed.

Lemma tc_nil_inv cs messy : TrailingCommas cs [] messy -> messy = [].
Proof. by inversion 1. Qed.

Lemma tc_snoc cs clean e messy :
  TrailingCommas cs (clean ++ [e]) messy -> exists m, messy = m ++ [e].
Proof.
  revert messy. induction clean as [|c clean IH]; intros messy Htc;
    simpl in Htc; inversion Htc as [|? ? m1 Htc1|? ws ? m1 ? ? Htc1]; subst.
  - apply tc_nil_inv in Htc1 as ->. by exists [].
  - apply tc_nil_inv in Htc1 as ->. exists (","%char :: ws). done.
  - destruct (IH _ Htc1) as [m ->]. by exists (c :: m).
  - destruct (IH _ Htc1) as [m ->]. exists (","%char :: ws ++ c :: m).
    simpl. by rewrite <- app_assoc.
Qed.

Lemma tc_array cs body messy :
  (forall c, c ∈ cs -> c ∈ closers) ->
  TrailingCommas cs ("["%char :: body ++ ["]"%char]) messy ->
  exists m, messy = "["%char :: m ++ ["]"%char].
Proof.
  intros Hcs Htc. inversion Htc as [|? ? m1 Htc1|? ? ? ? Hin]; subst.
  - destruct (tc_snoc _ _ _ _ Htc1) as [m ->]. eauto.
  - apply Hcs in Hin. unfold closers in Hin.
    rewrite !elem_of_cons, elem_of_nil in Hin. by destruct Hin as [|[|]].
Qed.

(** *** Code fences *)

Lemma py_fence : py "```" = ["`"; "`"; "`"]%char.
Proof. reflexivity. Qed.

Lemma fence_tail_none c s e :
  e <> "`"%char -> e <> ascii_of_nat 10 ->
  Re.fence false (c :: s ++ [e]) = None.
Proof.
  intros He1 He2. unfold Re.fence, Re.at_end. rewrite py_fence. simpl andb.
  destruct s as [|a [|a2 s]]; simpl.
  - by rewrite bool_decide_eq_false_2.
  - case_bool_decide as Ht; [|done]. injection Ht as -> -> ->. done.
  - rewrite (bool_decide_eq_false_2 (s ++ [e] = [])) by (by destruct s).
    rewrite (bool_decide_eq_false_2 (s ++ [e] = [_])).
    + by rewrite andb_false_r.
    + destruct s as [|? [|]]; simpl; congruence.
Qed.

Lemma fence_single e : Re.fence false [e] = None.
Proof.
  unfold Re.fence. rewrite py_fence. simpl.
  by rewrite bool_decide_eq_false_2.
Qed.

(** Text that ends neither with a backquote nor with a line feed is left
    as it is. *)
Lemma sub_fence_id fuel s e :
  e <> "`"%char -> e <> ascii_of_nat 10 ->
  length (s ++ [e]) < fuel ->
  Re.sub_from Re.fence [] fuel false (s ++ [e]) = s ++ [e].
Proof.
  intros He1 He2. induction s as [|c s IH]; intros Hlen; simpl app.
  - rewrite sub_from_cons by (done || apply fence_nil).
    rewrite fence_single. by rewrite sub_from_nil by apply fence_nil.
  - rewrite sub_from_cons by (done || apply fence_nil).
    rewrite fence_tail_none by done. f_equal. apply IH.
    simpl in Hlen. lia.
Qed.

Lemma fence_closing_none c s :
  Re.fence false (c :: s ++ py "```") = None.
Proof.
  rewrite py_fence.
  replace (s ++ ["`"; "`"; "`"]%char) with ((s ++ ["`"; "`"]%char) ++ ["`"%char])
    by (by rewrite <- app_assoc).
  unfold Re.fence, Re.at_end. rewrite py_fence. simpl andb.
  destruct (s ++ ["`"; "`"]%char) as [|a [|a2 t]] eqn:Hs; simpl.
  - by destruct s.
  - by destruct s as [|? [|]].
  - rewrite (bool_decide_eq_false_2 (t ++ ["`"%char] = [])) by (by destruct t).
    rewrite (bool_decide_eq_false_2 (t ++ ["`"%char] = [_])).
    + by rewrite andb_false_r.
    + destruct t as [|? [|]]; intros E; vm_compute in E; discriminate.
Qed.

(** The closing fence goes and what stands before it stays. *)
Lemma sub_fence_closing fuel s :
  length s + 3 < fuel ->
  Re.sub_from Re.fence [] fuel false (s ++ py "```") = s.
Proof.
  induction s as [|c s IH]; intros Hlen; simpl app.
  - change (py "```") with ("`"%char :: ["`"; "`"]%char).
    rewrite sub_from_cons by (simpl; lia || apply fence_nil).
    simpl. by rewrite sub_from_nil by apply fence_nil.
  - rewrite sub_from_cons
      by (apply fence_nil || (simpl; rewrite length_app; simpl in *; lia)).
    rewrite fence_closing_none. f_equal. apply IH. simpl in Hlen. lia.
Qed.

Lemma lower_length s : length (lower s) = length s.
Proof. apply length_fmap. Qed.

(** An opening fence in any case, a body, a closing fence: the body is
    left. *)
Lemma sub_fence_wrapped tag body :
  lower tag = py "```json" ->
  Re.sub Re.fence [] (tag ++ body ++ py "```") = body.
Proof.
  intros Htag. pose proof (lower_length tag) as Hlen. rewrite Htag in Hlen.
  change (length (py "```json")) with 7 in Hlen.
  assert (Re.fence true (tag ++ body ++ py "```") = Some 7) as Hm.
  { unfold Re.fence. cbn [andb].
    by rewrite take_app_length', (bool_decide_eq_true_2 _ Htag). }
  unfold Re.sub.
  erewrite sub_from_match; [|apply fence_nil|lia|exact Hm].
  rewrite drop_app_length', app_nil_l by done.
  apply sub_fence_closing. rewrite !length_app. simpl. lia.
Qed.

Lemma sub_fence_array body :
  Re.sub Re.fence [] ("["%char :: body ++ ["]"%char])
  = "["%char :: body ++ ["]"%char].
Proof.
  unfold Re.sub. rewrite sub_from_cons by (lia || apply fence_nil).
  assert (Re.fence true ("["%char :: body ++ ["]"%char]) = None) as ->.
  { rewrite <- (fence_tail_none "["%char body "]"%char) by done.
    unfold Re.fence. cbn [andb].
    rewrite (bool_decide_eq_false_2 (lower _ = _)); [done|].
    simpl. discriminate. }
  f_equal. apply sub_fence_id; try done. simpl. lia.
Qed.


(** *** The block *)

Lemma strip_ends c s e :
  is_space c = false -> is_space e = false ->
  strip (c :: s ++ [e]) = c :: s ++ [e].
Proof.
  intros Hc He. unfold strip. rewrite lstrip_cons_nonspace by done.
  by apply (rstrip_snoc_nonspace (c :: s)).
Qed.

Lemma space_not_elem c ws : is_space c = false -> spaces ws -> c ∉ ws.
Proof.
  intros Hc Hws Hin. unfold spaces in Hws. rewrite Forall_forall in Hws.
  apply Hws in Hin. congruence.
Qed.

Lemma comma_before_closer_spec s :
  comma_before_closer s = true <-> CommaBeforeCloser s.
Proof.
  split.
  - induction s as [|c r IH]; simpl; [done|].
    intros [[Hc Hd]%andb_true_iff | Hr]%orb_true_iff.
    + apply bool_decide_eq_true in Hc as ->.
      destruct (lstrip_sublist r) as (ws & Hr & Hws).
      destruct (lstrip r) as [|d rest]; [done|].
      apply bool_decide_eq_true in Hd. exists [], ws, d, rest.
      by rewrite Hr at 1.
    + by apply CommaBeforeCloser_cons, IH.
  - intros (pre & ws & cl & post & -> & Hws & Hcl).
    induction pre as [|c pre IH]; simpl.
    + destruct (closer_facts cl Hcl) as [_ Hs].
      rewrite lstrip_app_space, lstrip_cons_nonspace by done.
      by rewrite !bool_decide_eq_true_2.
    + rewrite IH. apply orb_true_r.
Qed.

Lemma slice_middle {A} (pre mid post : list A) :
  slice (pre ++ mid ++ post) (length pre) (length pre + length mid) = mid.
Proof.
  unfold slice. rewrite drop_app_length.
  replace (length pre + length mid - length pre) with (length mid) by lia.
  apply take_app_length.
Qed.

(** What [_extract_json_block] returns once the text is stripped and the
    fences are gone: the array between white space, repaired. *)
Lemma extract_json_block_cleaned text ws1 m ws2 :
  text <> [] ->
  Re.sub Re.fence [] (strip text) = ws1 ++ "["%char :: m ++ "]"%char :: ws2 ->
  spaces ws1 -> spaces ws2 ->
  extract_json_block text
  = Some (Re.sub (Re.comma_closer "]") (py "]")
            (Re.sub (Re.comma_closer "}") (py "}")
               ("["%char :: m ++ ["]"%char]))).
Proof.
  intros Hne Hcl Hws1 Hws2. unfold extract_json_block.
  destruct text as [|a text]; [done|]. rewrite Hcl, py_open, py_close.
  rewrite (find_char_first "["%char ws1) by (by apply space_not_elem).
  assert (rfind ["]"%char] (ws1 ++ "["%char :: m ++ "]"%char :: ws2)
          = Some (length ws1 + S (length m))) as ->.
  { replace (ws1 ++ "["%char :: m ++ "]"%char :: ws2)
      with ((ws1 ++ "["%char :: m) ++ "]"%char :: ws2)
      by (by rewrite <- app_assoc).
    rewrite rfind_char_last by (by apply space_not_elem).
    by rewrite length_app. }
  do 3 f_equal.
  replace (ws1 ++ "["%char :: m ++ "]"%char :: ws2)
    with (ws1 ++ ("["%char :: m ++ ["]"%char]) ++ ws2)
    by (simpl; by rewrite <- app_assoc).
  replace (length ws1 + S (length m) + 1)
    with (length ws1 + length ("["%char :: m ++ ["]"%char]))
    by (simpl; rewrite length_app; simpl; lia).
  apply slice_middle.
Qed.

Lemma fence_tag_head tag :
  lower tag = py "```json" ->
  exists t rest, tag = t :: rest /\ is_space t = false.
Proof.
  destruct tag as [|t rest]; [done|]. intros [= Ht _]. exists t, rest.
  split; [done|]. by destruct t as [[] [] [] [] [] [] [] []].
Qed.

Lemma extract_fenced tag ws1 m ws2 :
  lower tag = py "```json" -> spaces ws1 -> spaces ws2 ->
  extract_json_block
    (tag ++ ws1 ++ ("["%char :: m ++ ["]"%char]) ++ ws2 ++ py "```")
  = Some (Re.sub (Re.comma_closer "]") (py "]")
            (Re.sub (Re.comma_closer "}") (py "}")
               ("["%char :: m ++ ["]"%char]))).
Proof.
  intros Htag Hws1 Hws2.
  destruct (fence_tag_head tag Htag) as (t & rest & Et & Hs).
  apply (extract_json_block_cleaned _ ws1 m ws2); [by rewrite Et | | done..].
  set (body := ws1 ++ "["%char :: m ++ "]"%char :: ws2).
  replace (tag ++ ws1 ++ ("["%char :: m ++ ["]"%char]) ++ ws2 ++ py "```")
    with (tag ++ body ++ py "```")
    by (unfold body; rewrite <- ?app_assoc; simpl;
        by rewrite <- ?app_assoc).
  rewrite <- (sub_fence_wrapped tag body Htag) at 2. f_equal.
  rewrite Et, py_fence.
  replace ((t :: rest) ++ body ++ ["`"; "`"; "`"]%char)
    with (t :: (rest ++ body ++ ["`"; "`"]%char) ++ ["`"%char])
    by (simpl; by rewrite <- !app_assoc).
  by apply strip_ends.
Qed.

Lemma extract_bare m :
  extract_json_block ("["%char :: m ++ ["]"%char])
  = Some (Re.sub (Re.comma_closer "]") (py "]")
            (Re.sub (Re.comma_closer "}") (py "}")
               ("["%char :: m ++ ["]"%char]))).
Proof.
  apply (extract_json_block_cleaned _ [] m []); try done; try constructor.
  rewrite strip_ends by done. by rewrite sub_fence_array.
Qed.


(** C3 (amended). (a) A response in which no opening bracket or no closing
    bracket occurs has no block: the batch gets the empty item list and
    nothing is raised.  (b) Take the text of an array, from its opening to
    its closing bracket, in which no comma is followed, white space apart,
    by a closing bracket or brace (in valid JSON such a comma can only
    stand inside a string).  Put commas, with or without white space, in
    front of any of its closing brackets and braces, and wrap the result
    or not in a json code fence, whatever the case of the tag: the block
    extracted is the clean text, so what is parsed is what the clean text
    parses to. *)
Theorem json_block_extraction `{External} :
  (forall text,
     "["%char ∉ text \/ "]"%char ∉ text ->
     extract_json_block text = None /\
     items_or_empty (safe_json_load (extract_json_block text)) = JArr [] /\
     iterate (items_or_empty (safe_json_load (extract_json_block text)))
     = Some []) /\
  (forall body messy tag ws1 ws2,
     let clean := "["%char :: body ++ ["]"%char] in
     let fenced := tag ++ ws1 ++ messy ++ ws2 ++ py "```" in
     ~ CommaBeforeCloser clean ->
     TrailingCommas closers clean messy ->
     lower tag = py "```json" -> spaces ws1 -> spaces ws2 ->
     extract_json_block fenced = Some clean /\
     extract_json_block messy = Some clean /\
     extract_json_block clean = Some clean /\
     safe_json_load (extract_json_block fenced) = json_loads clean /\
     safe_json_load (extract_json_block messy) = json_loads clean /\
     safe_json_load (extract_json_block clean) = json_loads clean).
Proof.
  split.
  - intros text Hno. rewrite (no_bracket_no_block text Hno). done.
  - intros body messy tag ws1 ws2 clean fenced Hfree Htc Htag Hws1 Hws2.
    destruct (tc_array closers body messy (fun c Hc => Hc) Htc) as [m Hm].
    assert (extract_json_block fenced = Some clean) as E1.
    { unfold fenced. rewrite Hm, extract_fenced by done.
      f_equal. rewrite <- Hm. by apply commas_repaired. }
    assert (extract_json_block messy = Some clean) as E2.
    { rewrite Hm, extract_bare. f_equal. rewrite <- Hm.
      by apply commas_repaired. }
    assert (extract_json_block clean = Some clean) as E3.
    { unfold clean. rewrite extract_bare. f_equal.
      apply commas_repaired; [apply tc_refl | done]. }
    rewrite E1, E2, E3. done.
Qed.

Lemma json_block_extraction_witness :
  let W := Demo.world (Ok Demo.report) Demo.echo_llm in
  let key := Demo.quoted (py "a") in
  let clean := py "[{" ++ key ++ py ": 1}, 2]" in
  let messy := py "[{" ++ key ++ py ": 1, }, 2,]" in
  let fenced := py "```JSON" ++ [Demo.newline] ++ messy ++ [Demo.newline]
                ++ py "```" in
  @safe_json_load W (extract_json_block fenced)
  = Some (JArr [JObj [(py "a", JInt 1)]; JInt 2]) /\
  @safe_json_load W (extract_json_block fenced)
  = @safe_json_load W (extract_json_block clean).
Proof.
  intros W key clean messy fenced.
  destruct (@json_block_extraction W) as [_ Hb].
  destruct (Hb (py "{" ++ key ++ py ": 1}, 2") messy (py "```JSON")
              [Demo.newline] [Demo.newline]) as (_ & _ & _ & E1 & _ & E3).
  - intros Hc%comma_before_closer_spec. vm_compute in Hc. discriminate.
  - vm_compute.
    repeat first
      [ apply tc_nil
      | apply tc_keep
      | apply (tc_comma closers _ []); [set_solver | constructor |]
      | apply (tc_comma closers _ [" "%char]);
          [set_solver | by repeat constructor |] ].
  - reflexivity.
  - by repeat constructor.
  - by repeat constructor.
  - split.
    + etransitivity; [exact E1|]. vm_compute. reflexivity.
    + etransitivity; [exact E1|]. symmetry. exact E3.
Defined.

(** A comma that a string holds before a bracket is taken out as well: the
    array parsed is not the one that was sent. *)
Lemma comma_inside_string_rewritten :
  let W := Demo.world (Ok Demo.report) Demo.echo_llm in
  let clean := py "[" ++ Demo.quoted (py "Phase [1, 2,] review") ++ py "]" in
  let fenced := py "```json" ++ [Demo.newline] ++ clean ++ [Demo.newline]
                ++ py "```" in
  @json_loads W clean = Some (JArr [JStr (py "Phase [1, 2,] review")]) /\
  @safe_json_load W (extract_json_block fenced)
  = Some (JArr [JStr (py "Phase [1, 2] review")]) /\
  @safe_json_load W (extract_json_block fenced) <> @json_loads W clean.
Proof. vm_compute. split_and!; done. Qed.

End JsonBlockProps.

(** ** Retries and the invocation of the model *)

Module RetryProps.
Import BaseExtractor Extractors Dispatch Shape.

(** The attempts of [_retry_call], one by one. *)
Lemma retry_call_spec {R} (fn : nat -> option R) retries calls :
  match retry_call fn retries calls with
  | (Ok (Some r), calls') =>
      exists k, k < retries /\ calls' = calls + k + 1 /\
                fn (calls + k) = Some r /\
                forall j, j < k -> fn (calls + j) = None
  | (Ok None, calls') => retries = 0 /\ calls' = calls
  | (Raise e, calls') =>
      e = OtherError /\ 0 < retries /\ calls' = calls + retries /\
      forall j, j < retries -> fn (calls + j) = None
  end.
Proof.
  revert calls. induction retries as [|k IH]; intros calls; simpl; [done|].
  destruct (fn calls) as [r|] eqn:Hf.
  - exists 0. rewrite Nat.add_0_r. split_and!; [lia|lia|done|lia].
  - destruct k as [|k'].
    + split_and!; [done|lia|lia|]. intros j Hj.
      replace j with 0 by lia. by rewrite Nat.add_0_r.
    + specialize (IH (S calls)).
      destruct (retry_call fn (S k') (S calls)) as [[[r|]|e] calls'].
      * destruct IH as (i & Hi & -> & Hr & Hnone). exists (S i).
        split_and!; [lia|lia|by rewrite <- Nat.add_succ_comm|].
        intros j Hj. destruct j as [|j]; [by rewrite Nat.add_0_r|].
        rewrite <- Nat.add_succ_comm. apply Hnone. lia.
      * destruct IH as [? _]. lia.
      * destruct IH as (-> & _ & -> & Hnone). split_and!; [done|lia|lia|].
        intros j Hj. destruct j as [|j]; [by rewrite Nat.add_0_r|].
        rewrite <- Nat.add_succ_comm. apply Hnone. lia.
Qed.

(** X1. [_retry_call] tries [fn] until it succeeds, at most [retries]
    times: a result comes from the first attempt that succeeds, after
    which no further attempt is made; the call raises exactly when all
    [retries] attempts fail, having made that many; and with no retry
    allowed it returns [None] without trying. *)
Theorem retry_call_attempts {R} (fn : nat -> option R) retries calls :
  match retry_call fn retries calls with
  | (Ok (Some r), calls') =>
      exists k, k < retries /\ calls' = calls + k + 1 /\
                fn (calls + k) = Some r /\
                forall j, j < k -> fn (calls + j) = None
  | (Ok None, calls') => retries = 0 /\ calls' = calls
  | (Raise e, calls') =>
      e = OtherError /\ 0 < retries /\ calls' = calls + retries /\
      forall j, j < retries -> fn (calls + j) = None
  end.
Proof. apply retry_call_spec. Qed.

(** The text [_ask_llm] makes of an answer. *)
Lemma ask_llm_unfold `{External} prompt calls :
  ask_llm prompt calls
  = match retry_call (fun c => llm_invoke c prompt) 3 calls with
    | (Ok (Some r), calls') =>
        (Ok (if bool_decide (content r = []) then as_str r else content r),
         calls')
    | (Ok None, calls') => (Ok (py "None"), calls')
    | (Raise _, calls') => (Raise ExtractionError, calls')
    end.
Proof.
  unfold ask_llm, reraise_as, mbind, M_bind.
  destruct (retry_call _ 3 calls) as [[[r|]|e] calls']; try done.
  by destruct (bool_decide (content r = [])).
Qed.

Lemma ask_llm_spec `{External} prompt calls :
  match ask_llm prompt calls with
  | (Ok text, calls') =>
      exists k r,
        k < 3 /\ calls' = calls + k + 1 /\
        llm_invoke (calls + k) prompt = Some r /\
        (forall j, j < k -> llm_invoke (calls + j) prompt = None) /\
        text = (if bool_decide (content r = []) then as_str r else content r)
  | (Raise e, calls') =>
      e = ExtractionError /\ calls' = calls + 3 /\
      forall j, j < 3 -> llm_invoke (calls + j) prompt = None
  end.
Proof.
  rewrite ask_llm_unfold.
  pose proof (retry_call_spec (fun c => llm_invoke c prompt) 3 calls) as Hr.
  destruct (retry_call _ 3 calls) as [[[r|]|e] calls'].
  - destruct Hr as (k & Hk & -> & Hs & Hnone). exists k, r. done.
  - destruct Hr as [? _]. lia.
  - destruct Hr as (_ & _ & -> & Hnone). done.
Qed.

(** X2. [_ask_llm] invokes the model between one and three times.  It
    returns the content of the first answer it gets, or the answer printed
    as a string when the content is empty, and stops there; it raises
    ExtractionError, and nothing else, exactly when three invocations in a
    row fail. *)
Theorem ask_llm_outcome `{External} prompt calls :
  match ask_llm prompt calls with
  | (Ok text, calls') =>
      exists k r,
        k < 3 /\ calls' = calls + k + 1 /\
        llm_invoke (calls + k) prompt = Some r /\
        (forall j, j < k -> llm_invoke (calls + j) prompt = None) /\
        text = (if bool_decide (content r = []) then as_str r else content r)
  | (Raise e, calls') =>
      e = ExtractionError /\ calls' = calls + 3 /\
      forall j, j < 3 -> llm_invoke (calls + j) prompt = None
  end.
Proof. apply ask_llm_spec. Qed.

Lemma ask_llm_calls `{External} prompt calls :
  calls < (ask_llm prompt calls).2 <= calls + 3.
Proof.
  pose proof (ask_llm_spec prompt calls) as Ho.
  destruct (ask_llm prompt calls) as [[text|e] calls']; simpl.
  - destruct Ho as (k & r & Hk & -> & _). lia.
  - destruct Ho as (_ & -> & _). lia.
Qed.

End RetryProps.

(** ** The batch loop: cost, composition and failures *)

Module BatchLoopProps.
Import PyStr PyList PyVal BaseExtractor Extractors Dispatch Shape.
Import BatcherProps PyStrProps RetryProps RunProps.

(** One turn of the loop. *)
Lemma process_batches_cons `{External} ft build skip batch rest acc idx calls :
  process_batches ft build skip (batch :: rest) acc idx calls
  = if skip && bool_decide (batch = [])
    then process_batches ft build skip rest acc idx calls
    else
      match ask_llm (prompt_pass2 ft (numbered batch)) calls with
      | (Ok resp, calls') =>
          match iterate (items_or_empty
                           (safe_json_load (extract_json_block resp))) with
          | Some l =>
              process_batches ft build skip rest
                (build_items build l acc idx).1
                (build_items build l acc idx).2 calls'
          | None => (Raise OtherError, calls')
          end
      | (Raise e, calls') => (Raise e, calls')
      end.
Proof.
  simpl. destruct (skip && bool_decide (batch = [])); [done|].
  unfold mbind at 1, M_bind at 1.
  destruct (ask_llm _ calls) as [[resp|e] calls']; [|done].
  destruct (iterate _) as [l|]; [|done].
  by destruct (build_items build l acc idx).
Qed.

Lemma build_items_counter build items acc idx :
  idx = S (length acc) ->
  (build_items build items acc idx).2
  = S (length (build_items build items acc idx).1).
Proof.
  revert acc idx.
  induction items as [|item items IH]; intros acc idx ->; simpl; [done|].
  destruct (build _ item); apply IH; [|done].
  rewrite length_app. simpl. lia.
Qed.

Lemma process_batches_calls `{External} ft build skip batches acc idx calls :
  calls <= (process_batches ft build skip batches acc idx calls).2
        <= calls + 3 * length batches.
Proof.
  revert acc idx calls.
  induction batches as [|batch batches IH]; intros acc idx calls.
  - simpl. lia.
  - rewrite process_batches_cons.
    destruct (skip && bool_decide (batch = [])).
    + specialize (IH acc idx calls). simpl length. lia.
    + pose proof (ask_llm_calls (prompt_pass2 ft (numbered batch)) calls) as Ha.
      destruct (ask_llm _ calls) as [[resp|e] calls']; simpl in Ha.
      * destruct (iterate _) as [l|]; simpl.
        -- specialize (IH (build_items build l acc idx).1
                         (build_items build l acc idx).2 calls'). lia.
        -- lia.
      * simpl. lia.
Qed.

Lemma length_batches_le {A} (candidates : list A) :
  length (Batcher.batches candidates) <= 9.
Proof.
  unfold Batcher.batches. rewrite length_take.
  assert (Batcher.num_batches (length candidates) <= 9); [|lia].
  unfold Batcher.num_batches. repeat case_match; lia.
Qed.

Lemma length_investor_batches_le {A} (candidates : list A) :
  length (Batcher.investor_batches candidates) <= 2.
Proof. unfold Batcher.investor_batches. case_match; simpl; lia. Qed.

Lemma extract_pdf_unfold `{External} fp ft batcher build skip calls :
  extract_pdf fp ft batcher build skip calls
  = match parse_sections ft fp with
    | Raise e => (Raise e, calls)
    | Ok [] => (Ok [], calls)
    | Ok sections =>
        match extract_candidates ft sections with
        | [] => (Ok [], calls)
        | candidates =>
            process_batches ft build skip (batcher candidates) [] 1 calls
        end
    end.
Proof.
  unfold extract_pdf, lift, mbind, M_bind.
  destruct (parse_sections ft fp) as [[|sec secs]|e]; try done.
  by destruct (extract_candidates _ _).
Qed.

Lemma extract_pdf_calls `{External} fp ft batcher build skip n calls :
  (forall candidates : list pystr, length (batcher candidates) <= n) ->
  calls <= (extract_pdf fp ft batcher build skip calls).2 <= calls + 3 * n.
Proof.
  intros Hn. rewrite extract_pdf_unfold.
  destruct (parse_sections ft fp) as [[|sec secs]|e]; simpl; try lia.
  destruct (extract_candidates _ _) as [|c cs] eqn:Hc; simpl; [lia|].
  pose proof (process_batches_calls ft build skip (batcher (c :: cs)) [] 1 calls).
  specialize (Hn (c :: cs)). nia.
Qed.

Lemma run_calls_le `{External} cls fp md calls :
  calls <= (run (extract_of cls fp md) calls).2
        <= calls + 3 * class_max_batches cls.
Proof.
  rewrite run_calls. destruct cls; simpl.
  - apply (extract_pdf_calls _ _ _ _ _ 9). apply length_batches_le.
  - apply (extract_pdf_calls _ _ _ _ _ 9). apply length_batches_le.
  - apply (extract_pdf_calls _ _ _ _ _ 2). apply length_investor_batches_le.
  - unfold extract_sec. destruct (read_html fp) as [html|]; simpl; [|lia].
    destruct (fromkeys_list _) as [|c cs]; simpl; [lia|].
    pose proof (process_batches_calls SEC_10Q (build_sec md fp) true
                  (Batcher.batches (c :: cs)) [] 1 calls).
    pose proof (length_batches_le (c :: cs)). nia.
Qed.

(** X3. One document costs at most three invocations of the model per
    batch, hence at most 27 for the annual, quarterly and 10-Q extractors
    and at most 6 for the investor extractor, whatever the model answers;
    [run] adds none of its own, and the count of invocations is never
    decreased. *)
Theorem extract_call_budget `{External} cls fp md calls :
  calls <= (run (extract_of cls fp md) calls).2
        <= calls + 3 * class_max_batches cls.
Proof. apply run_calls_le. Qed.

Lemma process_batches_app `{External} ft build skip pre post acc calls :
  process_batches ft build skip (pre ++ post) acc (S (length acc)) calls
  = match process_batches ft build skip pre acc (S (length acc)) calls with
    | (Ok acc', calls') =>
        process_batches ft build skip post acc' (S (length acc')) calls'
    | (Raise e, calls') => (Raise e, calls')
    end.
Proof.
  revert acc calls. induction pre as [|batch pre IH]; intros acc calls.
  - done.
  - rewrite <- app_comm_cons, !process_batches_cons.
    destruct (skip && bool_decide (batch = [])); [apply IH|].
    destruct (ask_llm _ calls) as [[resp|e] calls']; [|done].
    destruct (iterate _) as [l|]; [|done].
    rewrite build_items_counter by done. apply IH.
Qed.

(** X4. The batches are processed in order and the numbering runs on from
    one batch to the next: processing [pre ++ post] is processing [pre]
    and then, if that did not raise, [post] from the records and the
    counter reached; a failure in [pre] is the failure of the whole. *)
Theorem batches_in_sequence `{External} ft build skip pre post acc calls :
  process_batches ft build skip (pre ++ post) acc (S (length acc)) calls
  = match process_batches ft build skip pre acc (S (length acc)) calls with
    | (Ok acc', calls') =>
        process_batches ft build skip post acc' (S (length acc')) calls'
    | (Raise e, calls') => (Raise e, calls')
    end.
Proof. apply process_batches_app. Qed.

Lemma ask_llm_three_failures `{External} prompt calls :
  (forall j, j < 3 -> llm_invoke (calls + j) prompt = None) ->
  ask_llm prompt calls = (Raise ExtractionError, calls + 3).
Proof.
  intros Hdown. pose proof (ask_llm_spec prompt calls) as Ho.
  destruct (ask_llm prompt calls) as [[text|e] calls'].
  - destruct Ho as (k & r & Hk & _ & Hs & _). rewrite Hdown in Hs; done.
  - by destruct Ho as (-> & -> & _).
Qed.

(** X5. A batch on which the model fails three times in a row ends the
    document: the loop raises ExtractionError at that batch, the batches
    after it are not tried, and [run] returns the empty list, without
    the records the earlier batches had given. *)
Theorem failed_batch_discards_records `{External} ft build skip
    pre batch rest acc calls calls' :
  process_batches ft build skip pre [] 1 calls = (Ok acc, calls') ->
  batch <> [] ->
  (forall j, j < 3 ->
     llm_invoke (calls' + j) (prompt_pass2 ft (numbered batch)) = None) ->
  process_batches ft build skip (pre ++ batch :: rest) [] 1 calls
  = (Raise ExtractionError, calls' + 3) /\
  run (process_batches ft build skip (pre ++ batch :: rest) [] 1) calls
  = (Ok [], calls' + 3).
Proof.
  intros Hpre Hne Hdown.
  assert (process_batches ft build skip (pre ++ batch :: rest) [] 1 calls
          = (Raise ExtractionError, calls' + 3)) as Hraise.
  { pose proof (process_batches_app ft build skip pre (batch :: rest) [] calls)
      as Hseq.
    simpl length in Hseq. rewrite Hseq, Hpre, process_batches_cons.
    rewrite bool_decide_eq_false_2, andb_false_r by done.
    by rewrite ask_llm_three_failures. }
  split; [done|]. unfold run. by rewrite Hraise.
Qed.

Lemma failed_batch_discards_records_witness :
  let W := Demo.world (Ok Demo.report) (Scenario.answers_first 1) in
  let build := @build_annual W Demo.metadata Demo.file_path in
  let first := [py "We plan to open two sites."] in
  let second := [py "Revenue guidance is unchanged."] in
  (@process_batches W ASX_ANNUAL build true [first] [] 1 0).2 = 1 /\
  length (returned (@process_batches W ASX_ANNUAL build true [first] [] 1) 0)
  = 1 /\
  run (@process_batches W ASX_ANNUAL build true ([first] ++ [second]) [] 1) 0
  = (Ok [], 4).
Proof.
  intros W build first second.
  split; [vm_compute; reflexivity|]. split; [vm_compute; reflexivity|].
  refine (proj2 (@failed_batch_discards_records W ASX_ANNUAL build true
                   [first] second []
                   (returned (@process_batches W ASX_ANNUAL build true
                                [first] [] 1) 0) 0 1 _ _ _)).
  - vm_compute. reflexivity.
  - discriminate.
  - intros j Hj. reflexivity.
Defined.

(** What the bracket search of [_extract_json_block] needs. *)
Lemma sub_from_delete_elem m fuel at_start s c :
  c ∈ Re.sub_from m [] fuel at_start s -> c ∈ s.
Proof.
  revert at_start s. induction fuel as [|fuel IH]; intros at_start s; simpl.
  - done.
  - destruct (m at_start s) as [[|k]|].
    + destruct s as [|d r]; [done|].
      rewrite !elem_of_cons. intros [->|Hc]; [by left | right; eauto].
    + intros Hc. apply IH in Hc.
      eapply elem_of_sublist; [done | apply sublist_drop].
    + destruct s as [|d r]; [done|].
      rewrite !elem_of_cons. intros [->|Hc]; [by left | right; eauto].
Qed.

Lemma find_absent_char c s : c ∉ s -> find [c] s = None.
Proof.
  induction s as [|d r IH]; [done|].
  rewrite not_elem_of_cons. intros [Hne Hr]. simpl.
  rewrite bool_decide_eq_false_2 by done. simpl. by rewrite IH.
Qed.

Lemma rfind_absent_char c s : c ∉ s -> rfind [c] s = None.
Proof.
  induction s as [|d r IH]; [done|].
  rewrite not_elem_of_cons. intros [Hne Hr]. simpl.
  rewrite IH by done. by rewrite bool_decide_eq_false_2.
Qed.

Lemma extract_json_block_no_bracket text :
  "["%char ∉ text \/ "]"%char ∉ text -> extract_json_block text = None.
Proof.
  intros Hno. unfold extract_json_block. destruct text as [|c r]; [done|].
  set (cleaned := Re.sub Re.fence [] (strip (c :: r))).
  assert (forall x, x ∈ cleaned -> x ∈ c :: r) as Hsub.
  { intros x Hx. apply sub_from_delete_elem in Hx. by apply strip_elem. }
  destruct Hno as [Hno|Hno].
  - change (py "[") with ["["%char]. rewrite find_absent_char; [done|].
    intros Hx. by apply Hno, Hsub.
  - change (py "]") with ["]"%char]. rewrite (rfind_absent_char "]"); [|].
    + by destruct (find _ cleaned).
    + intros Hx. by apply Hno, Hsub.
Qed.

(** X6. An answer the loop can make nothing of costs its batch and
    nothing more: when the answer holds no opening or no closing square
    bracket, or when the block cut out of it is not JSON, the batch adds
    no record, the counter stays, and the loop goes on with the next
    batch. *)
Theorem unusable_answer_skips_batch `{External} ft build skip
    batch rest acc idx calls resp calls' :
  batch <> [] ->
  ask_llm (prompt_pass2 ft (numbered batch)) calls = (Ok resp, calls') ->
  ("["%char ∉ resp \/ "]"%char ∉ resp \/
   exists block, extract_json_block resp = Some block /\
                 json_loads block = None) ->
  process_batches ft build skip (batch :: rest) acc idx calls
  = process_batches ft build skip rest acc idx calls'.
Proof.
  intros Hne Hask Hbad. rewrite process_batches_cons.
  rewrite bool_decide_eq_false_2, andb_false_r by done. rewrite Hask.
  assert (safe_json_load (extract_json_block resp) = None) as ->; [|done].
  destruct Hbad as [Hno|[Hno|(block & -> & Hload)]].
  - rewrite extract_json_block_no_bracket; [done | by left].
  - rewrite extract_json_block_no_bracket; [done | by right].
  - simpl. by destruct block.
Qed.

Lemma unusable_answer_skips_batch_witness :
  let W := Demo.world (Ok Demo.report) Scenario.prose_llm in
  let build := @build_annual W Demo.metadata Demo.file_path in
  let batch := [py "We plan to open two sites."] in
  @process_batches W ASX_ANNUAL build true [batch; batch] [] 1 0
  = @process_batches W ASX_ANNUAL build true [batch] [] 1 1.
Proof.
  intros W build batch.
  refine (@unusable_answer_skips_batch W ASX_ANNUAL build true batch [batch]
            [] 1 0 (py "No forward-looking statements were found.") 1 _ _ _).
  - discriminate.
  - vm_compute. reflexivity.
  - left. apply (bool_decide_unpack _). vm_compute. exact I.
Defined.

End BatchLoopProps.

(** ** What every record of a run carries *)

Module RecordProps.
Import PyStr PyList PyVal Enums Model BaseExtractor Extractors Dispatch.
Import Spec Shape.
Import PyStrProps NormalizerProps DefaultsProps LoopProps RunProps.
Import ForecastProps SentenceIdProps PrefilterProps.

(** An invariant that the builder of the class maintains holds of what
    its [extract] returns. *)
Lemma extract_inv_class `{External}
    (P : list CatalystDisclosure -> nat -> Prop) cls fp md calls records :
  P [] 1 ->
  (forall acc idx item r,
     P acc idx -> build_of (class_filing_type cls) md fp idx item = Some r ->
     P (acc ++ [r]) (S idx)) ->
  (extract_of cls fp md calls).1 = Ok records ->
  exists idx, P records idx.
Proof.
  intros H0 Hstep.
  assert (forall ft batcher skip,
    ft = class_filing_type cls ->
    (extract_pdf fp ft batcher (build_of ft md fp) skip calls).1 = Ok records ->
    exists idx, P records idx) as Hpdf.
  { intros ft batcher skip ->. unfold extract_pdf, lift.
    unfold mbind at 1, M_bind at 1.
    destruct (parse_sections _ fp) as [[|sec secs]|e]; simpl; try done.
    - intros [= <-]. eauto.
    - destruct (extract_candidates _ _) as [|c cs]; simpl.
      + intros [= <-]. eauto.
      + apply process_batches_inv; [apply Hstep | done]. }
  destruct cls; simpl in *; try (by apply Hpdf).
  unfold extract_sec. destruct (read_html fp) as [html|]; simpl.
  - destruct (fromkeys_list _) as [|c cs]; simpl.
    + intros [= <-]. eauto.
    + apply (process_batches_inv _ _ Hstep). done.
  - intros [= <-]. eauto.
Qed.

Lemma returned_run {A} (m : M (list A)) calls :
  returned (run m) calls = returned m calls.
Proof. unfold returned. by rewrite run_ok. Qed.

(** A property of every record the builder of the class makes holds of
    every record [run] returns. *)
Lemma run_Forall `{External} (Q : CatalystDisclosure -> Prop) cls fp md calls :
  (forall idx item r,
     build_of (class_filing_type cls) md fp idx item = Some r -> Q r) ->
  Forall Q (returned (run (extract_of cls fp md)) calls).
Proof.
  intros HQ. rewrite returned_run. unfold returned.
  destruct (extract_of cls fp md calls).1 as [records|e] eqn:Hx; [|constructor].
  destruct (extract_inv_class (fun acc _ => Forall Q acc) cls fp md calls records)
    as [_ Hall]; try done.
  intros acc idx item r Hacc Hb. apply Forall_app. split; [done|].
  constructor; [by eapply HQ | constructor].
Qed.

Lemma validate_str_Some v s : validate_str v = Some s -> v = JStr s.
Proof. destruct v; simpl; congruence. Qed.

Lemma build_provenance `{External} ft md fp idx item r :
  build_of ft md fp idx item = Some r ->
  exchange r = match ft with SEC_10Q => py "SEC" | _ => py "ASX" end /\
  filing_type r = ft /\
  source_file r = Some fp /\
  doc_id_of md fp = JStr (doc_id r) /\
  validate_optional_str (dict_get md (py "date")) = Some (filing_date r) /\
  forward_looking r = true /\
  flag r = Some (py "ok").
Proof.
  destruct ft; unfold_build; intros Hb; simplify_option_eq;
    match goal with Hd : validate_str _ = Some _ |- _ =>
      apply validate_str_Some in Hd end;
    split_and!; done.
Qed.

(** X7. Every record of a run carries the exchange and the filing type of
    its extractor class, the path of the file it was read from, the
    document identifier of the metadata (the stem of the file name when
    the metadata have none), the filing date found under the key [date]
    of the metadata, and the constants [forward_looking = True] and
    [flag = "ok"]; so all records of a run agree on these fields. *)
Theorem record_provenance `{External} cls fp md calls :
  Forall (fun r =>
            exchange r = class_exchange cls /\
            filing_type r = class_filing_type cls /\
            source_file r = Some fp /\
            JStr (doc_id r) = doc_id_of md fp /\
            Some (filing_date r)
            = validate_optional_str (dict_get md (py "date")) /\
            forward_looking r = true /\
            flag r = Some (py "ok"))
         (returned (run (extract_of cls fp md)) calls).
Proof.
  apply run_Forall. intros idx item r Hb.
  apply build_provenance in Hb as (He & Hf & Hs & Hd & Hdate & Hfl & Hflag).
  split_and!; try done. by destruct cls.
Qed.

Lemma dedupe_categories_NoDup cats : NoDup (dedupe_categories cats).
Proof.
  destruct cats as [|c cats]; [constructor|].
  apply (fromkeys_list_NoDup (c :: cats)).
Qed.

Lemma dedupe_categories_elem c cats : c ∈ dedupe_categories cats <-> c ∈ cats.
Proof.
  destruct cats as [|d cats]; [done|].
  apply (fromkeys_list_elem c (d :: cats)).
Qed.

Lemma build_categories `{External} ft md fp idx item r :
  build_of ft md fp idx item = Some r ->
  exists cats,
    categories_matched r = dedupe_categories cats /\
    match ft with
    | ASX_ANNUAL | ASX_INVESTOR =>
        get item (py "categories_matched") (JArr []) = Some (JArr (JStr <$> cats))
    | ASX_QUARTERLY | SEC_10Q => cats = []
    end.
Proof.
  destruct ft; unfold_build; intros Hb; simplify_option_eq.
  all: try (eexists; split; [reflexivity|]; by erewrite <- validate_str_list_Some).
  all: by exists [].
Qed.

(** X8. The categories of a record are those of the item in the order of
    their first occurrence, each once: no record of a run lists a category
    twice, and the records of the quarterly and the 10-Q extractor list
    none. *)
Theorem record_categories_distinct `{External} cls fp md calls :
  Forall (fun r =>
            NoDup (categories_matched r) /\
            (class_filing_type cls = ASX_QUARTERLY \/
             class_filing_type cls = SEC_10Q -> categories_matched r = []))
         (returned (run (extract_of cls fp md)) calls).
Proof.
  apply run_Forall. intros idx item r Hb.
  apply build_categories in Hb as (cats & -> & Hcats). split.
  - apply dedupe_categories_NoDup.
  - intros [E|E]; rewrite E in Hcats; by subst.
Qed.

End RecordProps.

(** ** The text and the identifier of a record *)

Module TextProps.
Import PyStr PyList PyVal Enums Model BaseExtractor Extractors Dispatch.
Import Spec Shape.
Import PyStrProps NormalizerProps DefaultsProps LoopProps RunProps.
Import SentenceIdProps RecordProps.

Lemma build_text `{External} ft md fp idx item r :
  build_of ft md fp idx item = Some r ->
  exists v, get item (py "text") (JStr []) = Some v /\ text r = clean_text v.
Proof. destruct ft; unfold_build; intros Hb; simplify_option_eq; eauto. Qed.

(** X9. The text of every record of a run is in the normal form of
    [clean_text]: it holds no line break, it neither starts nor ends with
    white space, and cleaning it again leaves it as it is. *)
Theorem record_text_clean `{External} cls fp md calls :
  Forall (fun r =>
            single_line (text r) /\
            stripped (text r) /\
            clean_text (JStr (text r)) = text r)
         (returned (run (extract_of cls fp md)) calls).
Proof.
  apply run_Forall. intros idx item r Hb.
  apply build_text in Hb as (v & _ & ->). split_and!.
  - apply clean_text_single_line.
  - apply clean_text_stripped.
  - apply clean_text_idem.
Qed.

(** Decimal numerals tell numbers apart. *)
Lemma py_inj s1 s2 : py s1 = py s2 -> s1 = s2.
Proof.
  unfold py. intros E. apply (f_equal string_of_list_ascii) in E.
  by rewrite !string_of_list_ascii_of_string in E.
Qed.

Lemma str_of_nat_inj n m : str_of_nat n = str_of_nat m -> n = m.
Proof.
  unfold str_of_nat. intros E%py_inj.
  apply (f_equal NilEmpty.uint_of_string) in E.
  rewrite !NilEmpty.usu in E. simplify_eq.
  apply (f_equal Nat.of_uint) in E. by rewrite !DecimalNat.Unsigned.of_to in E.
Qed.

Lemma sentence_id_of_inj n m : sentence_id_of n = sentence_id_of m -> n = m.
Proof. unfold sentence_id_of. intros E%app_inv_head. by apply str_of_nat_inj. Qed.

(** X10. The sentence identifiers of a run are pairwise distinct: within
    the list [run] returns an identifier names one record. *)
Theorem sentence_ids_distinct `{External} cls fp md calls :
  NoDup (sentence_id <$> returned (run (extract_of cls fp md)) calls).
Proof.
  rewrite returned_run. unfold returned.
  destruct (extract_of cls fp md calls).1 as [records|e] eqn:Hx; [|constructor].
  apply extract_counted in Hx. unfold numbered_from_one in Hx. rewrite Hx.
  apply NoDup_fmap_2_strong; [|apply NoDup_seq].
  intros n m _ _. apply sentence_id_of_inj.
Qed.

End TextProps.

(** ** Sections *)

Module SectionProps.
Import PyStr PyList Sections Spec Shape.
Import PyStrProps DefaultsProps TextProps.

Lemma flush_prefix sections current h :
  flush sections current h = sections ++ flush [] current h.
Proof. destruct current; simpl; by rewrite ?app_nil_r. Qed.

Lemma group_from_prefix elems sections current h :
  group_from elems sections current h
  = sections ++ group_from elems [] current h.
Proof.
  revert sections current h.
  induction elems as [|e rest IH]; intros sections current h; simpl.
  - apply flush_prefix.
  - repeat case_bool_decide; try apply IH.
    rewrite IH, (IH (flush [] current h)), (flush_prefix sections).
    by rewrite app_assoc.
Qed.

Lemma narrative_cons e rest :
  narrative (e :: rest)
  = (if bool_decide (category e ∈ [py "NarrativeText"; py "ListItem"])
     then if bool_decide (strip (elem_text e) <> [])
          then [strip (elem_text e)] else []
     else []) ++ narrative rest.
Proof.
  unfold narrative. case_bool_decide as Hc.
  - rewrite filter_cons_True by done. rewrite !fmap_cons.
    case_bool_decide as Ht.
    + by rewrite filter_cons_True.
    + rewrite filter_cons_False; [done | by intros ?].
  - by rewrite filter_cons_False.
Qed.

Lemma title_not_narrative e :
  category e = py "Title" ->
  bool_decide (category e ∈ [py "NarrativeText"; py "ListItem"]) = false.
Proof.
  intros ->. apply bool_decide_eq_false_2.
  rewrite !elem_of_cons, elem_of_nil. intros [E|[E|[]]]; vm_compute in E; done.
Qed.

(** The sections are groups of lines, none empty, which taken together
    are the lines pending and the narrative lines to come. *)
Lemma group_from_groups elems current h :
  exists groups : list (pystr * list pystr),
    group_from elems [] current h
    = (fun g => {| heading := g.1; sec_text := join line_feed g.2 |}) <$> groups /\
    Forall (fun g => g.2 <> []) groups /\
    concat (snd <$> groups) = current ++ narrative elems /\
    Forall (fun g => g.1 = h \/
                     exists e, e ∈ elems /\ category e = py "Title" /\
                               g.1 = strip (elem_text e)) groups.
Proof.
  revert current h. induction elems as [|e rest IH]; intros current h; simpl.
  - destruct current as [|c current].
    + exists []. by rewrite app_nil_r.
    + exists [(h, c :: current)]. simpl. rewrite !app_nil_r.
      split_and!; [done | by repeat constructor | done |].
      constructor; [by left | constructor].
  - rewrite narrative_cons. case_bool_decide as Ht.
    + rewrite title_not_narrative by done. simpl.
      destruct (IH [] (strip (elem_text e))) as (groups & E & Hne & Hc & Hh).
      rewrite group_from_prefix, E.
      assert (Forall (fun g : pystr * list pystr =>
                g.1 = h \/ exists e0, e0 ∈ e :: rest /\
                  category e0 = py "Title" /\ g.1 = strip (elem_text e0)) groups)
        as Hh'.
      { eapply Forall_impl; [exact Hh|]. intros g [Hg|(e0 & Hin & Hcat & Hg)].
        - right. exists e. split_and!; [by left | done | done].
        - right. exists e0. split_and!; [by right | done | done]. }
      destruct current as [|c current].
      * exists groups. done.
      * exists ((h, c :: current) :: groups). split_and!.
        -- done.
        -- by constructor.
        -- rewrite fmap_cons, concat_cons, Hc. done.
        -- constructor; [by left | done].
    + assert (forall cur,
        (exists groups : list (pystr * list pystr),
           group_from rest [] cur h
           = (fun g => {| heading := g.1; sec_text := join line_feed g.2 |}) <$> groups /\
           Forall (fun g => g.2 <> []) groups /\
           concat (snd <$> groups) = cur ++ narrative rest /\
           Forall (fun g => g.1 = h \/
                            exists e0, e0 ∈ e :: rest /\
                              category e0 = py "Title" /\
                              g.1 = strip (elem_text e0)) groups)) as IH'.
      { intros cur. destruct (IH cur h) as (groups & E & Hne & Hc & Hh).
        exists groups. split_and!; try done.
        eapply Forall_impl; [exact Hh|]. intros g [Hg|(e0 & Hin & Hcat & Hg)].
        - by left.
        - right. exists e0. split_and!; [by right | done | done]. }
      case_bool_decide as Hn; [case_bool_decide as Hs|].
      * destruct (IH' (current ++ [strip (elem_text e)]))
          as (groups & E & Hne & Hc & Hh).
        exists groups. rewrite Hc, <- app_assoc. done.
      * apply IH'.
      * apply IH'.
Qed.

Lemma join_app sep (xs ys : list pystr) :
  xs <> [] -> ys <> [] ->
  join sep (xs ++ ys) = join sep xs ++ sep ++ join sep ys.
Proof.
  intros Hx Hy. induction xs as [|x xs IH]; [done|].
  destruct xs as [|x' xs].
  - simpl. by destruct ys.
  - change (join sep ((x :: x' :: xs) ++ ys))
      with (x ++ sep ++ join sep ((x' :: xs) ++ ys)).
    rewrite IH by done. simpl. by rewrite <- !app_assoc.
Qed.

Lemma join_concat sep (lss : list (list pystr)) :
  Forall (fun ls => ls <> []) lss ->
  join sep (join sep <$> lss) = join sep (concat lss).
Proof.
  induction 1 as [|ls lss Hls Hlss IH]; [done|].
  destruct lss as [|ls' lss].
  - simpl. by rewrite app_nil_r.
  - change (join sep (join sep <$> ls :: ls' :: lss))
      with (join sep ls ++ sep ++ join sep (join sep <$> ls' :: lss)).
    rewrite IH.
    change (concat (ls :: ls' :: lss)) with (ls ++ concat (ls' :: lss)).
    rewrite (join_app sep ls (concat (ls' :: lss))); [done | done |].
    inversion Hlss; subst. by destruct ls'.
Qed.

(** X11. Grouping the elements of a document under their titles loses
    and reorders nothing: the texts of the sections, joined by line feeds
    as the candidate search joins them, are the stripped texts of the
    narrative and list elements, the empty ones left out, in the order of
    the document; no section has an empty text; a heading is the
    stripped text of a title, or [Unknown] for what precedes the first
    title; and a document without narrative text has no section. *)
Theorem grouping_keeps_narrative elems :
  join line_feed (sec_text <$> group_sections elems) = join line_feed (narrative elems) /\
  Forall (fun s => sec_text s <> []) (group_sections elems) /\
  Forall (fun s => heading s = py "Unknown" \/
                   exists e, e ∈ elems /\ category e = py "Title" /\
                             heading s = strip (elem_text e))
         (group_sections elems) /\
  (narrative elems = [] -> group_sections elems = []).
Proof.
  unfold group_sections.
  destruct (group_from_groups elems [] (py "Unknown"))
    as (groups & -> & Hne & Hc & Hh).
  simpl in Hc. split_and!.
  - rewrite <- list_fmap_compose, <- Hc, <- join_concat, <- list_fmap_compose.
    + done.
    + apply Forall_fmap. done.
  - apply Forall_fmap. apply Forall_forall. intros g Hg. simpl.
    rewrite Forall_forall in Hne. specialize (Hne g Hg).
    destruct g as [hd [|l ls]]; [done|]. apply join_nonempty.
    assert (l ∈ narrative elems) as Hl.
    { rewrite <- Hc. apply list_elem_of_In, in_concat. exists (l :: ls).
      split; [|by left]. apply list_elem_of_In, list_elem_of_fmap.
      by exists (hd, l :: ls). }
    unfold narrative in Hl. by apply list_elem_of_filter in Hl as [Hl _].
  - apply Forall_fmap. done.
  - intros Hnone. rewrite Hnone in Hc. destruct groups as [|g groups]; [done|].
    inversion Hne as [|? ? Hg _]; subst. simpl in Hc.
    apply app_eq_nil in Hc as [Hc _]. done.
Qed.

Lemma stop_at_trigger_spec sections :
  exists k,
    stop_at_trigger sections = take k sections /\
    Forall (fun s => contains (lower STOP_TRIGGER) (lower (heading s)) = false)
           (take k sections) /\
    (forall s, sections !! k = Some s ->
               contains (lower STOP_TRIGGER) (lower (heading s)) = true).
Proof.
  induction sections as [|s rest (k & E & Hall & Hk)]; simpl.
  - exists 0. done.
  - destruct (contains _ (lower (heading s))) eqn:Hs.
    + exists 0. split_and!; [done | constructor |]. by intros ? [= <-].
    + exists (S k). simpl. rewrite E. split_and!; [done | by constructor | done].
Qed.

(** X12. The quarterly [_parse_sections] only removes sections: what it
    returns are sections of the grouping, in their order; none of them has
    the cash flow trigger in its heading, whatever the case of the letters,
    nor an excluded heading; nothing at or after the first heading with
    the trigger is returned; and every section before that heading whose
    heading is not excluded is. *)
Theorem quarterly_sections_filter (EXCLUDE_HEADINGS : gset pystr) elems :
  let grouped := group_sections elems in
  let kept := quarterly_sections EXCLUDE_HEADINGS elems in
  sublist kept grouped /\
  Forall (fun s =>
            contains (lower STOP_TRIGGER) (lower (heading s)) = false /\
            strip (heading s) ∉ EXCLUDE_HEADINGS) kept /\
  (forall pre s post,
     grouped = pre ++ s :: post ->
     contains (lower STOP_TRIGGER) (lower (heading s)) = true ->
     sublist kept pre) /\
  (forall pre s post,
     grouped = pre ++ s :: post ->
     Forall (fun s' =>
               contains (lower STOP_TRIGGER) (lower (heading s')) = false)
            (pre ++ [s]) ->
     strip (heading s) ∉ EXCLUDE_HEADINGS ->
     s ∈ kept).
Proof.
  intros grouped kept. subst kept. unfold quarterly_sections. fold grouped.
  destruct (stop_at_trigger_spec grouped) as (k & -> & Hall & Hk).
  split_and!.
  - etransitivity; [apply sublist_filter | apply sublist_take].
  - apply Forall_forall. intros s [Hex Hin]%list_elem_of_filter.
    rewrite Forall_forall in Hall. auto.
  - intros pre s post E Hs.
    assert (k <= length pre) as Hle.
    { destruct (decide (k <= length pre)) as [|Hgt]; [done|]. exfalso.
      rewrite Forall_forall in Hall.
      assert (s ∈ take k grouped) as Hin.
      { apply list_elem_of_lookup. exists (length pre).
        rewrite lookup_take_lt by lia. rewrite E.
        by rewrite list_lookup_middle. }
      apply Hall in Hin. congruence. }
    etransitivity; [apply sublist_filter|].
    rewrite E, take_app_le by done. apply sublist_take.
  - intros pre s post E Hpre Hex. apply list_elem_of_filter. split; [done|].
    assert (length pre < k) as Hlt.
    { destruct (decide (length pre < k)) as [|Hge]; [done|]. exfalso.
      assert (k < length grouped) as Hk'.
      { rewrite E, length_app. simpl. lia. }
      apply lookup_lt_is_Some in Hk' as [s' Hs'].
      pose proof (Hk _ Hs') as Htrig.
      assert (s' ∈ pre ++ [s]) as Hin.
      { apply list_elem_of_lookup. exists k. rewrite E in Hs'.
        destruct (decide (k = length pre)) as [->|Hne].
        - rewrite list_lookup_middle in Hs' by done. simplify_eq.
          by rewrite list_lookup_middle.
        - rewrite lookup_app_l in Hs' by lia.
          rewrite lookup_app_l by lia. done. }
      rewrite Forall_forall in Hpre. apply Hpre in Hin. congruence. }
    apply list_elem_of_lookup. exists (length pre).
    rewrite lookup_take_lt by done. rewrite E. by rewrite list_lookup_middle.
Qed.

Lemma annual_filter_spec stop_after drop_heading sections :
  exists k,
    annual_filter stop_after drop_heading sections
    = filter (fun s => drop_heading (strip (heading s)) = false)
             (take k sections) /\
    Forall (fun s => stop_after (strip (heading s)) = false) (take k sections) /\
    (forall s, sections !! k = Some s -> stop_after (strip (heading s)) = true).
Proof.
  induction sections as [|s rest (k & E & Hall & Hk)]; simpl.
  - exists 0. done.
  - destruct (stop_after (strip (heading s))) eqn:Hs.
    + exists 0. split_and!; [done | constructor |]. by intros ? [= <-].
    + exists (S k). simpl. split_and!; [| by constructor | done].
      destruct (drop_heading (strip (heading s))) eqn:Hd; simpl.
      * by rewrite filter_cons_False by (rewrite Hd; done).
      * by rewrite filter_cons_True, E by done.
Qed.

(** X13. The annual and the investor [_parse_sections] only remove
    sections too.  What the annual one returns are sections of the
    grouping, in their order, whose stripped heading matches neither a
    stop pattern nor a drop pattern, and nothing at or after the first
    heading that matches a stop pattern; the investor one returns exactly
    the sections whose heading matches no drop pattern, in their order. *)
Theorem annual_investor_sections_filter
    (stop_after drop_heading : pystr -> bool) elems :
  let grouped := group_sections elems in
  let annual := annual_sections stop_after drop_heading elems in
  let investor := investor_sections drop_heading elems in
  sublist annual grouped /\
  Forall (fun s => stop_after (strip (heading s)) = false /\
                   drop_heading (strip (heading s)) = false) annual /\
  (forall pre s post,
     grouped = pre ++ s :: post -> stop_after (strip (heading s)) = true ->
     sublist annual pre) /\
  sublist investor grouped /\
  (forall s, s ∈ investor <-> s ∈ grouped /\ drop_heading (heading s) = false).
Proof.
  intros grouped annual investor. subst annual investor.
  unfold annual_sections, investor_sections. fold grouped.
  destruct (annual_filter_spec stop_after drop_heading grouped)
    as (k & -> & Hall & Hk).
  split_and!.
  - etransitivity; [apply sublist_filter | apply sublist_take].
  - apply Forall_forall. intros s [Hd Hin]%list_elem_of_filter.
    rewrite Forall_forall in Hall. auto.
  - intros pre s post E Hs.
    assert (k <= length pre) as Hle.
    { destruct (decide (k <= length pre)) as [|Hgt]; [done|]. exfalso.
      rewrite Forall_forall in Hall.
      assert (s ∈ take k grouped) as Hin.
      { apply list_elem_of_lookup. exists (length pre).
        rewrite lookup_take_lt by lia. rewrite E.
        by rewrite list_lookup_middle. }
      apply Hall in Hin. congruence. }
    etransitivity; [apply sublist_filter|].
    rewrite E, take_app_le by done. apply sublist_take.
  - apply sublist_filter.
  - intros s. rewrite list_elem_of_filter. tauto.
Qed.

End SectionProps.

(** ** The sections of a 10-Q page and the preview of a record *)

Module HtmlSectionProps.
Import PyStr PyList Sections Display Spec Shape.
Import BaseExtractor Extractors Dispatch.
Import PyStrProps DefaultsProps TextProps RecordProps.







Lemma text_preview_length r : length (text_preview r) <= 400.
Proof.
  unfold text_preview, slice.
  destruct (Nat.ltb_spec 400 (length (strip (text r)))) as [Hlt|Hle]; [|done].
  rewrite length_app, length_take, length_drop.
  change (length (py "...")) with 3. lia.
Qed.

(** X15. The preview of a record is never longer than 400 characters: a
    stripped text of up to 400 characters is shown in full, a longer one
    is cut to its first 380 characters followed by three dots.  For a
    record of a run, whose text is already stripped, the preview of a text
    of up to 400 characters is the text itself. *)
Theorem text_preview_bounded `{External} :
  (forall r,
     length (text_preview r) <= 400 /\
     (length (strip (text r)) <= 400 -> text_preview r = strip (text r)) /\
     (400 < length (strip (text r)) ->
      text_preview r = take 380 (strip (text r)) ++ py "..." /\
      length (text_preview r) = 383)) /\
  (forall cls fp md calls,
     Forall (fun r =>
               length (text_preview r) <= 400 /\
               (length (text r) <= 400 -> text_preview r = text r))
            (returned (run (extract_of cls fp md)) calls)).
Proof.
  split.
  - intros r. split_and!.
    + apply text_preview_length.
    + intros Hle. unfold text_preview.
      destruct (Nat.ltb_spec 400 (length (strip (text r)))); [lia | done].
    + intros Hlt. unfold text_preview, slice.
      destruct (Nat.ltb_spec 400 (length (strip (text r)))); [|lia].
      rewrite drop_0. split; [done|].
      rewrite length_app, length_take. change (length (py "...")) with 3. lia.
  - intros cls fp md calls. apply run_Forall. intros idx item r Hb.
    split; [apply text_preview_length|].
    apply build_text in Hb as (v & _ & Hv).
    pose proof (clean_text_stripped v) as Hs. rewrite <- Hv in Hs.
    intros Hle. unfold text_preview. rewrite Hs.
    destruct (Nat.ltb_spec 400 (length (text r))); [lia | done].
Qed.

End HtmlSectionProps.

(** ** The pipeline around the extractors *)

Module PipelineProps.
Import PyStr PyList PyVal Enums Model BaseExtractor Extractors Dispatch.
Import Pipeline Spec Shape.
Import PyStrProps NormalizerProps RunProps BatchLoopProps RecordProps.

Lemma assoc_setitem k v d : assoc k (setitem k v d) = Some v.
Proof.
  induction d as [|[k' v'] d IH]; simpl.
  - by rewrite decide_True.
  - destruct (decide (k' = k)) as [->|Hne]; simpl.
    + by rewrite decide_True.
    + by rewrite decide_False.
Qed.

Lemma assoc_setitem_ne k k' v d :
  k <> k' -> assoc k' (setitem k v d) = assoc k' d.
Proof.
  intros Hne. induction d as [|[k0 v0] d IH]; simpl.
  - by rewrite decide_False.
  - destruct (decide (k0 = k)) as [->|Hk]; simpl.
    + by rewrite !decide_False.
    + by rewrite IH.
Qed.

Ltac distinct_keys := let E := fresh in intros E; vm_compute in E; discriminate E.

(** The metadata [process_file] hands to the extractor. *)
Lemma metadata_doc_id md doc exch ft fd sf :
  dict_get
    (update md
       [ (py "doc_id", JStr doc); (py "exchange", JStr exch);
         (py "filing_type", JStr ft); (py "filing_date", fd);
         (py "source_file", sf) ]) (py "doc_id")
  = JStr doc.
Proof.
  unfold update, dict_get. simpl.
  rewrite !assoc_setitem_ne by distinct_keys. by rewrite assoc_setitem.
Qed.

Lemma metadata_date md doc exch ft fd sf :
  dict_get
    (update md
       [ (py "doc_id", JStr doc); (py "exchange", JStr exch);
         (py "filing_type", JStr ft); (py "filing_date", fd);
         (py "source_file", sf) ]) (py "date")
  = dict_get md (py "date").
Proof.
  unfold update, dict_get. simpl.
  by rewrite !assoc_setitem_ne by distinct_keys.
Qed.

Lemma run_returned {A} (m : M (list A)) calls :
  run m calls = (Ok (returned (run m) calls), (run m calls).2).
Proof.
  unfold returned. pose proof (run_ok m calls) as Hok.
  destruct (run m calls) as [[l|e] calls']; simpl in *; [done | congruence].
Qed.

Section Pipeline.
Context `{External}.
Variable download : pystr -> result pystr.
Variable persist :
  pystr -> pystr -> pystr -> option pystr -> json ->
  list CatalystDisclosure -> result json.

Lemma process_file_spec file_url exch ft doc fd sf md calls :
  match process_file download persist file_url exch ft doc fd sf md calls with
  | (Ok rep, calls') =>
      report_count rep = length (report_items rep) /\
      (report_status rep = py "ok" <-> report_items rep <> []) /\
      (report_status rep = py "no_items" <-> report_items rep = []) /\
      calls <= calls' <= calls + 27 /\
      exists tmp_path cls,
        download file_url = Ok tmp_path /\
        get_extractor_instance exch ft = Ok cls /\
        Forall (fun r =>
                  source_file r = Some tmp_path /\
                  exchange r = class_exchange cls /\
                  filing_type r = class_filing_type cls /\
                  (doc <> [] -> doc_id r = doc) /\
                  Some (filing_date r)
                  = validate_optional_str
                      (dict_get (default [] md) (py "date")))
               (report_items rep)
  | (Raise e, calls') =>
      (download file_url = Raise e /\ calls' = calls) \/
      (exists tmp_path,
         download file_url = Ok tmp_path /\
         get_extractor_instance exch ft = Raise e /\
         e = KeyError /\ calls' = calls) \/
      (exists tmp_path cls source records,
         download file_url = Ok tmp_path /\
         get_extractor_instance exch ft = Ok cls /\
         persist doc exch ft fd source records = Raise e)
  end.
Proof.
  unfold process_file, lift, mbind, M_bind.
  destruct (download file_url) as [tmp_path|e] eqn:Hd; [|by left].
  destruct (get_extractor_instance exch ft) as [cls|e] eqn:Hg.
  2:{ right. left. exists tmp_path. split_and!; try done.
      unfold get_extractor_instance, get_extractor in Hg.
      destruct (EXTRACTOR_REGISTRY !! _); by simplify_eq. }
  set (md' := update (default [] md) _).
  rewrite (run_returned (extract_of cls tmp_path md') calls).
  pose proof (run_calls_le cls tmp_path md' calls) as Hcalls.
  set (items := returned (run (extract_of cls tmp_path md')) calls).
  assert (Forall (fun r =>
            source_file r = Some tmp_path /\
            exchange r = class_exchange cls /\
            filing_type r = class_filing_type cls /\
            (doc <> [] -> doc_id r = doc) /\
            Some (filing_date r)
            = validate_optional_str (dict_get (default [] md) (py "date")))
          items) as Hitems.
  { apply run_Forall. intros idx item r Hb.
    apply build_provenance in Hb as (He & Hf & Hs & Hdoc & Hdate & _).
    split_and!; try done.
    - rewrite He. by destruct cls.
    - intros Hne. unfold doc_id_of in Hdoc. subst md'.
      rewrite metadata_doc_id in Hdoc. simpl in Hdoc.
      rewrite bool_decide_eq_false_2 in Hdoc by done. simpl in Hdoc.
      congruence.
    - subst md'. rewrite metadata_date in Hdate. done. }
  destruct (persist _ _ _ _ _ items) as [meta|e] eqn:Hp.
  - simpl. split; [done|]. split.
    { destruct items; split; done. }
    split.
    { destruct items; split; done. }
    split.
    { assert (3 * class_max_batches cls <= 27) by (destruct cls; simpl; lia).
      lia. }
    exists tmp_path, cls. done.
  - right. right. by eexists tmp_path, cls, _, items.
Qed.


Variable today : pystr.

Lemma make_doc_id_str ticker fd ft :
  exists doc,
    make_doc_id today (JStr ticker) fd ft = Some doc /\
    0 < length doc <= 64.
Proof.
  assert (forall t rest : pystr,
            t <> [] -> 0 < length (take 64 (t ++ rest)) <= 64) as Hlen.
  { intros t rest Ht. rewrite length_take, length_app.
    destruct t; [done|]. simpl length. lia. }
  unfold make_doc_id. destruct (truthy (JStr ticker)) eqn:Ht.
  - eexists. split; [reflexivity|]. apply Hlen.
    destruct ticker; [done|]. done.
  - eexists. split; [reflexivity|]. apply Hlen. by vm_compute.
Qed.

End Pipeline.

(** X17. The records of [run_extraction_pipeline_for_listing] all carry
    the identifier [_make_doc_id] makes of the ticker, the filing date and
    the filing type, which is not empty and at most 64 characters long,
    and none of them carries a filing date, whatever date is passed in:
    the date goes into the metadata under [filing_date], where the
    extractors, which read [date], do not look.  So it is for the twelve
    records of the example report, listed with the date 2025-11-03. *)
Theorem listing_records_undated :
  (forall (H : External) download persist today exch ft ticker url fd calls,
     match run_extraction_pipeline_for_listing download persist today
             exch ft ticker url fd calls with
     | (Ok rep, _) =>
         exists doc,
           make_doc_id today (JStr ticker) fd ft = Some doc /\
           0 < length doc <= 64 /\
           Forall (fun r => doc_id r = doc /\ filing_date r = None)
                  (report_items rep)
     | (Raise _, _) => True
     end) /\
  (let W := Demo.world (Ok Demo.report) Demo.echo_llm in
   match @run_extraction_pipeline_for_listing W Scenario.local_file
           Scenario.store Scenario.today (py "ASX") (py "annual") (py "abc")
           Demo.file_path (Some (py "2025-11-03")) 0 with
   | (Ok rep, calls') =>
       report_status rep = py "ok" /\ report_count rep = 12 /\ calls' = 2 /\
       Forall (fun r => doc_id r = py "ABC2025-11-03ANNUAL" /\
                        filing_date r = None /\
                        source_file r = Some Demo.file_path)
              (report_items rep)
   | (Raise _, _) => False
   end).
Proof.
  split.
  - intros H download persist today exch ft ticker url fd calls.
    unfold run_extraction_pipeline_for_listing.
    destruct (make_doc_id_str today ticker fd ft) as (doc & -> & Hlen).
    unfold run_extraction_pipeline_from_url.
    unfold mbind at 1, M_bind at 1, mret at 1, M_ret at 1.
    pose proof (process_file_spec download persist url exch ft doc fd
                  (Some (str_or (Some url) url))
                  (Some [(py "ticker", JStr ticker)]) calls) as Hp.
    destruct (process_file _ _ _ _ _ _ _ _ _ calls) as [[rep|e] calls'];
      [|done].
    destruct Hp as (_ & _ & _ & _ & tmp & cls & _ & _ & Hall).
    exists doc. split_and!; [done | lia | lia |].
    eapply Forall_impl; [exact Hall|]. intros r (_ & _ & _ & Hdoc & Hdate).
    split.
    + apply Hdoc. intros ->. simpl in Hlen. lia.
    + simpl in Hdate. by simplify_eq.
  - vm_compute. split_and!; try done. repeat constructor.
Qed.

End PipelineProps.

(** ** What the dispatcher accepts, and the labels of the ingestion *)

Module DispatchDomainProps.
Import PyStr Enums Dispatch Ingest Shape.
Import PyStrProps DispatchProps.







(** X19. Every announcement that [get_asx_announcements] keeps can be
    dispatched: the label [classify_filing] gives a title is [other] or
    one of the three allowed ones, and for an allowed label the
    dispatcher finds on ASX the class whose filing type has the label as
    its value.  Of the labels of [classify_announcement], QUARTERLY and
    ANNUAL reach the quarterly and the annual extractor, while
    PRESENTATION and OTHER are not registered: for them the dispatcher
    raises KeyError. *)
Theorem ingest_labels_dispatch title :
  (let label := classify_filing title in
   (label = py "other" /\ label ∉ allowed) \/
   (label ∈ allowed /\
    exists cls,
      get_extractor_instance (py "ASX") label = Ok cls /\
      FilingType_value (class_filing_type cls) = label)) /\
  (let label := classify_announcement title in
   (label = py "QUARTERLY" /\
    get_extractor_instance (py "ASX") label = Ok ASXQuarterlyExtractor) \/
   (label = py "ANNUAL" /\
    get_extractor_instance (py "ASX") label = Ok ASXAnnualExtractor) \/
   (label ∈ [py "PRESENTATION"; py "OTHER"] /\
    get_extractor_instance (py "ASX") label = Raise KeyError)).
Proof.
  split.
  - unfold classify_filing.
    destruct (contains (py "quarterly") _ && contains (py "report") _);
      [|destruct (contains (py "investor presentation") _);
        [|destruct (contains (py "annual report") _)]].
    + right. split; [by apply (bool_decide_unpack _); vm_compute|].
      exists ASXQuarterlyExtractor. by vm_compute.
    + right. split; [by apply (bool_decide_unpack _); vm_compute|].
      exists ASXInvestorExtractor. by vm_compute.
    + right. split; [by apply (bool_decide_unpack _); vm_compute|].
      exists ASXAnnualExtractor. by vm_compute.
    + left. split; [done|]. by apply (bool_decide_unpack _); vm_compute.
  - unfold classify_announcement.
    destruct (contains (py "quarter") _);
      [|destruct (contains (py "investor presentation") _ || contains (py "presentation") _);
        [|destruct (contains (py "annual") _ && contains (py "report") _)]].
    + left. by vm_compute.
    + right. right. split; [by apply (bool_decide_unpack _); vm_compute|].
      by vm_compute.
    + right. left. by vm_compute.
    + right. right. split; [by apply (bool_decide_unpack _); vm_compute|].
      by vm_compute.
Qed.

End DispatchDomainProps.

(** ** Candidates and the cost of a document *)

Module CandidateProps.
Import PyStr PyList PyVal BaseExtractor Extractors Dispatch Batcher.
Import Spec Shape.
Import BatcherProps PyStrProps RetryProps RunProps BatchLoopProps.
Import PrefilterProps DefaultsProps TextProps.

Lemma extract_candidates_spec `{External} ft sections s :
  s ∈ extract_candidates ft sections ->
  stripped s /\ s <> [] /\ extract_keywords ft s <> [].
Proof.
  unfold extract_candidates. rewrite fromkeys_list_elem, list_elem_of_filter.
  intros [[Hne Hkw] Hin]. apply list_elem_of_fmap in Hin as (sent & -> & _).
  split_and!; [apply stripped_strip | done | done].
Qed.

Lemma sec_extract_candidates_spec `{External} text s :
  s ∈ sec_extract_candidates text ->
  stripped s /\ 20 < length s /\ extract_keywords SEC_10Q s <> [].
Proof.
  unfold sec_extract_candidates. rewrite sec_candidates_filter.
  rewrite fromkeys_list_elem, list_elem_of_filter.
  intros [(Hne & Hlen & Hkw) Hin].
  apply list_elem_of_fmap in Hin as (sent & -> & _).
  split_and!; [apply stripped_strip | done | done].
Qed.

(** X20. The candidates an extractor hands to the batcher are pairwise
    distinct, and each is a sentence stripped of surrounding white space,
    not empty, in which the keyword search of the class finds something;
    those of the 10-Q extractor are moreover longer than 20 characters,
    and are distinct across sections too. *)
Theorem candidates_wellformed `{External} cls fp :
  NoDup (candidates_of cls fp) /\
  Forall (fun s =>
            stripped s /\ s <> [] /\
            extract_keywords (class_filing_type cls) s <> [] /\
            (class_filing_type cls = SEC_10Q -> 20 < length s))
         (candidates_of cls fp).
Proof.
  assert (forall (ft : FilingType) (l : list pystr),
    ft <> SEC_10Q ->
    Forall (fun s => stripped s /\ s <> [] /\ extract_keywords ft s <> []) l ->
    Forall (fun s => stripped s /\ s <> [] /\ extract_keywords ft s <> [] /\
                     (ft = SEC_10Q -> 20 < length s)) l) as Hweak.
  { intros ft l Hft Hl. eapply Forall_impl; [exact Hl|].
    intros s (? & ? & ?). done. }
  assert (forall ft secs,
    Forall (fun s => stripped s /\ s <> [] /\ extract_keywords ft s <> [])
           (extract_candidates ft secs)) as Hasx.
  { intros ft secs. apply Forall_forall. intros s.
    apply extract_candidates_spec. }
  destruct cls; unfold candidates_of; simpl.
  1-3: destruct (parse_sections _ fp) as [[|sec secs]|e];
       (split; [try apply NoDup_nil_2; try apply fromkeys_list_NoDup
               | try apply Forall_nil_2; try (apply Hweak; [done | apply Hasx])]).
  destruct (read_html fp) as [html|]; [|split; constructor].
  split; [apply fromkeys_list_NoDup|].
  apply Forall_forall. intros s Hs. rewrite fromkeys_list_elem in Hs.
  apply list_elem_of_bind in Hs as (sec & Hs & _).
  apply sec_extract_candidates_spec in Hs as (? & Hlen & ?).
  split_and!; try done. intros ->. simpl in Hlen. lia.
Qed.

Lemma batches_head {A} (c : A) (cs : list A) :
  exists b rest, batches (c :: cs) = b :: rest /\ b <> [].
Proof.
  destruct (batches (c :: cs)) as [|b rest] eqn:Hb.
  - pose proof (slices_concat (c :: cs)) as Hc.
    rewrite <- batches_slices, Hb in Hc. done.
  - exists b, rest. split; [done|].
    assert (batches (c :: cs) !! 0 = Some b) as H0 by by rewrite Hb.
    apply batches_lookup_length in H0.
    pose proof (batch_size_pos (length (c :: cs))).
    intros ->. simpl in *. lia.
Qed.

Lemma investor_batches_head {A} (c : A) (cs : list A) :
  exists b rest, investor_batches (c :: cs) = b :: rest.
Proof. unfold investor_batches. case_match; eauto. Qed.

Lemma process_batches_first_call `{External} ft build skip batch rest acc idx
    calls :
  skip = false \/ batch <> [] ->
  calls < (process_batches ft build skip (batch :: rest) acc idx calls).2.
Proof.
  intros Hb. rewrite process_batches_cons.
  assert (skip && bool_decide (batch = []) = false) as ->.
  { destruct Hb as [->|Hne]; [done|].
    by rewrite bool_decide_eq_false_2, andb_false_r. }
  pose proof (ask_llm_calls (prompt_pass2 ft (numbered batch)) calls) as Ha.
  destruct (ask_llm _ calls) as [[resp|e] calls']; simpl in *; [|lia].
  destruct (iterate _) as [l|]; simpl; [|lia].
  pose proof (process_batches_calls ft build skip rest
                (build_items build l acc idx).1
                (build_items build l acc idx).2 calls'). lia.
Qed.

Lemma consulted_iff `{External} cls fp md calls :
  (run (extract_of cls fp md) calls).2 = calls <-> candidates_of cls fp = [].
Proof.
  rewrite run_calls. unfold candidates_of.
  assert (forall ft batcher build skip,
    (forall c cs, exists b rest,
       batcher (c :: cs) = b :: rest /\ (skip = false \/ b <> [])) ->
    (extract_pdf fp ft batcher build skip calls).2 = calls <->
    match parse_sections ft fp with
    | Ok (sec :: sections) => extract_candidates ft (sec :: sections)
    | _ => []
    end = []) as Hpdf.
  { intros ft batcher build skip Hhead. rewrite extract_pdf_unfold.
    destruct (parse_sections ft fp) as [[|sec secs]|e]; try done.
    destruct (extract_candidates ft (sec :: secs)) as [|c cs]; [done|].
    destruct (Hhead c cs) as (b & rest & -> & Hb).
    pose proof (process_batches_first_call ft build skip b rest [] 1 calls Hb).
    split; [lia | done]. }
  destruct cls; simpl.
  - apply Hpdf. intros c cs.
    destruct (batches_head c cs) as (b & rest & -> & Hb). eauto.
  - apply Hpdf. intros c cs.
    destruct (batches_head c cs) as (b & rest & -> & Hb). eauto.
  - apply Hpdf. intros c cs.
    destruct (investor_batches_head c cs) as (b & rest & ->). eauto.
  - unfold extract_sec. destruct (read_html fp) as [html|]; [|done].
    destruct (fromkeys_list _) as [|c cs]; [done|].
    destruct (batches_head c cs) as (b & rest & -> & Hb).
    pose proof (process_batches_first_call SEC_10Q (build_sec md fp) true
                  b rest [] 1 calls (or_intror Hb)).
    split; [lia | done].
Qed.

(** X21. The model is consulted exactly when pass 1 finds a candidate: a
    run makes no invocation if and only if the file cannot be read, has no
    section or has no candidate sentence, and then the run returns the
    empty list. *)
Theorem model_consulted_iff_candidates `{External} cls fp md calls :
  ((run (extract_of cls fp md) calls).2 = calls <->
   candidates_of cls fp = []) /\
  (candidates_of cls fp = [] ->
   returned (run (extract_of cls fp md)) calls = []).
Proof.
  split; [apply consulted_iff|].
  rewrite RecordProps.returned_run. unfold returned, candidates_of.
  destruct cls; simpl;
    unfold extract_annual, extract_quarterly, extract_investor, extract_sec;
    rewrite ?extract_pdf_unfold.
  1-3: destruct (parse_sections _ fp) as [[|sec secs]|e]; try done;
       by intros ->.
  destruct (read_html fp) as [html|]; [|done]. by intros ->.
Qed.

(** X22. The investor extractor sends all candidates in one batch when
    there are at most ten, and otherwise cuts them in two halves, the
    first with the odd one: the batches put together are the candidates,
    in their order. *)
Theorem investor_halves {A} (candidates : list A) :
  let n := length candidates in
  concat (investor_batches candidates) = candidates /\
  length <$> investor_batches candidates
  = if decide (n <= 10) then [n] else [(n + 1) / 2; n / 2].
Proof.
  intros n. split; [apply investor_batching|]. subst n.
  unfold investor_batches, slice. remember (length candidates) as n eqn:Hn.
  assert (n / 2 + (n + 1) / 2 = n) as Hhalves.
  { pose proof (Nat.div_mod_eq n 2). pose proof (Nat.div_mod_eq (n + 1) 2).
    pose proof (Nat.mod_upper_bound n 2).
    pose proof (Nat.mod_upper_bound (n + 1) 2).
    assert ((n + 1) mod 2 = 1 - n mod 2) as Hm.
    { rewrite <- Nat.Div0.add_mod_idemp_l.
      destruct (n mod 2) as [|[|k]]; simpl in *; try lia; done. }
    lia. }
  destruct (Nat.leb_spec n 10) as [Hle|Hgt].
  - rewrite decide_True by done. simpl. by rewrite Hn.
  - rewrite decide_False by lia. rewrite !fmap_cons, fmap_nil.
    rewrite !length_take, !length_drop, <- Hn.
    f_equal; [lia|]. f_equal. lia.
Qed.

End CandidateProps.
